(** * Ozon client: session lifecycle, block handling and search extraction

    A shallow embedding of the two variants of [OzonClient]:

    - [PolicyA], the long-lived session refreshed through a freshness
      window (the variant with [init], [visitHomepage] and [hasCaptcha]);
    - [PolicyB], the fresh browser per operation (src/ozon-client.js, the
      variant with [createBrowser] and [loadPage]).

    JavaScript strings are sequences of UTF-16 code units, Playwright is an
    environment that answers every call (and may reject it), and the client
    is a state-and-exception monad over the controller fields and the table
    of running browser processes. *)

From stdpp Require Import gmap strings list.
From Stdlib Require Import ZArith NArith Lia.
From Stdlib Require Ascii.

Open Scope N_scope.

(** ** JavaScript strings *)

(** A JavaScript string is a list of UTF-16 code units. *)
Abbreviation jsstring := (list N).

(** [js] reads a literal written in UTF-8 in this file as UTF-16 code
    units, so that literals stay as they are in the source. *)
Fixpoint js (s : string) : jsstring :=
  match s with
  | EmptyString => []
  | String b1 s1 =>
    let n1 := Ascii.N_of_ascii b1 in
    if n1 <? 128 then n1 :: js s1
    else match s1 with
    | EmptyString => [n1]
    | String b2 s2 =>
      let n2 := Ascii.N_of_ascii b2 in
      if n1 <? 224 then ((n1 mod 32) * 64 + n2 mod 64) :: js s2
      else match s2 with
      | EmptyString => [n1; n2]
      | String b3 s3 =>
        let n3 := Ascii.N_of_ascii b3 in
        if n1 <? 240
        then ((n1 mod 16) * 4096 + (n2 mod 64) * 64 + n3 mod 64) :: js s3
        else match s3 with
        | EmptyString => [n1; n2; n3]
        | String b4 s4 =>
          let n4 := Ascii.N_of_ascii b4 in
          let cp := (n1 mod 8) * 262144 + (n2 mod 64) * 4096
                    + (n3 mod 64) * 64 + n4 mod 64 in
          let v := cp - 65536 in
          (55296 + v / 1024) :: (56320 + v mod 1024) :: js s4
        end
      end
    end
  end.

Arguments js : simpl never.

(** [\d] *)
Definition is_digit (c : N) : bool := (48 <=? c) && (c <=? 57).

(** [\s], which is also what [trim] strips: WhiteSpace and LineTerminator. *)
Definition is_space (c : N) : bool :=
  ((9 <=? c) && (c <=? 13)) || (c =? 32) || (c =? 160) || (c =? 5760)
  || ((8192 <=? c) && (c <=? 8202)) || (c =? 8232) || (c =? 8233)
  || (c =? 8239) || (c =? 8287) || (c =? 12288) || (c =? 65279).

Definition ch_minus : N := 45.
Definition ch_percent : N := 37.
Definition ch_slash : N := 47.
Definition ch_question : N := 63.
Definition ch_newline : N := 10.
Definition ch_comma : N := 44.
Definition ch_dot : N := 46.

Fixpoint takeWhile (p : N → bool) (s : jsstring) : jsstring :=
  match s with
  | [] => []
  | c :: s' => if p c then c :: takeWhile p s' else []
  end.

Fixpoint dropWhile (p : N → bool) (s : jsstring) : jsstring :=
  match s with
  | [] => []
  | c :: s' => if p c then dropWhile p s' else s
  end.

Definition nonempty (s : jsstring) : bool :=
  match s with [] => false | _ => true end.

(** [s.startsWith(p)] *)
Fixpoint startsWith (s p : jsstring) {struct p} : bool :=
  match p, s with
  | [], _ => true
  | _ :: _, [] => false
  | c :: p', d :: s' => (c =? d) && startsWith s' p'
  end.

(** [s.includes(p)] *)
Fixpoint includes (s p : jsstring) : bool :=
  startsWith s p ||
  match s with
  | [] => false
  | _ :: s' => includes s' p
  end.

(** [s.trim()] *)
Definition trim (s : jsstring) : jsstring :=
  rev (dropWhile is_space (rev (dropWhile is_space s))).

(** [s.split(sep)] for a separator of one code unit. *)
Fixpoint split (sep : N) (s : jsstring) : list jsstring :=
  match s with
  | [] => [[]]
  | c :: s' =>
    if c =? sep then [] :: split sep s'
    else match split sep s' with
         | l :: ls => (c :: l) :: ls
         | [] => [[c]]
         end
  end.

(** [text.split('\n').filter(l => l.trim())] *)
Definition textLines (text : jsstring) : list jsstring :=
  filter (λ l, nonempty (trim l) = true) (split ch_newline text).

(** [parseInt] of a string of decimal digits. *)
Definition parseDigits (ds : jsstring) : N :=
  fold_left (λ acc c, acc * 10 + (c - 48)) ds 0.

(** Decimal rendering of a number, as a template literal prints an
    integer. *)
Fixpoint digitsOfPos (fuel : nat) (n : N) (acc : jsstring) : jsstring :=
  match fuel with
  | O => acc
  | S fuel' =>
    let acc' := (48 + n mod 10) :: acc in
    if n / 10 =? 0 then acc' else digitsOfPos fuel' (n / 10) acc'
  end.

Definition showN (n : N) : jsstring := digitsOfPos (S (N.to_nat (N.log2 n))) n [].

Definition showZ (z : Z) : jsstring :=
  match z with
  | Zneg p => ch_minus :: showN (Npos p)
  | _ => showN (Z.to_N z)
  end.

(** ** The regular expressions of the source, one matcher each *)

(** [href.match(/-(\d+)(?:\?|\/|$)/)], first capture group: the leftmost
    [-] whose maximal run of digits is non-empty and is followed by [?],
    [/] or the end of the string. *)
Fixpoint matchLinkId (s : jsstring) : option jsstring :=
  match s with
  | [] => None
  | c :: s' =>
    let ds := takeWhile is_digit s' in
    let ok := match dropWhile is_digit s' with
              | [] => true
              | d :: _ => (d =? ch_question) || (d =? ch_slash)
              end in
    if (c =? ch_minus) && nonempty ds && ok then Some ds else matchLinkId s'
  end.

(** [url.match(/-(\d+)/)], first capture group. *)
Fixpoint matchDashDigits (s : jsstring) : option jsstring :=
  match s with
  | [] => None
  | c :: s' =>
    let ds := takeWhile is_digit s' in
    if (c =? ch_minus) && nonempty ds then Some ds else matchDashDigits s'
  end.

(** The last [-] of [s] that is followed by a digit, with its digits: where
    the greedy [[^\/]+] ends once it has backtracked. *)
Fixpoint lastDashDigits (s : jsstring) : option jsstring :=
  match s with
  | [] => None
  | c :: s' =>
    match lastDashDigits s' with
    | Some r => Some r
    | None =>
      let ds := takeWhile is_digit s' in
      if (c =? ch_minus) && nonempty ds then Some ds else None
    end
  end.

(** [href.match(/\/product\/[^\/]+-(\d+)/)], first capture group. *)
Fixpoint matchCardId (s : jsstring) : option jsstring :=
  match s with
  | [] => None
  | _ :: s' =>
    let here :=
      if startsWith s (js "/product/")
      then match takeWhile (λ c, negb (c =? ch_slash)) (drop 9 s) with
           | [] => None
           | _ :: seg => lastDashDigits seg
           end
      else None in
    match here with
    | Some r => Some r
    | None => matchCardId s'
    end
  end.

(** [line.match(re)], first capture group, for the price pattern [re]: one
    digit, then the longest run of digits and white space. *)
Fixpoint matchPriceRun (s : jsstring) : option jsstring :=
  match s with
  | [] => None
  | c :: s' =>
    if is_digit c
    then Some (c :: takeWhile (λ d, is_digit d || is_space d) s')
    else matchPriceRun s'
  end.

(** [parseInt(m.replace(/\s/g, ''))] for a run matched by [matchPriceRun]. *)
Definition parsePriceRun (m : jsstring) : N :=
  parseDigits (filter (λ c, is_space c = false) m).

(** [/^\d+%?$/] *)
Definition isNumberBadge (s : jsstring) : bool :=
  nonempty (takeWhile is_digit s) &&
  match dropWhile is_digit s with
  | [] => true
  | [c] => c =? ch_percent
  | _ => false
  end.

(** [/^-?\d+%?$/] *)
Definition isSignedBadge (s : jsstring) : bool :=
  match s with
  | c :: s' => if c =? ch_minus then isNumberBadge s' else isNumberBadge s
  | [] => false
  end.

(** [/^-\d+%$/] *)
Definition isDiscountBadge (s : jsstring) : bool :=
  match s with
  | c :: s' =>
    (c =? ch_minus) && nonempty (takeWhile is_digit s') &&
    match dropWhile is_digit s' with
    | [p] => p =? ch_percent
    | _ => false
    end
  | [] => false
  end.

(** A rating [d.d] as [parseFloat] reads it: units and tenths. *)
Record Rating := { units : N; tenths : N }.

(** [text.match(/(\d[,\.]\d)\s*[marks]/)] followed by
    [parseFloat(m[1].replace(',', '.'))]. *)
Fixpoint matchRating (marks : list N) (s : jsstring) : option Rating :=
  match s with
  | d1 :: ((sep :: d2 :: rest) as s') =>
    let found :=
      is_digit d1 && ((sep =? ch_comma) || (sep =? ch_dot)) && is_digit d2 &&
      match dropWhile is_space rest with
      | m :: _ => bool_decide (m ∈ marks)
      | [] => false
      end in
    if found then Some {| units := d1 - 48; tenths := d2 - 48 |}
    else matchRating marks s'
  | _ => None
  end.

(** [href.split('?')[0]] *)
Definition beforeQuery (s : jsstring) : jsstring :=
  takeWhile (λ c, negb (c =? ch_question)) s.

(** ** [encodeURIComponent] *)

Definition hexDigit (n : N) : N := if n <? 10 then 48 + n else 55 + n.

Definition percentByte (b : N) : jsstring := [ch_percent; hexDigit (b / 16); hexDigit (b mod 16)].

(** The characters [encodeURIComponent] leaves alone:
    [A-Z a-z 0-9 - _ . ! ~ * ' ( )]. *)
Definition uriUnreserved (c : N) : bool :=
  ((65 <=? c) && (c <=? 90)) || ((97 <=? c) && (c <=? 122)) || is_digit c
  || bool_decide (c ∈ [45; 95; 46; 33; 126; 42; 39; 40; 41]).

Definition utf8Bytes (cp : N) : list N :=
  if cp <? 128 then [cp]
  else if cp <? 2048 then [192 + cp / 64; 128 + cp mod 64]
  else if cp <? 65536
       then [224 + cp / 4096; 128 + (cp / 64) mod 64; 128 + cp mod 64]
       else [240 + cp / 262144; 128 + (cp / 4096) mod 64;
             128 + (cp / 64) mod 64; 128 + cp mod 64].

Definition isHighSurrogate (c : N) : bool := (55296 <=? c) && (c <=? 56319).
Definition isLowSurrogate (c : N) : bool := (56320 <=? c) && (c <=? 57343).

(** [None] is the [URIError] that a lone surrogate raises. *)
Fixpoint encodeURIComponent (s : jsstring) : option jsstring :=
  match s with
  | [] => Some []
  | c :: s' =>
    if uriUnreserved c then (c ::.) <$> encodeURIComponent s'
    else if isLowSurrogate c then None
    else if isHighSurrogate c then
      match s' with
      | d :: s'' =>
        if isLowSurrogate d
        then
          let cp := 65536 + (c - 55296) * 1024 + (d - 56320) in
          (concat (percentByte <$> utf8Bytes cp) ++.) <$> encodeURIComponent s''
        else None
      | [] => None
      end
    else (concat (percentByte <$> utf8Bytes c) ++.) <$> encodeURIComponent s'
  end.

(** ** The page as the in-page callbacks see it *)

(** A container element: its [innerText] ([None] when the property is
    undefined, as on an element that is not an HTML element) and the [src]
    of its first [img] ([None] when it has no [img]). *)
Record Element := {
  innerText : option jsstring;
  imgSrc : option jsstring
}.

(** What the callbacks read off an element they treat as a product link. *)
Record Link := {
  href : option jsstring;              (* getAttribute('href') *)
  linkText : option jsstring;          (* innerText *)
  linkImg : option jsstring;           (* querySelector('img')?.src *)
  closestDataIndex : option Element;   (* closest('[data-index]') *)
  closestTile : option Element;        (* closest('[class*="tile"]') *)
  parent2 : option Element;            (* parentElement?.parentElement *)
  parent3 : option Element             (* ...?.parentElement *)
}.

(** An element returned by [querySelectorAll]. *)
Record Node := {
  tagIsA : bool;                       (* tagName === 'A' *)
  asLink : Link;                       (* the element itself *)
  innerProductLink : option Link       (* querySelector('a[href*="/product/"]') *)
}.

(** The fields of a product page other than the title, as the callback of
    [getProductDetails] collects them from the price, review, image,
    characteristics, description and seller widgets. They are carried as
    data of the page; how the callback computes some of them is modelled
    apart, in [ProductPage]. *)
Record Scraped := {
  productPrice : option N;
  oldPrice : option N;
  discount : option N;
  productRating : option Rating;
  reviewsCount : option N;
  images : list jsstring;
  characteristics : list (jsstring * jsstring);
  description : option jsstring;
  seller : option jsstring;
  inStock : bool
}.

Record Document := {
  querySelectorAll : jsstring → list Node;
  h1 : option Element;                 (* querySelector('h1') *)
  scraped : Scraped;
  toLocaleString : N → jsstring        (* n.toLocaleString('ru-RU') *)
}.

(** ** Results *)

Record Item := {
  itemId : jsstring;
  itemUrl : jsstring;
  itemName : jsstring;
  price : option N;
  priceFormatted : option jsstring;
  image : option jsstring;
  rating : option Rating
}.

Record Product := {
  title : option jsstring;
  details : Scraped;
  productId : option jsstring;
  productUrl : jsstring
}.

Record Category := { categoryName : jsstring; categoryUrl : jsstring }.

(** What [setLocation] and [getFilters] of policy B return. *)
Record LocationResult := { success : bool; city : jsstring; note : jsstring }.

Record Filters := {
  filterQuery : jsstring;
  sortOptions : list (jsstring * jsstring);   (* value, name *)
  priceFilter : bool;
  filterNote : jsstring
}.

(** An entry of [getProductsList]: a product, or [{ id, error }]. *)
Inductive Entry :=
| EntryProduct (p : Product)
| EntryError (id : jsstring) (error : jsstring).

(** One turn of an extraction loop: [continue], [items.push(...)], or an
    exception caught by the [try] around the body. *)
Inductive Turn :=
| Continue
| Push (it : Item)
| Raised.

Definition ruble : jsstring := js "₽".
Definition origin : jsstring := js "https://www.ozon.ru".
Definition homepage : jsstring := js "https://www.ozon.ru/".

(** A selector with a quoted attribute value: [prefix"value"suffix]. *)
Definition selector (prefix value suffix : jsstring) : jsstring :=
  prefix ++ [34] ++ value ++ [34] ++ suffix.

(** [a[href*="/product/"]] and [a[href*="/category/"]] *)
Definition productLinks : jsstring := selector (js "a[href*=") (js "/product/") (js "]").
Definition categoryLinks : jsstring := selector (js "a[href*=") (js "/category/") (js "]").

(** [a || b] on strings, and [s || null]. *)
Definition orString (a b : jsstring) : jsstring := if nonempty a then a else b.
Definition orNull (s : option jsstring) : option jsstring :=
  match s with
  | Some (c :: t) => Some (c :: t)
  | _ => None
  end.

(** [a || b] on elements. *)
Definition orElement (a b : option Element) : option Element :=
  match a with Some e => Some e | None => b end.

(** [price ? `${price.toLocaleString('ru-RU')} ₽` : other] *)
Definition formatPrice (doc : Document) (p : option N) (other : option jsstring) : option jsstring :=
  match p with
  | Some (Npos n) => Some (toLocaleString doc (Npos n) ++ js " ₽")
  | _ => other
  end.

(** ** Errors, the browser environment and the client monad *)

(** What a [catch] can receive: an [Error] thrown by the client itself, a
    rejection of a Playwright call (a [TimeoutError], a failed launch, ...),
    a [TypeError] of the runtime (a property read on [null]) and the
    [URIError] of [encodeURIComponent]. Every one carries its [message]. *)
Inductive JsError :=
| Error (msg : jsstring)
| PlaywrightError (msg : jsstring)
| TypeError (msg : jsstring)
| URIError (msg : jsstring).

Definition message (e : JsError) : jsstring :=
  match e with
  | Error m | PlaywrightError m | TypeError m | URIError m => m
  end.

(** The outcome of an [async] function: it resolves or it rejects. *)
Inductive Res (A : Type) :=
| Ret (a : A)
| Throw (e : JsError).
Arguments Ret {A} a.
Arguments Throw {A} e.

(** The calls that leave the client. A browser, its context and its page
    are named by the number of the browser process. *)
Inductive Event :=
| EvLaunch
| EvNewContext (b : nat)
| EvNewPage (b : nat)
| EvAddInitScript (p : nat)
| EvGoto (p : nat) (url : jsstring) (timeout : N)
| EvWaitForTimeout (p : nat) (ms : N)
| EvMouseMove (p : nat) (x y : N)
| EvMouseWheel (p : nat) (dx dy : N)
| EvTitle (p : nat)
| EvUrl (p : nat)
| EvEvaluate (p : nat)
| EvBrowserClose (b : nat)
| EvDateNow
| EvRandom.

(** The world outside the client: [tick] counts the calls made so far and
    indexes the answers of the environment, [live] is the table of browser
    processes that are running, [launched] the number of processes started
    so far, [trace] the calls made, most recent first. *)
Record World := {
  tick : nat;
  live : list nat;
  launched : nat;
  trace : list Event
}.

(** The answers of the environment, by tick: whether the Playwright call
    made at that tick rejects (and with which message), and what the page
    shows, the clock reads and [Math.random] draws at that tick. *)
Record Env := {
  env_fail : nat → option jsstring;
  env_title : nat → jsstring;
  env_url : nat → jsstring;
  env_document : nat → Document;
  env_now : nat → Z;
  env_random : nat → N
}.

Record State (C : Type) := {
  world : World;
  client : C
}.
Arguments world {C} s.
Arguments client {C} s.

Definition M (C A : Type) : Type := State C → Res A * State C.

Definition record (ev : Event) (w : World) : World :=
  {| tick := S (tick w); live := live w; launched := launched w;
     trace := ev :: trace w |}.

Section Monad.
Context {C : Type}.

Definition ret {A} (a : A) : M C A := λ st, (Ret a, st).

Definition bind {A B} (m : M C A) (k : A → M C B) : M C B :=
  λ st, match m st with
        | (Ret a, st') => k a st'
        | (Throw e, st') => (Throw e, st')
        end.

Definition throw {A} (e : JsError) : M C A := λ st, (Throw e, st).

(** [try { m } catch (e) { handler e }] *)
Definition tryCatch {A} (m : M C A) (handler : JsError → M C A) : M C A :=
  λ st, match m st with
        | (Ret a, st') => (Ret a, st')
        | (Throw e, st') => handler e st'
        end.

Definition getClient : M C C := λ st, (Ret (client st), st).

Definition setClient (c : C) : M C unit :=
  λ st, (Ret (), {| world := world st; client := c |}).

(** Reading a property of [o], which may be [null]. *)
Definition deref {A} (o : option A) : M C A :=
  match o with
  | Some a => ret a
  | None => throw (TypeError (js "Cannot read properties of null"))
  end.
End Monad.

Declare Scope client_scope.
Delimit Scope client_scope with client.
Bind Scope client_scope with M.
Notation "x ← y ; z" := (bind y (λ x : _, z))
  (at level 20, y at level 100, z at level 200, only parsing) : client_scope.
Notation "' x ← y ; z" := (bind y (λ x : _, z))
  (at level 20, x pattern, y at level 100, z at level 200, only parsing) : client_scope.
Notation "x ;; z" := (bind x (λ _, z))
  (at level 100, z at level 200, only parsing, right associativity) : client_scope.
Open Scope client_scope.

(** ** Playwright and the host, as calls answered by the environment *)

Section Calls.
Context {C : Type} (env : Env).

(** A Playwright call: recorded, then rejected or resolved to [f t]. *)
Definition call {A} (ev : Event) (f : nat → A) : M C A :=
  λ st,
    let t := tick (world st) in
    let st' := {| world := record ev (world st); client := client st |} in
    match env_fail env t with
    | Some msg => (Throw (PlaywrightError msg), st')
    | None => (Ret (f t), st')
    end.

(** A synchronous call of the host, which does not fail. *)
Definition host {A} (ev : Event) (f : nat → A) : M C A :=
  λ st, (Ret (f (tick (world st))),
         {| world := record ev (world st); client := client st |}).

(** [chromium.launch(...)]: a new browser process when it resolves. *)
Definition launch : M C nat :=
  λ st,
    let w := world st in
    match env_fail env (tick w) with
    | Some msg =>
      (Throw (PlaywrightError msg),
       {| world := record EvLaunch w; client := client st |})
    | None =>
      (Ret (launched w),
       {| world := {| tick := S (tick w); live := launched w :: live w;
                      launched := S (launched w);
                      trace := EvLaunch :: trace w |};
          client := client st |})
    end.

(** [browser.close()]: the process is gone once the call has been made,
    whether the call then resolves or rejects. *)
Definition browserClose (b : nat) : M C unit :=
  λ st,
    let w := world st in
    let w' := {| tick := S (tick w);
                 live := filter (λ x, x ≠ b) (live w);
                 launched := launched w;
                 trace := EvBrowserClose b :: trace w |} in
    match env_fail env (tick w) with
    | Some msg => (Throw (PlaywrightError msg), {| world := w'; client := client st |})
    | None => (Ret (), {| world := w'; client := client st |})
    end.

Definition newContext (b : nat) : M C nat := call (EvNewContext b) (λ _, b).
Definition newPage (ctx : nat) : M C nat := call (EvNewPage ctx) (λ _, ctx).
Definition addInitScript (p : nat) : M C unit := call (EvAddInitScript p) (λ _, ()).
Definition goto (p : nat) (url : jsstring) (timeout : N) : M C unit :=
  call (EvGoto p url timeout) (λ _, ()).
Definition waitForTimeout (p : nat) (ms : N) : M C unit :=
  call (EvWaitForTimeout p ms) (λ _, ()).
Definition mouseMove (p : nat) (x y : N) : M C unit := call (EvMouseMove p x y) (λ _, ()).
Definition mouseWheel (p : nat) (dx dy : N) : M C unit := call (EvMouseWheel p dx dy) (λ _, ()).
Definition pageTitle (p : nat) : M C jsstring := call (EvTitle p) (env_title env).
Definition pageUrl (p : nat) : M C jsstring := host (EvUrl p) (env_url env).
Definition evaluate {A} (p : nat) (callback : Document → A) : M C A :=
  call (EvEvaluate p) (λ t, callback (env_document env t)).
Definition dateNow : M C Z := host EvDateNow (env_now env).

(** [Math.floor(Math.random() * k)]: a draw below [k]. *)
Definition randomBelow (k : N) : M C N := host EvRandom (λ t, env_random env t mod k).
End Calls.

(** ** The search URL, built the same way by both variants *)

(** The [options] argument of [search]; [None] is a property left
    undefined, which takes the default of the destructuring. [limit] is a
    count. *)
Record Options := {
  sort : option jsstring;
  pageNum : option Z;
  priceMin : option Z;
  priceMax : option Z;
  limit : option N
}.

Definition noOptions : Options :=
  {| sort := None; pageNum := None; priceMin := None; priceMax := None; limit := None |}.

(** The own keys of [sortMap]. *)
Definition sortMap : list (jsstring * jsstring) :=
  [ (js "popular", js "score"); (js "price", js "price");
    (js "price_desc", js "price_desc"); (js "new", js "new");
    (js "rating", js "rating"); (js "discount", js "discount") ].

Fixpoint lookupKey (k : jsstring) (m : list (jsstring * jsstring)) : option jsstring :=
  match m with
  | [] => None
  | (k', v) :: m' => if decide (k = k') then Some v else lookupKey k m'
  end.

(** [z || d] on numbers: [null], [undefined] and [0] are falsy. *)
Definition orNumber (z : option Z) (d : Z) : Z :=
  match z with
  | Some 0%Z | None => d
  | Some v => v
  end.

Definition truthyNumber (z : option Z) : bool :=
  match z with
  | Some 0%Z | None => false
  | Some _ => true
  end.

Definition limitOf (o : Options) : N := default 20 (limit o).

(** The URL of a search, given the encoded query. *)
Definition searchUrl (encoded : jsstring) (o : Options) : jsstring :=
  let url := js "https://www.ozon.ru/search/?text=" ++ encoded ++ js "&from_global=true" in
  let url :=
    match lookupKey (default (js "popular") (sort o)) sortMap with
    | Some v => url ++ js "&sorting=" ++ v
    | None => url
    end in
  let url :=
    if truthyNumber (priceMin o) || truthyNumber (priceMax o)
    then url ++ js "&currency_price=" ++ showZ (orNumber (priceMin o) 0)
             ++ js ".000%3B" ++ showZ (orNumber (priceMax o) 9999999) ++ js ".000"
    else url in
  if (1 <? default 1%Z (pageNum o))%Z
  then url ++ js "&page=" ++ showZ (default 1%Z (pageNum o))
  else url.

(** [encodeURIComponent(query)] inside a client function. *)
Definition encodeQuery {C} (query : jsstring) : M C jsstring :=
  match encodeURIComponent query with
  | Some q => ret q
  | None => throw (URIError (js "URI malformed"))
  end.

(** [h1?.innerText?.trim() || null] *)
Definition h1Title (doc : Document) : option jsstring :=
  orNull (trim <$> (h1 doc ≫= innerText)).

(** The product page as the callback of [getProductDetails] returns it,
    before [id] and [url] are assigned. *)
Definition scrapeProduct (doc : Document) : Product :=
  {| title := h1Title doc; details := scraped doc; productId := None; productUrl := [] |}.

(** [product.id = idMatch ? idMatch[1] : null; product.url = currentUrl] *)
Definition withIdAndUrl (p : Product) (currentUrl : jsstring) : Product :=
  {| title := title p; details := details p;
     productId := matchDashDigits currentUrl; productUrl := currentUrl |}.

(** The URL of a product given by id or by URL. *)
Definition productUrlOf (productIdOrUrl : jsstring) : jsstring :=
  if startsWith productIdOrUrl (js "http") then productIdOrUrl
  else js "https://www.ozon.ru/product/" ++ productIdOrUrl ++ js "/".

(** The category links of the homepage, as both variants collect them. *)
Fixpoint collectCategories (links : list Node) (result : list Category)
    (seen : gset jsstring) : list Category :=
  match links with
  | [] => result
  | link :: rest =>
    match href (asLink link), trim <$> linkText (asLink link) with
    | Some h, Some name =>
      if nonempty h && nonempty name && bool_decide (1 < length name)%nat
         && bool_decide (length name < 100)%nat && negb (bool_decide (h ∈ seen))
      then collectCategories rest
             (result ++ [{| categoryName := name;
                            categoryUrl := if startsWith h (js "http") then h
                                           else origin ++ h |}])
             ({[ h ]} ∪ seen)
      else collectCategories rest result seen
    | _, _ => collectCategories rest result seen
    end
  end.

Definition scrapeCategories (doc : Document) : list Category :=
  collectCategories (querySelectorAll doc categoryLinks) [] ∅.

(** ** Policy B: a fresh browser for every operation (src/ozon-client.js) *)

Module PolicyB.

Record Client := {
  browser : option nat;
  context : option nat;
  page : option nat
}.

(** [constructor()] *)
Definition constructor : Client :=
  {| browser := None; context := None; page := None |}.

(** [title.includes('Antibot') || title.includes('ограничен')] *)
Definition isBlocked (title : jsstring) : bool :=
  includes title (js "Antibot") || includes title (js "ограничен").

(** The price: the first line with the ruble sign that has a price run. *)
Fixpoint findPrice (lines : list jsstring) : option N :=
  match lines with
  | [] => None
  | line :: rest =>
    if includes line ruble
    then match matchPriceRun line with
         | Some m => Some (parsePriceRun m)
         | None => findPrice rest
         end
    else findPrice rest
  end.

(** The name: the first line of 16 to 299 code units that is neither a
    price nor a badge. *)
Fixpoint findName (lines : list jsstring) : jsstring :=
  match lines with
  | [] => []
  | line :: rest =>
    let trimmed := trim line in
    if nonempty trimmed && negb (includes trimmed ruble)
       && negb (isSignedBadge trimmed)
       && bool_decide (15 < length trimmed)%nat
       && bool_decide (length trimmed < 300)%nat
    then trimmed
    else findName rest
  end.

(** [closest('[data-index]') || closest('[class*="tile"]') || ...] *)
Definition container (link : Link) : option Element :=
  orElement (closestDataIndex link) (orElement (closestTile link) (parent3 link)).

(** The body of the loop of [search] over the product links, for one
    link. Nothing in it raises. *)
Definition extractLink (doc : Document) (seen : gset jsstring) (link : Link)
    : gset jsstring * Turn :=
  match orNull (href link) with
  | None => (seen, Continue)
  | Some h =>
    match orNull (matchLinkId h) with
    | None => (seen, Continue)
    | Some id =>
      if bool_decide (id ∈ seen) then (seen, Continue)
      else
        let seen' := {[ id ]} ∪ seen in
        match container link with
        | None => (seen', Continue)
        | Some container =>
          let text := default [] (innerText container) in
          let lines := textLines text in
          let p := findPrice lines in
          (seen',
           Push {| itemId := id;
                   itemUrl := origin ++ (if startsWith h (js "/") then [] else js "/")
                                     ++ beforeQuery h;
                   itemName := orString (findName lines) (js "Product " ++ id);
                   price := p;
                   priceFormatted := formatPrice doc p None;
                   image := orNull (imgSrc container);
                   rating := matchRating (js "★⭐•") text |})
        end
    end
  end.

(** The loop: [break] at [maxResults] items, [seen] kept across turns. *)
Fixpoint extractLoop (doc : Document) (maxResults : N) (links : list Node)
    (items : list Item) (seen : gset jsstring) : list Item :=
  match links with
  | [] => items
  | link :: rest =>
    if maxResults <=? N.of_nat (length items) then items
    else match extractLink doc seen (asLink link) with
         | (seen', Push it) => extractLoop doc maxResults rest (items ++ [it]) seen'
         | (seen', _) => extractLoop doc maxResults rest items seen'
         end
  end.

(** The callback that [search] evaluates in the page. *)
Definition extractProducts (maxResults : N) (doc : Document) : list Item :=
  extractLoop doc maxResults (querySelectorAll doc productLinks) [] ∅.

Section WithEnv.
Variable env : Env.

Definition setBrowser (b : option nat) : M Client unit :=
  c ← getClient;
  setClient {| browser := b; context := context c; page := page c |}.
Definition setContext (x : option nat) : M Client unit :=
  c ← getClient;
  setClient {| browser := browser c; context := x; page := page c |}.
Definition setPage (p : option nat) : M Client unit :=
  c ← getClient;
  setClient {| browser := browser c; context := context c; page := p |}.

(** [close()]: errors of [browser.close()] are ignored. *)
Definition close : M Client unit :=
  c ← getClient;
  match browser c with
  | Some b =>
    tryCatch (browserClose env b) (λ _, ret ());;
    setBrowser None;;
    setContext None;;
    setPage None
  | None => ret ()
  end.

(** [createBrowser()] *)
Definition createBrowser : M Client nat :=
  close;;
  b ← launch env;
  setBrowser (Some b);;
  ctx ← newContext env b;
  setContext (Some ctx);;
  p ← newPage env ctx;
  setPage (Some p);;
  ret p.

(** [loadPage(url, waitTime)] *)
Definition loadPage (url : jsstring) (waitTime : N) : M Client (nat * jsstring) :=
  p ← createBrowser;
  goto env p url 90000;;
  waitForTimeout env p waitTime;;
  t ← pageTitle env p;
  ret (p, t).

(** [search(query, options)] *)
Definition search (query : jsstring) (options : Options) : M Client (list Item) :=
  q ← encodeQuery query;
  let url := searchUrl q options in
  tryCatch
    ('(p, t) ← loadPage url 15000;
     if isBlocked t
     then close;; ret []
     else
       products ← evaluate env p (extractProducts (limitOf options));
       close;;
       ret products)
    (λ error, close;; throw error).

(** [getProductDetails(productIdOrUrl)] *)
Definition getProductDetails (productIdOrUrl : jsstring) : M Client Product :=
  let url := productUrlOf productIdOrUrl in
  tryCatch
    ('(homePage, _) ← loadPage homepage 10000;
     homeTitle ← pageTitle env homePage;
     goto env homePage url 90000;;
     waitForTimeout env homePage 15000;;
     productTitle ← pageTitle env homePage;
     if isBlocked productTitle
     then close;; throw (Error (js "Product page blocked by antibot"))
     else
       product ← evaluate env homePage scrapeProduct;
       currentUrl ← pageUrl env homePage;
       close;;
       ret (withIdAndUrl product currentUrl))
    (λ error, close;; throw error).

(** [getProductsList(productIds)], with [results] as built so far. *)
Fixpoint getProductsListFrom (productIds : list jsstring) (results : list Entry)
    : M Client (list Entry) :=
  match productIds with
  | [] => ret results
  | id :: rest =>
    results' ← tryCatch
      (product ← getProductDetails id;
       ret (results ++ [EntryProduct product]))
      (λ e, ret (results ++ [EntryError id (message e)]));
    getProductsListFrom rest results'
  end.

Definition getProductsList (productIds : list jsstring) : M Client (list Entry) :=
  getProductsListFrom productIds [].

(** [setLocation(city)] and [getFilters(query)] start no browser. *)
Definition setLocation (city : jsstring) : M Client LocationResult :=
  ret {| success := true; city := city;
         note := js "Location setting not fully implemented" |}.

Definition getFilters (query : jsstring) : M Client Filters :=
  ret {| filterQuery := query;
         sortOptions :=
           [ (js "popular", js "По популярности");
             (js "price", js "По цене (возрастание)");
             (js "price_desc", js "По цене (убывание)");
             (js "new", js "По новизне");
             (js "rating", js "По рейтингу");
             (js "discount", js "По скидке") ];
         priceFilter := true;
         filterNote := js "Full filter extraction not implemented" |}.

(** [getCategories()] *)
Definition getCategories : M Client (list Category) :=
  tryCatch
    ('(p, _) ← loadPage homepage 10000;
     categories ← evaluate env p scrapeCategories;
     close;;
     ret categories)
    (λ error, close;; throw error).
End WithEnv.

(** A controller just constructed, before any browser was started. *)
Definition initial : State Client :=
  {| world := {| tick := 0; live := []; launched := 0; trace := [] |};
     client := constructor |}.
End PolicyB.

(** ** Policy A: a long-lived session with a freshness window *)

Module PolicyA.

Record Client := {
  browser : option nat;
  context : option nat;
  page : option nat;
  isInitialized : bool;
  lastHomepageVisit : Z;
  homepageVisitInterval : Z
}.

(** [constructor()]: the window is [5 * 60 * 1000] ms. *)
Definition constructor : Client :=
  {| browser := None; context := None; page := None;
     isInitialized := false; lastHomepageVisit := 0;
     homepageVisitInterval := 5 * 60 * 1000 |}.

(** The test of [hasCaptcha()] on the title. *)
Definition isCaptchaTitle (title : jsstring) : bool :=
  includes title (js "Antibot") || includes title (js "Captcha")
  || includes title (js "ограничен").

(** The selectors that [search] tries in turn for product cards. *)
Definition selectors : list jsstring :=
  [ selector (js "[data-widget=") (js "searchResultsV2") (js "] [data-index]");
    js ".widget-search-result-container [data-index]";
    js ".k0a_27 a";
    selector (js "[class*=") (js "tile-root") (js "]");
    productLinks ].

(** [for (const selector of selectors) { cards = ...; if (cards.length > 0) break; }] *)
Fixpoint findCards (doc : Document) (sels : list jsstring) (cards : list Node) : list Node :=
  match sels with
  | [] => cards
  | sel :: rest =>
    match querySelectorAll doc sel with
    | [] => findCards doc rest []
    | c :: cs => c :: cs
    end
  end.

(** The first line with the ruble sign decides: its price run, if it has
    one, and the line itself as [priceText]. *)
Fixpoint findPrice (lines : list jsstring) : option N * jsstring :=
  match lines with
  | [] => (None, [])
  | line :: rest =>
    if includes line ruble
    then (parsePriceRun <$> matchPriceRun line, line)
    else findPrice rest
  end.

(** The name: the first line of more than 10 code units that is neither a
    price nor a badge. *)
Fixpoint findName (lines : list jsstring) : jsstring :=
  match lines with
  | [] => []
  | line :: rest =>
    let trimmed := trim line in
    if nonempty trimmed && negb (includes trimmed ruble)
       && negb (isNumberBadge trimmed) && negb (isDiscountBadge trimmed)
       && bool_decide (10 < length trimmed)%nat
    then trimmed
    else findName rest
  end.

(** [card.tagName === 'A' ? card : card.querySelector(...)] *)
Definition linkOf (card : Node) : option Link :=
  if tagIsA card then Some (asLink card) else innerProductLink card.

(** [closest('[data-index]') || closest('[class*="tile"]') || ...] *)
Definition container (link : Link) : option Element :=
  orElement (closestDataIndex link) (orElement (closestTile link) (parent2 link)).

(** [container ? container.innerText : link.innerText] *)
Definition textOf (link : Link) : option jsstring :=
  match container link with
  | Some c => innerText c
  | None => linkText link
  end.

(** The body of the loop of [search] over the cards, for one card. The
    text of an element whose [innerText] is undefined makes [text.split]
    raise, after the id has been added to [seen]. *)
Definition extractCard (doc : Document) (seen : gset jsstring) (card : Node)
    : gset jsstring * Turn :=
  match linkOf card with
  | None => (seen, Continue)
  | Some link =>
    match orNull (href link) with
    | None => (seen, Continue)
    | Some h =>
      if negb (includes h (js "/product/")) then (seen, Continue)
      else
        match orNull (matchCardId h) with
        | None => (seen, Continue)
        | Some id =>
          if bool_decide (id ∈ seen) then (seen, Continue)
          else
            let seen' := {[ id ]} ∪ seen in
            match textOf link with
            | None => (seen', Raised)
            | Some text =>
              let lines := textLines text in
              let '(p, priceText) := findPrice lines in
              let img := match container link ≫= imgSrc with
                         | Some src => Some src
                         | None => linkImg link
                         end in
              (seen',
               Push {| itemId := id;
                       itemUrl := origin ++ (if startsWith h (js "/") then h
                                             else js "/" ++ h);
                       itemName := orString (findName lines) (js "Unknown");
                       price := p;
                       priceFormatted := formatPrice doc p (orNull (Some priceText));
                       image := orNull img;
                       rating := matchRating (js "★⭐") text |})
            end
        end
    end
  end.

Fixpoint extractLoop (doc : Document) (maxResults : N) (cards : list Node)
    (items : list Item) (seen : gset jsstring) : list Item :=
  match cards with
  | [] => items
  | card :: rest =>
    if maxResults <=? N.of_nat (length items) then items
    else match extractCard doc seen card with
         | (seen', Push it) => extractLoop doc maxResults rest (items ++ [it]) seen'
         | (seen', _) => extractLoop doc maxResults rest items seen'
         end
  end.

(** The callback that [search] evaluates in the page. *)
Definition extractProducts (maxResults : N) (doc : Document) : list Item :=
  extractLoop doc maxResults (findCards doc selectors []) [] ∅.

Section WithEnv.
Variable env : Env.

Definition setBrowser (b : option nat) : M Client unit :=
  c ← getClient;
  setClient {| browser := b; context := context c; page := page c;
               isInitialized := isInitialized c;
               lastHomepageVisit := lastHomepageVisit c;
               homepageVisitInterval := homepageVisitInterval c |}.
Definition setContext (x : option nat) : M Client unit :=
  c ← getClient;
  setClient {| browser := browser c; context := x; page := page c;
               isInitialized := isInitialized c;
               lastHomepageVisit := lastHomepageVisit c;
               homepageVisitInterval := homepageVisitInterval c |}.
Definition setPage (p : option nat) : M Client unit :=
  c ← getClient;
  setClient {| browser := browser c; context := context c; page := p;
               isInitialized := isInitialized c;
               lastHomepageVisit := lastHomepageVisit c;
               homepageVisitInterval := homepageVisitInterval c |}.
Definition setIsInitialized (i : bool) : M Client unit :=
  c ← getClient;
  setClient {| browser := browser c; context := context c; page := page c;
               isInitialized := i;
               lastHomepageVisit := lastHomepageVisit c;
               homepageVisitInterval := homepageVisitInterval c |}.
Definition setLastHomepageVisit (t : Z) : M Client unit :=
  c ← getClient;
  setClient {| browser := browser c; context := context c; page := page c;
               isInitialized := isInitialized c;
               lastHomepageVisit := t;
               homepageVisitInterval := homepageVisitInterval c |}.

(** [this.page], read to call a method on it. *)
Definition thisPage : M Client nat :=
  c ← getClient;
  deref (page c).

(** [simulateHumanBehavior()]. The wait of [Math.random() * 300 + 100]
    ms is taken to the millisecond. *)
Definition moveOnce : M Client unit :=
  x ← randomBelow env 1700;
  y ← randomBelow env 800;
  p ← thisPage;
  mouseMove env p (x + 100) (y + 100);;
  p ← thisPage;
  ms ← randomBelow env 300;
  waitForTimeout env p (ms + 100).

Definition simulateHumanBehavior : M Client unit :=
  moveOnce;; moveOnce;; moveOnce;;
  p ← thisPage;
  dy ← randomBelow env 300;
  mouseWheel env p 0 (dy + 100);;
  p ← thisPage;
  waitForTimeout env p 500.

(** [visitHomepage(force)] *)
Definition visitHomepage (force : bool) : M Client unit :=
  now ← dateNow env;
  c ← getClient;
  if negb force
     && (now - lastHomepageVisit c <? homepageVisitInterval c)%Z
     && (0 <? lastHomepageVisit c)%Z
  then ret ()
  else
    p ← thisPage;
    goto env p homepage 90000;;
    p ← thisPage;
    waitForTimeout env p 8000;;
    simulateHumanBehavior;;
    p ← thisPage;
    waitForTimeout env p 3000;;
    setLastHomepageVisit now;;
    p ← thisPage;
    _ ← pageTitle env p;
    ret ().

(** [init()] *)
Definition init : M Client unit :=
  c ← getClient;
  if isInitialized c then ret ()
  else
    b ← launch env;
    setBrowser (Some b);;
    ctx ← newContext env b;
    setContext (Some ctx);;
    p ← newPage env ctx;
    setPage (Some p);;
    p ← thisPage;
    addInitScript env p;;
    visitHomepage false;;
    setIsInitialized true.

(** [close()]: a rejection of [browser.close()] propagates. *)
Definition close : M Client unit :=
  c ← getClient;
  match browser c with
  | Some b =>
    browserClose env b;;
    setBrowser None;;
    setContext None;;
    setPage None;;
    setIsInitialized false
  | None => ret ()
  end.

(** [hasCaptcha()] *)
Definition hasCaptcha : M Client bool :=
  p ← thisPage;
  t ← pageTitle env p;
  ret (isCaptchaTitle t).

(** [search(query, options)] *)
Definition search (query : jsstring) (options : Options) : M Client (list Item) :=
  init;;
  q ← encodeQuery query;
  let url := searchUrl q options in
  visitHomepage false;;
  p ← thisPage;
  goto env p url 90000;;
  p ← thisPage;
  waitForTimeout env p 12000;;
  simulateHumanBehavior;;
  p ← thisPage;
  waitForTimeout env p 3000;;
  blocked ← hasCaptcha;
  (if blocked
   then
     setLastHomepageVisit 0;;
     visitHomepage true;;
     p ← thisPage;
     waitForTimeout env p 5000;;
     p ← thisPage;
     goto env p url 90000;;
     p ← thisPage;
     waitForTimeout env p 15000;;
     simulateHumanBehavior
   else ret ());;
  p ← thisPage;
  _ ← pageTitle env p;
  p ← thisPage;
  evaluate env p (extractProducts (limitOf options)).

(** [getProductDetails(productIdOrUrl)] *)
Definition getProductDetails (productIdOrUrl : jsstring) : M Client Product :=
  init;;
  let url := productUrlOf productIdOrUrl in
  visitHomepage false;;
  p ← thisPage;
  goto env p url 90000;;
  p ← thisPage;
  waitForTimeout env p 15000;;
  simulateHumanBehavior;;
  blocked ← hasCaptcha;
  (if blocked
   then
     p ← thisPage;
     waitForTimeout env p 5000;;
     visitHomepage false;;
     p ← thisPage;
     goto env p url 90000;;
     p ← thisPage;
     waitForTimeout env p 15000;;
     still ← hasCaptcha;
     if still then throw (Error (js "Unable to bypass captcha for product page"))
     else ret ()
   else ret ());;
  p ← thisPage;
  currentUrl ← pageUrl env p;
  p ← thisPage;
  _ ← pageTitle env p;
  p ← thisPage;
  product ← evaluate env p scrapeProduct;
  let product := withIdAndUrl product currentUrl in
  if bool_decide (title product = Some (js "Доступ ограничен"))
     || negb (nonempty (default [] (title product)))
  then throw (Error (js "Failed to load product page (access restricted)"))
  else ret product.

(** [getProductsList(productIds)], with [results] as built so far: the
    wait between requests is outside the [try]. *)
Fixpoint getProductsListFrom (productIds : list jsstring) (results : list Entry)
    : M Client (list Entry) :=
  match productIds with
  | [] => ret results
  | id :: rest =>
    results' ← tryCatch
      (product ← getProductDetails id;
       ret (results ++ [EntryProduct product]))
      (λ e, ret (results ++ [EntryError id (message e)]));
    p ← thisPage;
    waitForTimeout env p 2000;;
    getProductsListFrom rest results'
  end.

Definition getProductsList (productIds : list jsstring) : M Client (list Entry) :=
  getProductsListFrom productIds [].

(** [getCategories()] *)
Definition getCategories : M Client (list Category) :=
  init;;
  p ← thisPage;
  goto env p homepage 90000;;
  p ← thisPage;
  waitForTimeout env p 5000;;
  p ← thisPage;
  evaluate env p scrapeCategories.
End WithEnv.

(** A controller just constructed, before any browser was started. *)
Definition initial : State Client :=
  {| world := {| tick := 0; live := []; launched := 0; trace := [] |};
     client := constructor |}.
End PolicyA.

(** ** Vocabulary of the properties *)

(** [wp m st Q]: run from [st], [m] ends in an outcome and a state that
    satisfy [Q]. *)
Definition wp {C A} (m : M C A) (st : State C) (Q : Res A → State C → Prop) : Prop :=
  Q (m st).1 (m st).2.

(** The number of browser processes running. *)
Definition alive {C} (st : State C) : nat := length (live (world st)).

Fixpoint countEvents (p : Event → bool) (tr : list Event) : nat :=
  match tr with
  | [] => 0%nat
  | ev :: tr' => ((if p ev then 1 else 0) + countEvents p tr')%nat
  end.

(** The wait of 2000 ms that [getProductsList] puts between requests; no
    other wait of the client has this length. *)
Definition isPacingWait (ev : Event) : bool :=
  match ev with
  | EvWaitForTimeout _ ms => ms =? 2000
  | _ => false
  end.

Definition pacingWaits {C} (st : State C) : nat :=
  countEvents isPacingWait (trace (world st)).

(** A warm-up: a navigation to the homepage. *)
Definition isWarmup (ev : Event) : bool :=
  match ev with
  | EvGoto _ url _ => bool_decide (url = homepage)
  | _ => false
  end.

Definition warmups {C} (st : State C) : nat :=
  countEvents isWarmup (trace (world st)).

(** The environment in which no call to Playwright rejects. *)
Definition neverRejects (env : Env) : Prop := ∀ t, env_fail env t = None.

(** The errors that the client throws on a block and on a product page
    without a title. *)
Definition isBlockedError (e : JsError) : Prop :=
  e = Error (js "Unable to bypass captcha for product page")
  ∨ e = Error (js "Product page blocked by antibot").

Definition isNotFoundError (e : JsError) : Prop :=
  e = Error (js "Failed to load product page (access restricted)").

(** An error that a Playwright call raised, not the client. *)
Definition isPlaywrightError (e : JsError) : Prop := ∃ msg, e = PlaywrightError msg.

(** The error [e] is the rejection of a call by the environment. *)
Definition rejected (env : Env) (e : JsError) : Prop :=
  ∃ t msg, env_fail env t = Some msg ∧ e = PlaywrightError msg.

(** Between [st] and [st'] the controller did not change, no browser
    started or stopped, and no pacing wait and no warm-up took place. *)
Definition quiet {C} (st st' : State C) : Prop :=
  client st' = client st
  ∧ live (world st') = live (world st)
  ∧ launched (world st') = launched (world st)
  ∧ pacingWaits st' = pacingWaits st
  ∧ warmups st' = warmups st.

(** The pattern [/-(\d+)/]: a [-] followed by a digit, somewhere. *)
Definition hasDashDigit (url : jsstring) : Prop :=
  ∃ pre d post, url = pre ++ ch_minus :: d :: post ∧ is_digit d = true.

(** How [getProductDetails] may end according to the specification: with
    a blocked error, with a not-found error, or with a product that has an
    id whenever its URL matches the pattern of ids. *)
Definition detailsOutcome (r : Res Product) : Prop :=
  match r with
  | Ret product => hasDashDigit (productUrl product) → productId product ≠ None
  | Throw e => isBlockedError e ∨ isNotFoundError e
  end.

(** The same, with the errors of the browser library let through. *)
Definition detailsOutcomeOrRejected (r : Res Product) : Prop :=
  match r with
  | Ret product => hasDashDigit (productUrl product) → productId product ≠ None
  | Throw e => isBlockedError e ∨ isNotFoundError e ∨ isPlaywrightError e
  end.

(** The entry that [getProductsList] records for [id], given how
    [getProductDetails(id)] ended. *)
Definition entryOf (id : jsstring) (r : Res Product) : Entry :=
  match r with
  | Ret p => EntryProduct p
  | Throw e => EntryError id (message e)
  end.


(** No line of [text] carries both the ruble sign and a digit: there is no
    price to parse. *)
Definition noParsablePrice (text : jsstring) : Prop :=
  Forall (λ line, includes line ruble = true → matchPriceRun line = None)
         (textLines text).

(** The shape that the two extraction loops share: a body [step] that, from
    the set of ids seen, skips, pushes an item or raises, under the bound
    [maxResults] on the items. *)
Fixpoint loopWith {X} (step : gset jsstring → X → gset jsstring * Turn)
    (maxResults : N) (xs : list X) (items : list Item) (seen : gset jsstring)
    : list Item :=
  match xs with
  | [] => items
  | x :: rest =>
    if maxResults <=? N.of_nat (length items) then items
    else match step seen x with
         | (seen', Push it) => loopWith step maxResults rest (items ++ [it]) seen'
         | (seen', _) => loopWith step maxResults rest items seen'
         end
  end.

(** Policy B: no browser is running and the controller holds none. *)
Definition releasedB (st : State PolicyB.Client) : Prop :=
  live (world st) = [] ∧ client st = PolicyB.constructor.

(** Policy B: a running browser is the one the controller holds, and a
    controller without a browser holds no context and no page. *)
Definition ownedB (st : State PolicyB.Client) : Prop :=
  (∀ b, b ∈ live (world st) → PolicyB.browser (client st) = Some b)
  ∧ (PolicyB.browser (client st) = None → client st = PolicyB.constructor).

(** Policy B: the public operations, and the state in which a call of one
    leaves the controller and the world. *)
Inductive OperationB :=
| SearchB (query : jsstring) (options : Options)
| GetProductDetailsB (productIdOrUrl : jsstring)
| GetProductsListB (productIds : list jsstring)
| SetLocationB (city : jsstring)
| GetFiltersB (query : jsstring)
| GetCategoriesB
| CloseB.

Definition afterB (env : Env) (st : State PolicyB.Client) (op : OperationB)
    : State PolicyB.Client :=
  match op with
  | SearchB query options => (PolicyB.search env query options st).2
  | GetProductDetailsB id => (PolicyB.getProductDetails env id st).2
  | GetProductsListB ids => (PolicyB.getProductsList env ids st).2
  | SetLocationB city => (PolicyB.setLocation city st).2
  | GetFiltersB query => (PolicyB.getFilters query st).2
  | GetCategoriesB => (PolicyB.getCategories env st).2
  | CloseB => (PolicyB.close env st).2
  end.

(** Policy A: the public operations that are modelled, and the state in
    which a call of one leaves the controller and the world. *)
Inductive OperationA :=
| SearchA (query : jsstring) (options : Options)
| GetProductDetailsA (productIdOrUrl : jsstring)
| GetProductsListA (productIds : list jsstring)
| GetCategoriesA
| CloseA.

Definition afterA (env : Env) (st : State PolicyA.Client) (op : OperationA)
    : State PolicyA.Client :=
  match op with
  | SearchA query options => (PolicyA.search env query options st).2
  | GetProductDetailsA id => (PolicyA.getProductDetails env id st).2
  | GetProductsListA ids => (PolicyA.getProductsList env ids st).2
  | GetCategoriesA => (PolicyA.getCategories env st).2
  | CloseA => (PolicyA.close env st).2
  end.

(** Policy A: an initialized controller holds a page. *)
Definition readyA (st : State PolicyA.Client) : Prop :=
  PolicyA.isInitialized (client st) = true → is_Some (PolicyA.page (client st)).

(** Policy A: between [st] and [st'] nothing changed but the time of the
    last warm-up and the number of warm-ups. *)
Definition keepsA (st st' : State PolicyA.Client) : Prop :=
  PolicyA.browser (client st') = PolicyA.browser (client st)
  ∧ PolicyA.context (client st') = PolicyA.context (client st)
  ∧ PolicyA.page (client st') = PolicyA.page (client st)
  ∧ PolicyA.isInitialized (client st') = PolicyA.isInitialized (client st)
  ∧ PolicyA.homepageVisitInterval (client st') = PolicyA.homepageVisitInterval (client st)
  ∧ live (world st') = live (world st)
  ∧ launched (world st') = launched (world st)
  ∧ pacingWaits st' = pacingWaits st.

(** Policy A: the test of [visitHomepage(false)] that skips the warm-up,
    for a clock that reads [now]. *)
Definition withinWindow (c : PolicyA.Client) (now : Z) : bool :=
  (now - PolicyA.lastHomepageVisit c <? PolicyA.homepageVisitInterval c)%Z
  && (0 <? PolicyA.lastHomepageVisit c)%Z.

(** ** Per-item isolation of a batch *)




(** ** Example pages and environments *)

Definition exampleElement (text : string) : Element :=
  {| innerText := Some (js text); imgSrc := Some (js "https://cdn.ozone.ru/1.jpg") |}.

(** A link inside a card with [data-index], with the text of the card. *)
Definition exampleLink (h text : string) : Link :=
  {| href := Some (js h); linkText := Some (js text); linkImg := None;
     closestDataIndex := Some (exampleElement text); closestTile := None;
     parent2 := None; parent3 := None |}.

(** A link of an SVG drawing: no card around it, and no [innerText]. *)
Definition exampleSvgLink (h : string) : Link :=
  {| href := Some (js h); linkText := None; linkImg := None;
     closestDataIndex := None; closestTile := None;
     parent2 := None; parent3 := None |}.

Definition exampleAnchor (l : Link) : Node :=
  {| tagIsA := true; asLink := l; innerProductLink := None |}.

Definition exampleScraped : Scraped :=
  {| productPrice := Some 1299; oldPrice := None; discount := None;
     productRating := None; reviewsCount := None; images := [];
     characteristics := []; description := None; seller := None;
     inStock := true |}.

(** A result page: a priced product, the same product again, a link of a
    drawing, and a product without a price. *)
Definition exampleNodes : list Node :=
  [ exampleAnchor (exampleLink "/product/smartfon-apple-iphone-15-123456/?at=1"
                     "Смартфон Apple iPhone 15 128 ГБ
1 299 ₽
4,8 ★");
    exampleAnchor (exampleLink "/product/smartfon-apple-iphone-15-123456/" "x");
    exampleAnchor (exampleSvgLink "/product/chehol-dlya-iphone-777/");
    exampleAnchor (exampleLink "/product/zaryadnoe-ustroystvo-4242/"
                     "Зарядное устройство, цена по запросу") ].

Definition exampleDocument : Document :=
  {| querySelectorAll := λ sel, if decide (sel = productLinks) then exampleNodes else [];
     h1 := Some (exampleElement " Смартфон Apple iPhone 15 ");
     scraped := exampleScraped;
     toLocaleString := showN |}.

(** An environment in which every call resolves, every page has the title
    [t], and the clock starts at one second and advances with the calls. *)
Definition envWithTitle (t : jsstring) : Env :=
  {| env_fail := λ _, None;
     env_title := λ _, t;
     env_url := λ _, js "https://www.ozon.ru/product/smartfon-apple-iphone-15-123456/";
     env_document := λ _, exampleDocument;
     env_now := λ n, (1000 + Z.of_nat n)%Z;
     env_random := λ _, 7 |}.

Definition envOk : Env := envWithTitle (js "OZON маркетплейс").
Definition envBlocked : Env := envWithTitle (js "Antibot Challenge Page").

(** The same, but the calls at the ticks in [ticks] reject with [msg]. *)
Definition envRejectingAt (ticks : list nat) (msg : jsstring) (t : jsstring) : Env :=
  {| env_fail := λ n, if bool_decide (n ∈ ticks) then Some msg else None;
     env_title := env_title (envWithTitle t);
     env_url := env_url (envWithTitle t);
     env_document := env_document (envWithTitle t);
     env_now := env_now (envWithTitle t);
     env_random := env_random (envWithTitle t) |}.

Definition timeoutMessage : jsstring := js "page.goto: Timeout 90000ms exceeded.".

(** The navigation to the homepage of a fresh session times out: it is the
    call at tick 3 in policy B (after the launch, the context and the page)
    and the call at tick 5 in policy A (after the init script and the read
    of the clock as well). *)
Definition envTimeoutB : Env := envRejectingAt [3%nat] timeoutMessage (js "OZON").
Definition envTimeoutA : Env := envRejectingAt [5%nat] timeoutMessage (js "OZON").

(** Every call resolves and no page is a block page, as in [envOk], with a
    clock that stays at [now]. *)
Definition envClockAt (now : Z) : Env :=
  {| env_fail := env_fail envOk; env_title := env_title envOk;
     env_url := env_url envOk; env_document := env_document envOk;
     env_now := λ _, now; env_random := env_random envOk |}.

(** A session of policy A is up after a first [search], which makes 52
    calls; then [browser.close()], the call at tick 52, rejects. *)
Definition envCloseRejects : Env :=
  envRejectingAt [52%nat] (js "browser.close: Protocol error") (js "OZON").

(** No browser can be started: every call rejects. *)
Definition envDown : Env :=
  {| env_fail := λ _, Some (js "browserType.launch: Executable doesn't exist");
     env_title := env_title envOk; env_url := env_url envOk;
     env_document := env_document envOk; env_now := env_now envOk;
     env_random := env_random envOk |}.

(** ** The product page, field by field *)

(** The callback of [getProductDetails] fills each field of its result on
    its own, from the text of one widget or from a list of elements. The
    functions below are those steps, on the texts and the [src] values that
    the page hands to them. *)
Module ProductPage.

(** What the class of the price pattern accepts: a digit or white space. *)
Definition isPriceChar (c : N) : bool := is_digit c || is_space c.

(** The price pattern followed by the ruble sign, first capture group: the
    leftmost digit whose longest run of digits and white space ends right
    before the sign. A shorter run ends before a digit or white space, so
    that backtracking into the run finds nothing. *)
Fixpoint matchPriceBeforeRuble (s : jsstring) : option jsstring :=
  match s with
  | [] => None
  | c :: s' =>
    if is_digit c && startsWith (dropWhile isPriceChar s') ruble
    then Some (c :: takeWhile isPriceChar s')
    else matchPriceBeforeRuble s'
  end.

(** What [.] does not match: the line terminators. *)
Definition isLineTerminator (c : N) : bool :=
  (c =? 10) || (c =? 13) || (c =? 8232) || (c =? 8233).

(** The second half of the pattern of the old price: the lazy [.*?] gives
    up as few characters as it can, none of them a line terminator, until a
    price run that ends before a ruble sign begins. *)
Fixpoint matchSecondPrice (s : jsstring) : option jsstring :=
  match s with
  | [] => None
  | c :: s' =>
    if is_digit c && startsWith (dropWhile isPriceChar s') ruble
    then Some (c :: takeWhile isPriceChar s')
    else if isLineTerminator c then None
    else matchSecondPrice s'
  end.

(** The pattern of the old price, second capture group: a price before a
    ruble sign, and a second one later on the same line. *)
Fixpoint matchOldPrice (s : jsstring) : option jsstring :=
  match s with
  | [] => None
  | c :: s' =>
    let rest := dropWhile isPriceChar s' in
    let here :=
      if is_digit c && startsWith rest ruble
      then matchSecondPrice (drop 1 rest)
      else None in
    match here with
    | Some m => Some m
    | None => matchOldPrice s'
    end
  end.

(** [result.price] and [result.oldPrice] (policy A), from the text of the
    price widget. *)
Definition priceOf (priceText : jsstring) : option N :=
  parsePriceRun <$> matchPriceBeforeRuble priceText.

Definition oldPriceOf (priceText : jsstring) : option N :=
  parsePriceRun <$> matchOldPrice priceText.

(** [result.images] in policy B, from the [src] of the images selected:
    the loop stops at ten images before it looks at the next one. *)
Fixpoint collectImagesB (srcs : list jsstring) (images : list jsstring) : list jsstring :=
  match srcs with
  | [] => images
  | src :: rest =>
    if bool_decide (10 ≤ length images)%nat then images
    else if nonempty src && negb (bool_decide (src ∈ images))
         then collectImagesB rest (images ++ [src])
         else collectImagesB rest images
  end.

(** [result.images] in policy A: the test on [ozone] is made here, and the
    loop stops right after the tenth image. *)
Fixpoint collectImagesA (srcs : list jsstring) (images : list jsstring) : list jsstring :=
  match srcs with
  | [] => images
  | src :: rest =>
    if nonempty src && includes src (js "ozone") && negb (bool_decide (src ∈ images))
    then let images' := images ++ [src] in
         if bool_decide (10 ≤ length images')%nat then images'
         else collectImagesA rest images'
    else collectImagesA rest images
  end.

(** [descWidget.innerText?.trim()?.substring(0, 2000) || null], and [null]
    without the widget. *)
Definition descriptionOf (descWidget : option Element) : option jsstring :=
  match descWidget with
  | Some w => orNull (take 2000 <$> (trim <$> innerText w))
  | None => None
  end.

(** [sellerWidget.innerText?.split('\n')[0]?.trim() || null] *)
Definition sellerOf (sellerWidget : option Element) : option jsstring :=
  match sellerWidget with
  | Some w => orNull (trim <$> (innerText w ≫= λ t, head (split ch_newline t)))
  | None => None
  end.

(** The separators of a row of characteristics: tab, newline and colon. *)
Definition isFieldSeparator (c : N) : bool := (c =? 9) || (c =? 10) || (c =? 58).

(** [text.split(re)] for a pattern [re] that is a class of code units. *)
Fixpoint splitWhere (sep : N → bool) (s : jsstring) : list jsstring :=
  match s with
  | [] => [[]]
  | c :: s' =>
    if sep c then [] :: splitWhere sep s'
    else match splitWhere sep s' with
         | l :: ls => (c :: l) :: ls
         | [] => [[c]]
         end
  end.

(** [parts.join(' ')] *)
Fixpoint joinSpace (parts : list jsstring) : jsstring :=
  match parts with
  | [] => []
  | [p] => p
  | p :: ps => p ++ 32 :: joinSpace ps
  end.

(** One row of the characteristics widget (policy A), from its text: the
    entry it pushes, if it pushes one. *)
Definition characteristicOf (text : jsstring) : option (jsstring * jsstring) :=
  match splitWhere isFieldSeparator text with
  | name :: ((_ :: _) as values) => Some (trim name, trim (joinSpace values))
  | _ => None
  end.

(** [result.characteristics] (policy A), from the texts of the rows. *)
Definition characteristicsOf (rows : list jsstring) : list (jsstring * jsstring) :=
  omap characteristicOf rows.
End ProductPage.

(** ** Policy A: [getFilters] *)

Module PolicyAFilters.

(** What [getFilters] of policy A returns. *)
Record Result := {
  query : jsstring;
  url : jsstring;
  sortOptions : list (jsstring * jsstring);   (* value, name *)
  priceFilter : bool;
  availableFilters : list jsstring
}.

(** [[data-widget*="filter"], [class*="filter"]] *)
Definition filterElements : jsstring :=
  selector (js "[data-widget*=") (js "filter")
           (selector (js "], [class*=") (js "filter") (js "]")).

(** The loop over the filter elements: the trimmed text of each one that
    has a text of fewer than 50 code units. *)
Fixpoint collectFilters (els : list Node) (result : list jsstring) : list jsstring :=
  match els with
  | [] => result
  | el :: rest =>
    match trim <$> linkText (asLink el) with
    | Some text =>
      if nonempty text && bool_decide (length text < 50)%nat
      then collectFilters rest (result ++ [text])
      else collectFilters rest result
    | None => collectFilters rest result
    end
  end.

(** The callback that [getFilters] evaluates in the page, with the
    [query] and the [url] that the spread is merged with. *)
Definition scrapeFilters (query url : jsstring) (doc : Document) : Result :=
  {| query := query; url := url;
     sortOptions :=
       [ (js "popular", js "По популярности");
         (js "price", js "По цене (возрастание)");
         (js "price_desc", js "По цене (убывание)");
         (js "new", js "По новизне");
         (js "rating", js "По рейтингу");
         (js "discount", js "По скидке") ];
     priceFilter := true;
     availableFilters := collectFilters (querySelectorAll doc filterElements) [] |}.

(** The URL that [getFilters] opens: the query itself when it is a URL. *)
Definition filtersUrl (query : jsstring) : M PolicyA.Client jsstring :=
  if startsWith query (js "http") then ret query
  else
    q ← encodeQuery query;
    ret (js "https://www.ozon.ru/search/?text=" ++ q).

(** [getFilters(query)] *)
Definition getFilters (env : Env) (query : jsstring) : M PolicyA.Client Result :=
  PolicyA.init env;;
  url ← filtersUrl query;
  p ← PolicyA.thisPage;
  goto env p url 90000;;
  p ← PolicyA.thisPage;
  waitForTimeout env p 10000;;
  p ← PolicyA.thisPage;
  evaluate env p (scrapeFilters query url).
End PolicyAFilters.

(** ** Vocabulary of the further properties *)

(** A string of decimal digits that is not empty. *)
Definition isNumber (s : jsstring) : Prop := s ≠ [] ∧ Forall (λ c, is_digit c = true) s.

(** A string is well formed when its code units are 16 bits wide. *)
Definition codeUnits (s : jsstring) : Prop := Forall (λ c, c < 65536) s.

(** No code unit of [s] is a surrogate. *)
Definition noSurrogates (s : jsstring) : Prop :=
  Forall (λ c, isHighSurrogate c = false ∧ isLowSurrogate c = false) s.

(** What an encoded URI component is made of: unreserved characters and
    the percent sign. *)
Definition isUriSafe (c : N) : Prop := uriUnreserved c = true ∨ c = ch_percent.

(** The bounds that the calls of the client keep: every navigation has the
    timeout of 90 s, every wait lasts between 100 ms and 15 s, the pointer
    moves to a point of the rectangle from (100, 100) to (1799, 899), which
    lies inside the viewport of 1920 by 1080, and the wheel scrolls down by
    100 to 399. *)
Definition eventOk (ev : Event) : Prop :=
  match ev with
  | EvGoto _ _ timeout => timeout = 90000
  | EvWaitForTimeout _ ms => 100 ≤ ms ≤ 15000
  | EvMouseMove _ x y => (100 ≤ x < 1800) ∧ (100 ≤ y < 900)
  | EvMouseWheel _ dx dy => dx = 0 ∧ (100 ≤ dy < 400)
  | _ => True
  end.

(** The computation [m] makes only calls that satisfy [P]: a trace of
    such calls stays one. *)
Definition emits {C A} (P : Event → Prop) (m : M C A) : Prop :=
  ∀ st, Forall P (trace (world st)) → Forall P (trace (world (m st).2)).

(** What an item of a search result looks like in both policies: the id is
    a number, the URL is on the site, the name is not empty, the image is
    [null] or a source that is not empty, and the rating, if there is one,
    lies between 0.0 and 9.9. *)
Definition itemOk (it : Item) : Prop :=
  isNumber (itemId it)
  ∧ startsWith (itemUrl it) (js "https://www.ozon.ru/") = true
  ∧ itemName it ≠ []
  ∧ image it ≠ Some []
  ∧ match rating it with
    | Some r => units r ≤ 9 ∧ tenths r ≤ 9
    | None => True
    end.

(** What policy B knows of an item beyond [itemOk]: the URL has no query
    string, the name is a line of 16 to 299 code units without the ruble
    sign or else [Product] followed by the id, and the price is printed
    exactly when there is one that is not zero. *)
Definition itemOkB (it : Item) : Prop :=
  itemOk it
  ∧ (ch_question ∉ itemUrl it)
  ∧ (itemName it = js "Product " ++ itemId it
     ∨ (15 < length (itemName it) < 300)%nat ∧ includes (itemName it) ruble = false)
  ∧ (priceFormatted it = None ↔ price it = None ∨ price it = Some 0).

(** What policy A knows of an item beyond [itemOk]: the URL is the one of
    a product and matches the pattern of ids that [getProductDetails]
    applies, and the name is a line of more than 10 code units without the
    ruble sign or else [Unknown]. *)
Definition itemOkA (it : Item) : Prop :=
  itemOk it
  ∧ includes (itemUrl it) (js "/product/") = true
  ∧ hasDashDigit (itemUrl it)
  ∧ (itemName it = js "Unknown"
     ∨ (10 < length (itemName it))%nat ∧ includes (itemName it) ruble = false).

(** The id of a product is a number read off its URL, or [null] when no
    [-] of the URL is followed by a digit. *)
Definition productIdOk (product : Product) : Prop :=
  match productId product with
  | Some id => isNumber id ∧ hasDashDigit (productUrl product)
  | None => ¬ hasDashDigit (productUrl product)
  end.

(** A category as both policies return it: a name of 2 to 99 code units
    and an absolute URL. *)
Definition categoryOk (c : Category) : Prop :=
  (1 < length (categoryName c) < 100)%nat
  ∧ startsWith (categoryUrl c) (js "http") = true.

(** What both loops over the images of a product keep: no more than ten
    sources, all different, none empty. *)
Definition imagesOk (images : list jsstring) : Prop :=
  (length images ≤ 10)%nat ∧ NoDup images ∧ Forall (λ src, src ≠ []) images.

(** The first code unit of [s] is a digit. *)
Definition startsWithDigit (s : jsstring) : bool :=
  match s with d :: _ => is_digit d | [] => false end.

(** The rendering [g] of the number [n] in a locale: the digits of [n]
    with white space between them, beginning with a digit. *)
Definition rendersAs (g : jsstring) (n : N) : Prop :=
  startsWithDigit g = true
  ∧ Forall (λ c, ProductPage.isPriceChar c = true) g
  ∧ filter (λ c, is_space c = false) g = showN n.

(** Every call made so far is within the bounds of [eventOk]. *)
Definition boundedTrace {C} (st : State C) : Prop := Forall eventOk (trace (world st)).

(** * Properties *)

(** ** Rules for [wp] *)

Section WpRules.
Context {C : Type}.
Implicit Types st : State C.

Lemma wp_run {A} (m : M C A) st Q :
  wp m st Q ↔ ∀ r st', m st = (r, st') → Q r st'.
Proof.
  unfold wp. split.
  - intros H r st' E. by rewrite E in H.
  - intros H. apply H. by destruct (m st).
Qed.

Lemma wp_mono {A} (m : M C A) st (Q Q' : Res A → State C → Prop) :
  wp m st Q → (∀ r st', Q r st' → Q' r st') → wp m st Q'.
Proof. unfold wp. auto. Qed.

Lemma wp_ret {A} (a : A) st Q : Q (Ret a) st → wp (ret a) st Q.
Proof. done. Qed.

Lemma wp_throw {A} e st (Q : Res A → State C → Prop) :
  Q (Throw e) st → wp (throw e) st Q.
Proof. done. Qed.

Lemma wp_bind {A B} (m : M C A) (k : A → M C B) st Q :
  wp m st (λ r st', match r with
                    | Ret a => wp (k a) st' Q
                    | Throw e => Q (Throw e) st'
                    end) →
  wp (bind m k) st Q.
Proof. unfold wp, bind. by destruct (m st) as [[a|e] st']. Qed.

Lemma wp_tryCatch {A} (m : M C A) handler st Q :
  wp m st (λ r st', match r with
                    | Ret a => Q (Ret a) st'
                    | Throw e => wp (handler e) st' Q
                    end) →
  wp (tryCatch m handler) st Q.
Proof. unfold wp, tryCatch. by destruct (m st) as [[a|e] st']. Qed.

Lemma wp_getClient st Q : Q (Ret (client st)) st → wp getClient st Q.
Proof. done. Qed.

Lemma wp_setClient c st Q :
  Q (Ret ()) {| world := world st; client := c |} → wp (setClient c) st Q.
Proof. done. Qed.

Lemma wp_deref {A} (o : option A) st Q :
  match o with
  | Some a => Q (Ret a) st
  | None => Q (Throw (TypeError (js "Cannot read properties of null"))) st
  end →
  wp (deref o) st Q.
Proof. by destruct o. Qed.

Lemma wp_call {A} env ev (f : nat → A) st Q :
  match env_fail env (tick (world st)) with
  | Some msg => Q (Throw (PlaywrightError msg))
                  {| world := record ev (world st); client := client st |}
  | None => Q (Ret (f (tick (world st))))
              {| world := record ev (world st); client := client st |}
  end →
  wp (call env ev f) st Q.
Proof. unfold wp, call. by destruct (env_fail env _). Qed.

Lemma wp_host {A} ev (f : nat → A) st Q :
  Q (Ret (f (tick (world st))))
    {| world := record ev (world st); client := client st |} →
  wp (host ev f) st Q.
Proof. done. Qed.

Lemma wp_launch env st Q :
  match env_fail env (tick (world st)) with
  | Some msg => Q (Throw (PlaywrightError msg))
                  {| world := record EvLaunch (world st); client := client st |}
  | None => Q (Ret (launched (world st)))
              {| world := {| tick := S (tick (world st));
                             live := launched (world st) :: live (world st);
                             launched := S (launched (world st));
                             trace := EvLaunch :: trace (world st) |};
                 client := client st |}
  end →
  wp (launch env) st Q.
Proof. unfold wp, launch. by destruct (env_fail env _). Qed.

Lemma wp_browserClose env b st Q :
  (∀ r, r = Ret () ∨ (∃ msg, r = Throw (PlaywrightError msg)) →
        Q r {| world := {| tick := S (tick (world st));
                           live := filter (λ x, x ≠ b) (live (world st));
                           launched := launched (world st);
                           trace := EvBrowserClose b :: trace (world st) |};
               client := client st |}) →
  wp (browserClose env b) st Q.
Proof.
  intros H. unfold wp, browserClose. destruct (env_fail env _); apply H; eauto.
Qed.
End WpRules.

(** Steps of a [wp] proof, by the shape of the computation: [wp_steps]
    runs through the steps that do not branch, [wp_call t] takes a call to
    Playwright and closes the case of its rejection with [t]. *)
Ltac wp_unfold :=
  unfold newContext, newPage, addInitScript, goto, waitForTimeout, mouseMove,
    mouseWheel, pageTitle, pageUrl, evaluate, dateNow, randomBelow,
    PolicyB.setBrowser, PolicyB.setContext, PolicyB.setPage,
    PolicyA.setBrowser, PolicyA.setContext, PolicyA.setPage,
    PolicyA.setIsInitialized, PolicyA.setLastHomepageVisit, PolicyA.thisPage.

Ltac wp_simpl :=
  cbn beta iota;
  cbn [world client tick live launched trace record
       PolicyB.browser PolicyB.context PolicyB.page
       PolicyA.browser PolicyA.context PolicyA.page PolicyA.isInitialized
       PolicyA.lastHomepageVisit PolicyA.homepageVisitInterval].

Ltac wp_step :=
  wp_unfold;
  lazymatch goal with
  | |- wp (bind _ _) _ _ => apply wp_bind; wp_step
  | |- wp (ret _) _ _ => apply wp_ret; wp_simpl
  | |- wp (throw _) _ _ => apply wp_throw; wp_simpl
  | |- wp (tryCatch _ _) _ _ => apply wp_tryCatch; wp_step
  | |- wp getClient _ _ => apply wp_getClient; wp_simpl
  | |- wp (setClient _) _ _ => apply wp_setClient; wp_simpl
  | |- wp (deref (Some _)) _ _ => apply wp_deref; wp_simpl
  | |- wp (host _ _) _ _ => apply wp_host; wp_simpl
  end.

Ltac wp_steps := repeat wp_step.

(** The first computation of a sequence. *)
Ltac wp_focus :=
  wp_unfold;
  repeat lazymatch goal with
         | |- wp (bind _ _) _ _ => apply wp_bind; wp_unfold
         | |- wp (tryCatch _ _) _ _ => apply wp_tryCatch; wp_unfold
         end.

Ltac wp_call t :=
  wp_steps; wp_focus;
  lazymatch goal with
  | |- wp (call _ _ _) _ _ => apply wp_call
  | |- wp (launch _) _ _ => apply wp_launch
  end;
  wp_simpl;
  lazymatch goal with
  | |- match ?x with _ => _ end => destruct x eqn:?
  end;
  wp_simpl; [t|].

(** A specification proved for the first computation of a sequence is used
    with [wp_use], which leaves the rest of the sequence from each of the
    outcomes that the specification allows. *)
Ltac wp_use H :=
  wp_steps; wp_focus; eapply wp_mono; [apply H|]; wp_simpl.

(** ** Policy B: the browser is released by every operation *)

Section PolicyBSession.
Variable env : Env.
Implicit Types st : State PolicyB.Client.

Lemma ownedB_initial : ownedB PolicyB.initial.
Proof. split; [intros b Hb; inversion Hb | done]. Qed.

Lemma releasedB_owned st : releasedB st → ownedB st.
Proof.
  intros [Hl Hc]. split.
  - intros b Hb. rewrite Hl in Hb. inversion Hb.
  - done.
Qed.

Lemma filter_other_nil (b : nat) (l : list nat) :
  (∀ x, x ∈ l → x = b) → filter (λ x, x ≠ b) l = [].
Proof.
  induction l as [|x l IH]; intros H; [done|].
  rewrite filter_cons. destruct (decide (x ≠ b)) as [Hne|_].
  - exfalso. apply Hne, H. left.
  - apply IH. intros y Hy. apply H. by right.
Qed.

(** [close()] never throws and leaves nothing behind. *)
Lemma closeB_spec st :
  ownedB st →
  wp (PolicyB.close env) st (λ r st', r = Ret () ∧ releasedB st').
Proof.
  intros [Hlive Hnone]. unfold PolicyB.close. wp_steps.
  destruct (PolicyB.browser (client st)) as [b|] eqn:Hb.
  - wp_focus. apply wp_browserClose. intros r Hr.
    assert (Hf : filter (λ x, x ≠ b) (live (world st)) = []).
    { apply filter_other_nil. intros x Hx. apply Hlive in Hx. congruence. }
    rewrite Hf. destruct Hr as [->|[msg ->]]; wp_steps; by split.
  - wp_steps. split; [done|]. split; [|by apply Hnone].
    destruct (live (world st)) as [|x l]; [done|].
    assert (Hx : x ∈ x :: l) by left. apply Hlive in Hx. discriminate Hx.
Qed.

(** [close()] returns whatever the controller held and however
    [browser.close()] ended. *)
Lemma closeB_returns st : ∃ st', PolicyB.close env st = (Ret (), st').
Proof.
  unfold PolicyB.close, bind, getClient, tryCatch, browserClose.
  destruct (PolicyB.browser (client st)) as [b|]; [|by eexists].
  simpl. destruct (env_fail env _); by eexists.
Qed.

Lemma ownedB_record ev st :
  ownedB st → ownedB {| world := record ev (world st); client := client st |}.
Proof. done. Qed.

Lemma releasedB_record ev st :
  releasedB st → releasedB {| world := record ev (world st); client := client st |}.
Proof. done. Qed.

(** After [createBrowser()], whether it returned or threw, the only
    browser that may run is the one the controller holds. *)
Lemma createBrowserB_spec st :
  ownedB st → wp (PolicyB.createBrowser env) st (λ _ st', ownedB st').
Proof.
  intros Hown. unfold PolicyB.createBrowser.
  wp_use closeB_spec; [done|]. intros r [w1 c1] [-> [Hl Hc]].
  simpl in Hl, Hc. subst c1. wp_simpl.
  wp_call ltac:(by apply releasedB_owned).
  rewrite Hl.
  assert (Hone : ∀ b' : nat, b' ∈ [launched w1] → Some (launched w1) = Some b').
  { intros b' Hb'. apply list_elem_of_singleton in Hb'. by subst. }
  wp_call ltac:(by split). wp_call ltac:(by split). wp_steps. by split.
Qed.

Lemma loadPageB_spec url waitTime st :
  ownedB st → wp (PolicyB.loadPage env url waitTime) st (λ _ st', ownedB st').
Proof.
  intros Hown. unfold PolicyB.loadPage.
  wp_use createBrowserB_spec; [done|]. intros [p|e] st1 Hown1; wp_simpl; [|done].
  wp_call ltac:(done). wp_call ltac:(done). wp_call ltac:(done).
  by wp_steps.
Qed.

(** The handler of every operation: [close()], then rethrow. *)
Lemma rethrowB_spec {A} e st (Q : Res A → State PolicyB.Client → Prop) :
  ownedB st →
  (∀ st', releasedB st' → Q (Throw e) st') →
  wp (PolicyB.close env;; throw e) st Q.
Proof.
  intros Hown HQ. wp_use closeB_spec; [done|].
  intros r st1 [-> Hrel]. wp_steps. by apply HQ.
Qed.

Lemma closeThenB_spec {A} (a : A) st (Q : Res A → State PolicyB.Client → Prop) :
  ownedB st →
  (∀ st', releasedB st' → Q (Ret a) st') →
  wp (PolicyB.close env;; ret a) st Q.
Proof.
  intros Hown HQ. wp_use closeB_spec; [done|].
  intros r st1 [-> Hrel]. wp_steps. by apply HQ.
Qed.

Lemma searchB_released query options st :
  releasedB st →
  wp (PolicyB.search env query options) st (λ _ st', releasedB st').
Proof.
  intros Hrel. unfold PolicyB.search, encodeQuery.
  wp_steps. destruct (encodeURIComponent query) as [q|]; wp_steps; [|done].
  wp_use loadPageB_spec; [by apply releasedB_owned|].
  intros [[p t]|e] st1 Hown1; wp_simpl; [|by apply rethrowB_spec].
  destruct (PolicyB.isBlocked t); [by apply closeThenB_spec|].
  wp_call ltac:(by apply rethrowB_spec). by apply closeThenB_spec.
Qed.

Lemma getProductDetailsB_released productIdOrUrl st :
  ownedB st →
  wp (PolicyB.getProductDetails env productIdOrUrl) st (λ _ st', releasedB st').
Proof.
  intros Hown. unfold PolicyB.getProductDetails.
  wp_use loadPageB_spec; [done|].
  intros [[p t]|e] st1 Hown1; wp_simpl; [|by apply rethrowB_spec].
  do 4 wp_call ltac:(by apply rethrowB_spec).
  destruct (PolicyB.isBlocked _).
  - wp_use closeB_spec; [done|]. intros r st2 [-> Hrel]. wp_steps.
    by apply rethrowB_spec; [apply releasedB_owned|].
  - wp_call ltac:(by apply rethrowB_spec). wp_steps. by apply closeThenB_spec.
Qed.

Lemma getCategoriesB_released st :
  ownedB st →
  wp (PolicyB.getCategories env) st (λ _ st', releasedB st').
Proof.
  intros Hown. unfold PolicyB.getCategories.
  wp_use loadPageB_spec; [done|].
  intros [[p t]|e] st1 Hown1; wp_simpl; [|by apply rethrowB_spec].
  wp_call ltac:(by apply rethrowB_spec). by apply closeThenB_spec.
Qed.
End PolicyBSession.

(** ** Policy B: a block detected by [search] *)

(** C1. In the fresh-session policy, when the page that [search] loads
    has a title with a block signature ([Antibot] or [ограничен]),
    [search] returns the empty list and does not throw, whatever the
    query, the options and the answers of the environment are. *)
Theorem C1_search_blocked_returns_empty env query options q st p t st1 :
  encodeURIComponent query = Some q →
  PolicyB.loadPage env (searchUrl q options) 15000 st = (Ret (p, t), st1) →
  PolicyB.isBlocked t = true →
  ∃ st2, PolicyB.search env query options st = (Ret [], st2).
Proof.
  intros Hq Hload Hblocked.
  destruct (closeB_returns env st1) as [st2 Hclose]. exists st2.
  unfold PolicyB.search, encodeQuery. rewrite Hq.
  unfold bind at 1. unfold ret at 1. unfold tryCatch, bind.
  rewrite Hload, Hblocked, Hclose. reflexivity.
Qed.

Lemma C1_search_blocked_witness :
  ∃ st2, PolicyB.search envBlocked (js "телефон") noOptions PolicyB.initial = (Ret [], st2).
Proof.
  eapply C1_search_blocked_returns_empty;
    [vm_compute; reflexivity | vm_compute; reflexivity | vm_compute; reflexivity].
Defined.

(** C5. In the fresh-session policy, [search], [getProductDetails] and
    [getCategories], started with no browser running, end with no browser
    running and a controller that holds none, however they end: with a
    result, on a block, or with the error of a call that rejected. *)
Theorem C5_policyB_releases_browser env query options productIdOrUrl st :
  releasedB st →
  releasedB (PolicyB.search env query options st).2
  ∧ releasedB (PolicyB.getProductDetails env productIdOrUrl st).2
  ∧ releasedB (PolicyB.getCategories env st).2.
Proof.
  intros Hrel. split; [|split].
  - by apply (searchB_released env query options st).
  - by apply (getProductDetailsB_released env productIdOrUrl st), releasedB_owned.
  - by apply (getCategoriesB_released env st), releasedB_owned.
Qed.

Lemma C5_policyB_releases_browser_witness :
  releasedB PolicyB.initial
  ∧ releasedB (PolicyB.search (envRejectingAt [3%nat] timeoutMessage [])
                 (js "телефон") noOptions PolicyB.initial).2.
Proof.
  split; [done|].
  apply (C5_policyB_releases_browser _ _ _ (js "123456") PolicyB.initial). done.
Defined.

(** ** What the steps of an operation leave unchanged *)

Lemma quiet_refl {C} (st : State C) : quiet st st.
Proof. by repeat split. Qed.

Lemma quiet_trans {C} (st1 st2 st3 : State C) :
  quiet st1 st2 → quiet st2 st3 → quiet st1 st3.
Proof.
  intros (?&?&?&?&?) (?&?&?&?&?). repeat split; by etrans.
Qed.

Lemma quiet_keepsA st st' : quiet st st' → keepsA st st'.
Proof. intros (Hc&?&?&?&?). unfold keepsA. rewrite Hc. by repeat split. Qed.

Lemma keepsA_refl st : keepsA st st.
Proof. by repeat split. Qed.

Lemma keepsA_trans st1 st2 st3 : keepsA st1 st2 → keepsA st2 st3 → keepsA st1 st3.
Proof.
  intros (?&?&?&?&?&?&?&?) (?&?&?&?&?&?&?&?). repeat split; by etrans.
Qed.

(** The random wait of [simulateHumanBehavior] is shorter than the pacing
    wait. *)
Lemma random_wait_not_pacing env t : (env_random env t mod 300 + 100 =? 2000) = false.
Proof.
  apply N.eqb_neq. pose proof (N.mod_lt (env_random env t) 300). lia.
Qed.

(** Goals about what is unchanged between a state and the state that a
    run of calls has produced from it. *)
Ltac frame :=
  unfold quiet, keepsA, pacingWaits, warmups; simpl;
  rewrite ?random_wait_not_pacing; repeat split; try done.

(** The same across the states that specifications have introduced. *)
Ltac chain :=
  repeat (eapply quiet_trans; [eassumption|]); frame.

(** The case of a rejected call, for [wp_call]. *)
Ltac rejects := first [ by eexists _, _ | split; [frame|by eexists _, _] ].

(** The URL of a search is never the homepage. *)
Lemma searchUrl_prefix q o :
  ∃ rest, searchUrl q o = js "https://www.ozon.ru/search/?text=" ++ rest.
Proof.
  unfold searchUrl. cbv zeta.
  destruct (lookupKey _ _); destruct (_ || _); destruct (_ <? _)%Z;
    rewrite <- ?app_assoc; by eexists.
Qed.

Lemma searchUrl_not_homepage q o : searchUrl q o ≠ homepage.
Proof.
  destruct (searchUrl_prefix q o) as [rest ->]. intros H.
  apply (f_equal (take 21)) in H. vm_compute in H. discriminate H.
Qed.

Lemma not_warmup_search p q o timeout : isWarmup (EvGoto p (searchUrl q o) timeout) = false.
Proof. unfold isWarmup. apply bool_decide_eq_false_2, searchUrl_not_homepage. Qed.

(** The goal [keepsA st st'] from the equations in the context. *)
Ltac keeps :=
  unfold keepsA, pacingWaits, warmups in *; simpl in *;
  rewrite ?random_wait_not_pacing; repeat split; congruence.

(** The case of a rejected call inside an operation of policy A. *)
Ltac rejectsA :=
  split; [keeps|first [assumption|by eexists _, _|by left|left; by eexists _, _]].

(** Unpacking what a specification says is unchanged. *)
Ltac unpack_quiet H :=
  let Hc := fresh "Hc" in
  destruct H as (Hc & ? & ? & ? & ?);
  unfold pacingWaits, warmups in *; simpl in *; try subst.

Ltac unpack_keeps H :=
  destruct H as (? & ? & ? & ? & ? & ? & ? & ?);
  unfold pacingWaits, warmups in *; simpl in *.

(** Goals about the pacing waits, from the equations in the context. *)
Ltac pacing := unfold pacingWaits in *; simpl in *; congruence.

(** ** Policy B: how the operations end *)

Section PolicyBOutcomes.
Variable env : Env.
Implicit Types st : State PolicyB.Client.

Lemma closeB_pacing st :
  wp (PolicyB.close env) st (λ r st', r = Ret () ∧ pacingWaits st' = pacingWaits st).
Proof.
  unfold PolicyB.close. wp_steps.
  destruct (PolicyB.browser (client st)) as [b|]; [|by wp_steps].
  wp_focus. apply wp_browserClose. intros r [->|[msg ->]]; by wp_steps.
Qed.

(** [close()] followed by [throw e] or by [return a]. *)
Lemma rethrowB_pacing {A} e st (Q : Res A → State PolicyB.Client → Prop) :
  (∀ st', pacingWaits st' = pacingWaits st → Q (Throw e) st') →
  wp (PolicyB.close env;; throw e) st Q.
Proof.
  intros HQ. wp_use closeB_pacing. intros r st1 [-> Hpw]. wp_steps. by apply HQ.
Qed.

Lemma closeThenB_pacing {A} (a : A) st (Q : Res A → State PolicyB.Client → Prop) :
  (∀ st', pacingWaits st' = pacingWaits st → Q (Ret a) st') →
  wp (PolicyB.close env;; ret a) st Q.
Proof.
  intros HQ. wp_use closeB_pacing. intros r st1 [-> Hpw]. wp_steps. by apply HQ.
Qed.

Lemma createBrowserB_outcome st :
  wp (PolicyB.createBrowser env) st
     (λ r st', pacingWaits st' = pacingWaits st
               ∧ match r with
                 | Ret _ => True
                 | Throw e => rejected env e
                 end).
Proof.
  unfold PolicyB.createBrowser.
  wp_use closeB_pacing. intros r [w1 c1] [-> Hpw].
  wp_call ltac:(split; [pacing|by eexists _, _]).
  wp_call ltac:(split; [pacing|by eexists _, _]).
  wp_call ltac:(split; [pacing|by eexists _, _]).
  wp_steps. split; [pacing|done].
Qed.

Lemma loadPageB_outcome url waitTime st :
  (waitTime =? 2000) = false →
  wp (PolicyB.loadPage env url waitTime) st
     (λ r st', pacingWaits st' = pacingWaits st
               ∧ match r with
                 | Ret (_, t) => ∃ tt, t = env_title env tt
                 | Throw e => rejected env e
                 end).
Proof.
  intros Hwait. unfold PolicyB.loadPage.
  wp_use createBrowserB_outcome. intros [p|e] [w1 c1] [Hpw Hr]; wp_simpl; [|done].
  wp_call ltac:(split; [pacing|by eexists _, _]).
  wp_call ltac:(split; [unfold pacingWaits in *; simpl in *; by rewrite Hwait
                       |by eexists _, _]).
  wp_call ltac:(split; [unfold pacingWaits in *; simpl in *; by rewrite Hwait
                       |by eexists _, _]).
  wp_steps. split; [|by eexists].
  unfold pacingWaits in *; simpl in *; by rewrite Hwait.
Qed.

Lemma searchB_outcome query options st :
  wp (PolicyB.search env query options) st
     (λ r st',
        match r with
        | Ret items =>
          (items = [] ∧ ∃ tc, PolicyB.isBlocked (env_title env tc) = true)
          ∨ ∃ tc td,
              PolicyB.isBlocked (env_title env tc) = false
              ∧ items = PolicyB.extractProducts (limitOf options) (env_document env td)
        | Throw e =>
          rejected env e
          ∨ (encodeURIComponent query = None ∧ e = URIError (js "URI malformed"))
        end).
Proof.
  unfold PolicyB.search, encodeQuery.
  wp_steps. destruct (encodeURIComponent query) as [q|]; wp_steps; [|by right].
  wp_use loadPageB_outcome; [done|].
  intros [[p t]|e] st1 [Hpw Hr]; wp_simpl;
    [|by apply rethrowB_pacing; intros; left].
  destruct Hr as [tt ->].
  destruct (PolicyB.isBlocked (env_title env tt)) eqn:Hb.
  - apply closeThenB_pacing. intros. left. split; [done|by eexists].
  - wp_call ltac:(apply rethrowB_pacing; intros; left; by eexists _, _).
    apply closeThenB_pacing. intros. right. by eexists _, _.
Qed.

Lemma getProductDetailsB_outcome productIdOrUrl st :
  wp (PolicyB.getProductDetails env productIdOrUrl) st
     (λ r st',
        pacingWaits st' = pacingWaits st
        ∧ match r with
          | Ret product =>
            ∃ tu td tc,
              product = withIdAndUrl (scrapeProduct (env_document env td))
                                     (env_url env tu)
              ∧ PolicyB.isBlocked (env_title env tc) = false
          | Throw e =>
            rejected env e ∨ e = Error (js "Product page blocked by antibot")
          end).
Proof.
  unfold PolicyB.getProductDetails.
  wp_use loadPageB_outcome; [done|].
  intros [[p t]|e] [w1 c1] [Hpw Hr]; wp_simpl;
    [|by apply rethrowB_pacing; intros; split; [pacing|left]].
  clear Hr.
  do 4 wp_call ltac:(apply rethrowB_pacing; intros; split;
                     [pacing|left; by eexists _, _]).
  destruct (PolicyB.isBlocked _) eqn:Hb.
  - wp_use closeB_pacing. intros r [w2 c2] [-> Hpw2]. wp_steps.
    apply rethrowB_pacing. intros. split; [pacing|by right].
  - wp_call ltac:(apply rethrowB_pacing; intros; split;
                  [pacing|left; by eexists _, _]).
    wp_steps. apply closeThenB_pacing. intros. split; [pacing|].
    by eexists _, _, _.
Qed.
End PolicyBOutcomes.

Section PolicyASession.
Variable env : Env.
Implicit Types st : State PolicyA.Client.

Lemma moveOnceA_spec st :
  is_Some (PolicyA.page (client st)) →
  wp (PolicyA.moveOnce env) st
     (λ r st', quiet st st' ∧ match r with
                             | Ret _ => True
                             | Throw e => rejected env e
                             end).
Proof.
  intros [p Hp]. unfold PolicyA.moveOnce. destruct st as [w c]. simpl in Hp.
  wp_steps. rewrite Hp. wp_call rejects.
  wp_steps. rewrite Hp. wp_call rejects.
  split; [frame|done].
Qed.

Lemma page_quiet st st' :
  quiet st st' → is_Some (PolicyA.page (client st)) → is_Some (PolicyA.page (client st')).
Proof. intros (Hc&_). by rewrite Hc. Qed.

Lemma simulateHumanBehaviorA_spec st :
  is_Some (PolicyA.page (client st)) →
  wp (PolicyA.simulateHumanBehavior env) st
     (λ r st', quiet st st' ∧ match r with
                             | Ret _ => True
                             | Throw e => rejected env e
                             end).
Proof.
  intros Hp. unfold PolicyA.simulateHumanBehavior.
  wp_use moveOnceA_spec; [done|]. intros [[]|e] st1 [Hq1 Hr1]; wp_simpl; [|done].
  pose proof (page_quiet _ _ Hq1 Hp) as Hp1.
  wp_use moveOnceA_spec; [done|]. intros [[]|e] st2 [Hq2 Hr2]; wp_simpl;
    [|by split; [chain|]].
  pose proof (page_quiet _ _ Hq2 Hp1) as Hp2.
  wp_use moveOnceA_spec; [done|]. intros [[]|e] st3 [Hq3 Hr3]; wp_simpl;
    [|by split; [chain|]].
  destruct (page_quiet _ _ Hq3 Hp2) as [p Hp3].
  wp_steps. rewrite Hp3. wp_call ltac:(split; [chain|by eexists _, _]).
  wp_steps. rewrite Hp3. wp_call ltac:(split; [chain|by eexists _, _]).
  split; [chain|done].
Qed.

Lemma warmup_homepage p timeout : isWarmup (EvGoto p homepage timeout) = true.
Proof. unfold isWarmup. by apply bool_decide_eq_true_2. Qed.

(** [visitHomepage(force)]: skipped inside the window unless forced,
    else one warm-up that moves the window to the clock read on entry. *)
Lemma visitHomepageA_spec force st :
  is_Some (PolicyA.page (client st)) →
  wp (PolicyA.visitHomepage env force) st
     (λ r st',
        let now := env_now env (tick (world st)) in
        keepsA st st'
        ∧ match r with
          | Ret _ =>
            if negb force && withinWindow (client st) now
            then PolicyA.lastHomepageVisit (client st')
                 = PolicyA.lastHomepageVisit (client st)
                 ∧ warmups st' = warmups st
            else PolicyA.lastHomepageVisit (client st') = now
                 ∧ warmups st' = S (warmups st)
          | Throw e => rejected env e
          end).
Proof.
  intros [p Hp]. unfold PolicyA.visitHomepage. destruct st as [w c]. simpl in Hp.
  wp_steps. unfold withinWindow. rewrite andb_assoc.
  destruct (negb force && _ && _)%Z; wp_steps; [by split; [frame|]|].
  rewrite Hp. wp_call rejects. wp_steps. rewrite Hp. wp_call rejects.
  wp_use simulateHumanBehaviorA_spec; [by rewrite Hp|].
  intros [[]|e] [w1 c1] [Hq Hr]; wp_simpl;
    destruct Hq as (Hc & Hl & Hla & Hpw & Hwu); simpl in Hc; subst c1;
    unfold pacingWaits, warmups in Hpw, Hwu; simpl in Hl, Hla, Hpw, Hwu;
    [|by split; [frame|]].
  wp_steps. rewrite Hp. wp_call rejects.
  wp_steps. rewrite Hp. wp_call rejects.
  split; [frame|]. split; [done|].
  unfold warmups. simpl. exact Hwu.
Qed.

Lemma hasCaptchaA_spec st :
  is_Some (PolicyA.page (client st)) →
  wp (PolicyA.hasCaptcha env) st
     (λ r st',
        quiet st st'
        ∧ match r with
          | Ret b => b = PolicyA.isCaptchaTitle (env_title env (tick (world st)))
          | Throw e => rejected env e
          end).
Proof.
  intros [p Hp]. unfold PolicyA.hasCaptcha. destruct st as [w c]. simpl in Hp.
  wp_steps. rewrite Hp. wp_call rejects. wp_steps. by split; [frame|].
Qed.

(** [init()] on an initialized controller does nothing. *)
Lemma initA_noop st :
  PolicyA.isInitialized (client st) = true → PolicyA.init env st = (Ret (), st).
Proof. intros Hi. unfold PolicyA.init, bind, getClient. simpl. by rewrite Hi. Qed.

(** [init()] on a controller that is not initialized: on success the
    controller is initialized and holds a page, and the warm-up of
    [visitHomepage] happened unless the window of an earlier session is
    still open. *)
Lemma initA_spec st :
  PolicyA.isInitialized (client st) = false →
  wp (PolicyA.init env) st
     (λ r st',
        pacingWaits st' = pacingWaits st
        ∧ PolicyA.homepageVisitInterval (client st')
          = PolicyA.homepageVisitInterval (client st)
        ∧ match r with
          | Ret _ =>
            PolicyA.isInitialized (client st') = true
            ∧ is_Some (PolicyA.page (client st'))
            ∧ let now := env_now env (4 + tick (world st)) in
              if withinWindow (client st) now
              then PolicyA.lastHomepageVisit (client st')
                   = PolicyA.lastHomepageVisit (client st)
                   ∧ warmups st' = warmups st
              else PolicyA.lastHomepageVisit (client st') = now
                   ∧ warmups st' = S (warmups st)
          | Throw e => rejected env e ∧ PolicyA.isInitialized (client st') = false
          end).
Proof.
  intros Hi. unfold PolicyA.init. destruct st as [w c]. simpl in Hi.
  wp_steps. rewrite Hi.
  wp_call ltac:(by repeat split; [eexists _, _|]).
  wp_call ltac:(by repeat split; [eexists _, _|]).
  wp_call ltac:(by repeat split; [eexists _, _|]).
  wp_call ltac:(by repeat split; [eexists _, _|]).
  wp_use visitHomepageA_spec; [by eexists|].
  intros [[]|e] [w1 c1] [Hk Hr]; wp_simpl;
    destruct Hk as (Hb & Hx & Hp & Hini & Hint & Hl & Hla & Hpw);
    unfold pacingWaits in Hpw; simpl in Hb, Hx, Hp, Hini, Hint, Hl, Hla, Hpw, Hr;
    [|by repeat split; [..|rewrite Hini]].
  wp_steps. unfold pacingWaits. simpl. repeat split; [done..|by rewrite Hp|].
  unfold warmups in *. simpl in *. by destruct (withinWindow _ _).
Qed.

Lemma wp_initA_noop st Q :
  PolicyA.isInitialized (client st) = true →
  Q (Ret ()) st → wp (PolicyA.init env) st Q.
Proof. intros Hi HQ. unfold wp. by rewrite initA_noop. Qed.

(** [search] on an initialized controller: the warm-ups it performs and
    what it returns. *)
Lemma searchA_ready_spec query options st :
  PolicyA.isInitialized (client st) = true →
  is_Some (PolicyA.page (client st)) →
  wp (PolicyA.search env query options) st
     (λ r st',
        keepsA st st'
        ∧ match r with
          | Ret items =>
            ∃ tc td,
              items = PolicyA.extractProducts (limitOf options) (env_document env td)
              ∧ let now := env_now env (tick (world st)) in
                let blocked := PolicyA.isCaptchaTitle (env_title env tc) in
                warmups st' = (warmups st
                               + (if withinWindow (client st) now then 0 else 1)
                               + (if blocked then 1 else 0))%nat
                ∧ (blocked = false →
                   PolicyA.lastHomepageVisit (client st')
                   = if withinWindow (client st) now
                     then PolicyA.lastHomepageVisit (client st) else now)
          | Throw e =>
            rejected env e
            ∨ (encodeURIComponent query = None ∧ e = URIError (js "URI malformed"))
          end).
Proof.
  intros Hi [p Hp]. unfold PolicyA.search, encodeQuery.
  wp_focus. apply wp_initA_noop; [done|]. wp_simpl.
  destruct (encodeURIComponent query) as [q|]; wp_steps;
    [|by split; [apply keepsA_refl|right]].
  pose proof (searchUrl_not_homepage q options) as Hurl.
  apply (bool_decide_eq_false_2 _) in Hurl.
  revert Hurl. generalize (searchUrl q options). intros url Hurl.
  wp_use visitHomepageA_spec; [by eexists|].
  destruct st as [w c]. simpl in Hi, Hp.
  intros [[]|e] [w1 c1] [Hk Hr]; wp_simpl; [|by split; [|left]].
  unpack_keeps Hk.
  wp_steps. rewrite H1, Hp. wp_call rejectsA.
  wp_steps. rewrite H1, Hp. wp_call rejectsA.
  wp_use simulateHumanBehaviorA_spec; [simpl; rewrite H1, Hp; by eexists|].
  intros [[]|e] [w2 c2] [Hq2 Hr2]; wp_simpl; unpack_quiet Hq2; [|rejectsA].
  wp_steps. rewrite H1, Hp. wp_call rejectsA.
  wp_use hasCaptchaA_spec; [simpl; rewrite H1, Hp; by eexists|].
  intros [b|e] [w3 c3] [Hq3 Hr3]; wp_simpl; unpack_quiet Hq3; [|rejectsA].
  rewrite Hurl in *. simpl in *.
  destruct (PolicyA.isCaptchaTitle (env_title env (S (tick w2)))) eqn:Hb.
  - wp_use visitHomepageA_spec; [simpl; rewrite H1, Hp; by eexists|].
    intros [[]|e] [w4 c4] [Hk4 Hr4]; wp_simpl; unpack_keeps Hk4; [|rejectsA].
    destruct Hr4 as [Hlast4 Hw4].
    assert (Hp4 : PolicyA.page c4 = Some p) by congruence.
    wp_steps. rewrite Hp4. wp_call rejectsA.
    wp_steps. rewrite Hp4. wp_call rejectsA.
    wp_steps. rewrite Hp4. wp_call rejectsA.
    wp_use simulateHumanBehaviorA_spec; [simpl; rewrite Hp4; by eexists|].
    intros [[]|e] [w5 c5] [Hq5 Hr5]; wp_simpl; unpack_quiet Hq5; [|rejectsA].
    rewrite Hurl in *. simpl in *.
    wp_steps. rewrite Hp4. wp_call rejectsA.
    wp_steps. rewrite Hp4. wp_call rejectsA.
    split; [keeps|]. eexists (S (tick w2)), _. split; [reflexivity|].
    rewrite Hb. split; [|done].
    destruct (withinWindow _ _); destruct Hr as [_ Hr]; simpl; lia.
  - wp_steps. rewrite H1, Hp. wp_call rejectsA.
    wp_steps. rewrite H1, Hp. wp_call rejectsA.
    split; [keeps|]. eexists (S (tick w2)), _. split; [reflexivity|].
    rewrite Hb. split.
    + destruct (withinWindow _ _); destruct Hr as [_ Hr]; simpl; lia.
    + intros _. by destruct (withinWindow _ _); destruct Hr as [Hr _].
Qed.

(** [getProductDetails] on an initialized controller: how it ends. *)
Lemma getProductDetailsA_ready_spec productIdOrUrl st :
  PolicyA.isInitialized (client st) = true →
  is_Some (PolicyA.page (client st)) →
  wp (PolicyA.getProductDetails env productIdOrUrl) st
     (λ r st',
        keepsA st st'
        ∧ match r with
          | Ret product =>
            ∃ tu td tc,
              product = withIdAndUrl (scrapeProduct (env_document env td))
                                     (env_url env tu)
              ∧ PolicyA.isCaptchaTitle (env_title env tc) = false
              ∧ title product ≠ Some (js "Доступ ограничен")
              ∧ nonempty (default [] (title product)) = true
          | Throw e =>
            rejected env e
            ∨ e = Error (js "Unable to bypass captcha for product page")
            ∨ (e = Error (js "Failed to load product page (access restricted)")
               ∧ ∃ tc, PolicyA.isCaptchaTitle (env_title env tc) = false)
          end).
Proof.
  intros Hi [p Hp]. unfold PolicyA.getProductDetails.
  wp_focus. apply wp_initA_noop; [done|]. wp_simpl.
  generalize (productUrlOf productIdOrUrl). intros url.
  wp_use visitHomepageA_spec; [by eexists|].
  destruct st as [w c]. simpl in Hi, Hp.
  intros [[]|e] [w1 c1] [Hk Hr]; wp_simpl; [|by split; [|left]].
  unpack_keeps Hk. clear Hr.
  wp_steps. rewrite H1, Hp. wp_call rejectsA.
  wp_steps. rewrite H1, Hp. wp_call rejectsA.
  wp_use simulateHumanBehaviorA_spec; [simpl; rewrite H1, Hp; by eexists|].
  intros [[]|e] [w2 c2] [Hq2 Hr2]; wp_simpl; unpack_quiet Hq2; [|rejectsA].
  wp_use hasCaptchaA_spec; [simpl; rewrite H1, Hp; by eexists|].
  intros [b|e] [w3 c3] [Hq3 Hr3]; wp_simpl; unpack_quiet Hq3; [|rejectsA].
  apply wp_bind.
  eapply (wp_mono _ _
    (λ r st',
       keepsA {| world := w; client := c |} st'
       ∧ match r with
         | Ret _ => ∃ tc, PolicyA.isCaptchaTitle (env_title env tc) = false
         | Throw e =>
           rejected env e
           ∨ e = Error (js "Unable to bypass captcha for product page")
         end)).
  - destruct (PolicyA.isCaptchaTitle (env_title env (tick w2))) eqn:Hb;
      [|wp_steps; split; [keeps|by eexists]].
    wp_steps. rewrite H1, Hp. wp_call rejectsA.
    wp_use visitHomepageA_spec; [simpl; rewrite H1, Hp; by eexists|].
    intros [[]|e] [w4 c4] [Hk4 Hr4]; wp_simpl; unpack_keeps Hk4; [|rejectsA].
    clear Hr4. assert (Hp4 : PolicyA.page c4 = Some p) by congruence.
    wp_steps. rewrite Hp4. wp_call rejectsA.
    wp_steps. rewrite Hp4. wp_call rejectsA.
    wp_use hasCaptchaA_spec; [simpl; rewrite Hp4; by eexists|].
    intros [still|e] [w5 c5] [Hq5 Hr5]; wp_simpl; unpack_quiet Hq5; [|rejectsA].
    destruct (PolicyA.isCaptchaTitle (env_title env (S (S (tick w4))))) eqn:Hstill;
      wp_steps; (split; [keeps|]); [by right|by eexists].
  - intros [[]|e] [w6 c6] [Hk6 Hr6]; wp_simpl;
      [|split; [done|]; destruct Hr6 as [?| ->]; [by left|by right; left]].
    destruct Hr6 as [tc Htc]. unpack_keeps Hk6.
    assert (Hp6 : PolicyA.page c6 = Some p) by congruence.
    wp_steps. rewrite Hp6. wp_steps. rewrite Hp6. wp_call rejectsA.
    wp_steps. rewrite Hp6. wp_call rejectsA.
    match goal with
    | |- context [bool_decide ?P || negb ?n] =>
        destruct (bool_decide P) eqn:Ht; destruct n eqn:Hn
    end; simpl; wp_steps; (split; [keeps|]);
      try (right; right; split; [reflexivity|by eexists]).
    apply bool_decide_eq_false in Ht. by eexists _, _, tc.
Qed.

(** After [init()] has returned, an operation continues as it would on
    the initialized controller. *)
Lemma wp_after_init {A} (k : () → M PolicyA.Client A) st Q :
  PolicyA.isInitialized (client st) = true →
  wp (bind (PolicyA.init env) k) st Q → wp (k ()) st Q.
Proof. intros Hi. unfold wp, bind. by rewrite (initA_noop st Hi). Qed.

Lemma readyA_keeps st st' : keepsA st st' → readyA st → readyA st'.
Proof.
  intros (_ & _ & Hp & Hi & _) Hready. unfold readyA. rewrite Hp, Hi. apply Hready.
Qed.

(** [getProductDetails] from any state of a controller. *)
Lemma getProductDetailsA_spec productIdOrUrl st :
  readyA st →
  wp (PolicyA.getProductDetails env productIdOrUrl) st
     (λ r st',
        readyA st' ∧ pacingWaits st' = pacingWaits st
        ∧ match r with
          | Ret product =>
            is_Some (PolicyA.page (client st'))
            ∧ ∃ tu td tc,
                product = withIdAndUrl (scrapeProduct (env_document env td))
                                       (env_url env tu)
                ∧ PolicyA.isCaptchaTitle (env_title env tc) = false
                ∧ title product ≠ Some (js "Доступ ограничен")
                ∧ nonempty (default [] (title product)) = true
          | Throw e =>
            rejected env e
            ∨ (is_Some (PolicyA.page (client st'))
               ∧ (e = Error (js "Unable to bypass captcha for product page")
                  ∨ (e = Error (js "Failed to load product page (access restricted)")
                     ∧ ∃ tc, PolicyA.isCaptchaTitle (env_title env tc) = false)))
          end).
Proof.
  intros Hready.
  assert (Hinit : ∀ st0, PolicyA.isInitialized (client st0) = true →
                         is_Some (PolicyA.page (client st0)) →
            wp (PolicyA.getProductDetails env productIdOrUrl) st0
               (λ r st',
                  readyA st' ∧ pacingWaits st' = pacingWaits st0
                  ∧ match r with
                    | Ret product =>
                      is_Some (PolicyA.page (client st'))
                      ∧ ∃ tu td tc,
                          product = withIdAndUrl (scrapeProduct (env_document env td))
                                                 (env_url env tu)
                          ∧ PolicyA.isCaptchaTitle (env_title env tc) = false
                          ∧ title product ≠ Some (js "Доступ ограничен")
                          ∧ nonempty (default [] (title product)) = true
                    | Throw e =>
                      rejected env e
                      ∨ (is_Some (PolicyA.page (client st'))
                         ∧ (e = Error (js "Unable to bypass captcha for product page")
                            ∨ (e = Error (js "Failed to load product page (access restricted)")
                               ∧ ∃ tc, PolicyA.isCaptchaTitle (env_title env tc) = false)))
                    end)).
  { intros st0 Hi Hp. eapply wp_mono; [by apply getProductDetailsA_ready_spec|].
    intros r st' [Hk Hr]. pose proof Hk as (_ & _ & Hp' & Hi' & _ & _ & _ & Hpw).
    assert (is_Some (PolicyA.page (client st'))) by (by rewrite Hp').
    split; [by unfold readyA|]. split; [done|].
    destruct r as [product|e]; [done|]. destruct Hr as [?|?]; [by left|by right]. }
  destruct (PolicyA.isInitialized (client st)) eqn:Hi; [by apply Hinit, Hready|].
  unfold PolicyA.getProductDetails. apply wp_bind.
  eapply wp_mono; [by apply initA_spec|].
  intros [[]|e] st0 (Hpw & _ & Hr); wp_simpl.
  - destruct Hr as (Hi0 & Hp0 & _).
    lazymatch goal with
    | |- wp ?m st0 ?Q => change (wp ((λ _ : (), m) ()) st0 Q)
    end.
    apply wp_after_init; [done|].
    lazymatch goal with
    | |- wp _ st0 ?Q => change (wp (PolicyA.getProductDetails env productIdOrUrl) st0 Q)
    end.
    eapply wp_mono; [by apply Hinit|].
    intros r st' (? & Hpw' & ?). split; [done|]. split; [congruence|done].
  - destruct Hr as [Hrej Hi0]. split; [|split; [done|by left]].
    unfold readyA. by rewrite Hi0.
Qed.

(** [search] from any state of a controller. *)
Lemma searchA_spec query options st :
  readyA st →
  wp (PolicyA.search env query options) st
     (λ r st',
        match r with
        | Ret items =>
          ∃ td, items = PolicyA.extractProducts (limitOf options) (env_document env td)
        | Throw e =>
          rejected env e
          ∨ (encodeURIComponent query = None ∧ e = URIError (js "URI malformed"))
        end).
Proof.
  intros Hready.
  assert (Hinit : ∀ st0, PolicyA.isInitialized (client st0) = true →
                         is_Some (PolicyA.page (client st0)) →
            wp (PolicyA.search env query options) st0
               (λ r st',
                  match r with
                  | Ret items =>
                    ∃ td, items = PolicyA.extractProducts (limitOf options)
                                    (env_document env td)
                  | Throw e =>
                    rejected env e
                    ∨ (encodeURIComponent query = None
                       ∧ e = URIError (js "URI malformed"))
                  end)).
  { intros st0 Hi Hp. eapply wp_mono; [by apply searchA_ready_spec|].
    intros [items|e] st' [Hk Hr]; [|done].
    destruct Hr as (tc & td & -> & _). by eexists. }
  destruct (PolicyA.isInitialized (client st)) eqn:Hi; [by apply Hinit, Hready|].
  unfold PolicyA.search. apply wp_bind.
  eapply wp_mono; [by apply initA_spec|].
  intros [[]|e] st0 (Hpw & _ & Hr); wp_simpl.
  - destruct Hr as (Hi0 & Hp0 & _).
    lazymatch goal with
    | |- wp ?m st0 ?Q => change (wp ((λ _ : (), m) ()) st0 Q)
    end.
    apply wp_after_init; [done|].
    lazymatch goal with
    | |- wp _ st0 ?Q => change (wp (PolicyA.search env query options) st0 Q)
    end.
    by apply Hinit.
  - left. apply Hr.
Qed.
End PolicyASession.

(** ** The patterns and the extraction loops *)

Lemma startsWith_spec s p : startsWith s p = true ↔ ∃ post, s = p ++ post.
Proof.
  revert s. induction p as [|c p IH]; intros s; simpl.
  - split; [by eexists|done].
  - destruct s as [|d s]; [split; [done|by intros [? ?]]|].
    rewrite andb_true_iff, N.eqb_eq, IH. split.
    + intros [-> [post ->]]. by eexists.
    + intros [post [= -> ->]]. split; [done|by eexists].
Qed.

Lemma includes_spec s p : includes s p = true ↔ ∃ pre post, s = pre ++ p ++ post.
Proof.
  induction s as [|c s IH]; simpl.
  - rewrite orb_false_r, startsWith_spec. split.
    + intros [post ->]. by exists [], post.
    + intros (pre & post & H). symmetry in H.
      apply app_eq_nil in H as [-> H]. by exists post.
  - rewrite orb_true_iff, startsWith_spec, IH. split.
    + intros [[post ->]|(pre & post & ->)].
      * by exists [], post.
      * by exists (c :: pre), post.
    + intros ([|d pre] & post & H).
      * left. by exists post.
      * right. injection H as -> ->. by exists pre, post.
Qed.

Lemma hasDashDigit_match url : hasDashDigit url ↔ is_Some (matchDashDigits url).
Proof.
  split.
  - intros (pre & d & post & -> & Hd). induction pre as [|c pre IH]; simpl.
    + rewrite Hd. simpl. by eexists.
    + destruct (_ && _); [by eexists|exact IH].
  - induction url as [|c url IH]; simpl; [by intros [? ?]|].
    destruct ((c =? ch_minus) && nonempty (takeWhile is_digit url)) eqn:Hc.
    + intros _. apply andb_true_iff in Hc as [Hc Hne]. apply N.eqb_eq in Hc as ->.
      destruct url as [|d url]; [done|]. simpl in Hne.
      destruct (is_digit d) eqn:Hd; [|done]. by exists [], d, url.
    + intros H. destruct (IH H) as (pre & d & post & -> & Hd).
      by exists (c :: pre), d, post.
Qed.

Section ExtractionLoop.
Context {X : Type} (step : gset jsstring → X → gset jsstring * Turn).
Hypothesis step_push : ∀ seen x seen' it,
  step seen x = (seen', Push it) → (itemId it ∉ seen) ∧ seen' = ({[ itemId it ]} ∪ seen).
Hypothesis step_seen : ∀ seen x, seen ⊆ (step seen x).1.

Lemma loopWith_bounded n xs items seen :
  (length (loopWith step n xs items seen) ≤ max (length items) (N.to_nat n))%nat.
Proof.
  revert items seen. induction xs as [|x xs IH]; intros items seen; simpl; [lia|].
  destruct (n <=? N.of_nat (length items)) eqn:Hn; [lia|].
  apply N.leb_gt in Hn.
  destruct (step seen x) as [seen' [|it|]]; try (etrans; [apply IH|lia]).
  etrans; [apply IH|]. rewrite length_app. simpl. lia.
Qed.

Lemma loopWith_nodup n xs items seen :
  NoDup (itemId <$> items) →
  (∀ it, it ∈ items → itemId it ∈ seen) →
  NoDup (itemId <$> loopWith step n xs items seen).
Proof.
  revert items seen. induction xs as [|x xs IH]; intros items seen Hnd Hseen;
    simpl; [done|].
  destruct (n <=? N.of_nat (length items)); [done|].
  pose proof (step_seen seen x) as Hsub.
  destruct (step seen x) as [seen' [|it|]] eqn:Hstep; simpl in Hsub.
  - apply IH; [done|]. intros it Hit. by apply Hsub, Hseen.
  - apply step_push in Hstep as [Hnew ->]. apply IH.
    + rewrite fmap_app. apply NoDup_app. split; [done|]. split.
      * intros id Hid Hid'. apply list_elem_of_singleton in Hid'. subst id.
        apply list_elem_of_fmap in Hid as (it' & Heq & Hit').
        apply Hnew. rewrite Heq. by apply Hseen.
      * apply NoDup_singleton.
    + intros it' Hit'. apply elem_of_app in Hit' as [Hit'|Hit'].
      * apply elem_of_union_r. by apply Hseen.
      * apply list_elem_of_singleton in Hit'. subst it'. apply elem_of_union_l.
        by apply elem_of_singleton.
  - apply IH; [done|]. intros it Hit. by apply Hsub, Hseen.
Qed.
End ExtractionLoop.

Lemma extractLinkB_push doc seen link seen' it :
  PolicyB.extractLink doc seen link = (seen', Push it) →
  (itemId it ∉ seen) ∧ seen' = ({[ itemId it ]} ∪ seen).
Proof.
  unfold PolicyB.extractLink.
  destruct (orNull (href link)) as [h|]; [|done].
  destruct (orNull (matchLinkId h)) as [id|]; [|done].
  destruct (bool_decide (id ∈ seen)) eqn:Hin; [done|].
  apply bool_decide_eq_false in Hin.
  destruct (PolicyB.container link); [|done].
  intros [= <- <-]. done.
Qed.

Lemma extractLinkB_seen doc seen link : seen ⊆ (PolicyB.extractLink doc seen link).1.
Proof.
  unfold PolicyB.extractLink.
  destruct (orNull (href link)) as [h|]; [|done].
  destruct (orNull (matchLinkId h)) as [id|]; [|done].
  destruct (bool_decide (id ∈ seen)); [done|].
  destruct (PolicyB.container link); simpl; set_solver.
Qed.

Lemma extractLoopB_loopWith doc n links items seen :
  PolicyB.extractLoop doc n links items seen
  = loopWith (λ seen link, PolicyB.extractLink doc seen (asLink link)) n links items seen.
Proof.
  revert items seen. induction links as [|link links IH]; intros items seen; simpl; [done|].
  destruct (n <=? _); [done|].
  destruct (PolicyB.extractLink doc seen (asLink link)) as [seen' [|it|]]; apply IH.
Qed.

Lemma extractCardA_push doc seen card seen' it :
  PolicyA.extractCard doc seen card = (seen', Push it) →
  (itemId it ∉ seen) ∧ seen' = ({[ itemId it ]} ∪ seen).
Proof.
  unfold PolicyA.extractCard.
  destruct (PolicyA.linkOf card) as [link|]; [|done].
  destruct (orNull (href link)) as [h|]; [|done].
  destruct (negb (includes h (js "/product/"))); [done|].
  destruct (orNull (matchCardId h)) as [id|]; [|done].
  destruct (bool_decide (id ∈ seen)) eqn:Hin; [done|].
  apply bool_decide_eq_false in Hin.
  destruct (PolicyA.textOf link); [|done].
  destruct (PolicyA.findPrice _). intros [= <- <-]. done.
Qed.

Lemma extractCardA_seen doc seen card : seen ⊆ (PolicyA.extractCard doc seen card).1.
Proof.
  unfold PolicyA.extractCard.
  destruct (PolicyA.linkOf card) as [link|]; [|done].
  destruct (orNull (href link)) as [h|]; [|done].
  destruct (negb (includes h (js "/product/"))); [done|].
  destruct (orNull (matchCardId h)) as [id|]; [|done].
  destruct (bool_decide (id ∈ seen)); [done|].
  destruct (PolicyA.textOf link); [|simpl; set_solver].
  destruct (PolicyA.findPrice _). simpl. set_solver.
Qed.

Lemma extractLoopA_loopWith doc n cards items seen :
  PolicyA.extractLoop doc n cards items seen
  = loopWith (PolicyA.extractCard doc) n cards items seen.
Proof.
  revert items seen. induction cards as [|card cards IH]; intros items seen; simpl; [done|].
  destruct (n <=? _); [done|].
  destruct (PolicyA.extractCard doc seen card) as [seen' [|it|]]; apply IH.
Qed.

(** What both callbacks return: at most [maxResults] items, with ids that
    differ. *)
Lemma extractProductsB_bounded n doc :
  (length (PolicyB.extractProducts n doc) ≤ N.to_nat n)%nat
  ∧ NoDup (itemId <$> PolicyB.extractProducts n doc).
Proof.
  unfold PolicyB.extractProducts. rewrite extractLoopB_loopWith. split.
  - etrans; [apply loopWith_bounded|]. simpl. lia.
  - apply loopWith_nodup.
    + intros seen x seen' it. apply extractLinkB_push.
    + intros seen x. apply extractLinkB_seen.
    + constructor.
    + intros it Hit. inversion Hit.
Qed.

Lemma extractProductsA_bounded n doc :
  (length (PolicyA.extractProducts n doc) ≤ N.to_nat n)%nat
  ∧ NoDup (itemId <$> PolicyA.extractProducts n doc).
Proof.
  unfold PolicyA.extractProducts. rewrite extractLoopA_loopWith. split.
  - etrans; [apply loopWith_bounded|]. simpl. lia.
  - apply loopWith_nodup.
    + apply extractCardA_push.
    + apply extractCardA_seen.
    + constructor.
    + intros it Hit. inversion Hit.
Qed.

(** ** The results of [search] *)

Lemma searchA_without_page env query options st :
  PolicyA.isInitialized (client st) = true →
  PolicyA.page (client st) = None →
  wp (PolicyA.search env query options) st (λ r _, ∃ e, r = Throw e).
Proof.
  intros Hi Hp. unfold PolicyA.search, encodeQuery.
  wp_focus. apply wp_initA_noop; [done|]. wp_simpl.
  destruct (encodeURIComponent query) as [q|]; wp_steps; [|by eexists].
  unfold PolicyA.visitHomepage. wp_steps.
  destruct (_ && _ && _)%Z; wp_steps; rewrite Hp; wp_focus; apply wp_deref; by eexists.
Qed.

(** C10. In both policies, whatever the query, the options and the
    answers of the environment are, the list that [search] returns has at
    most [limit] entries, and no two of them have the same [id]. *)
Theorem C10_search_bounded_distinct env query options :
  (∀ st items st',
     PolicyB.search env query options st = (Ret items, st') →
     (length items ≤ N.to_nat (limitOf options))%nat ∧ NoDup (itemId <$> items))
  ∧ (∀ st items st',
       PolicyA.search env query options st = (Ret items, st') →
       (length items ≤ N.to_nat (limitOf options))%nat ∧ NoDup (itemId <$> items)).
Proof.
  split; intros st items st' Hrun.
  - pose proof (searchB_outcome env query options st) as H.
    unfold wp in H. rewrite Hrun in H. simpl in H.
    destruct H as [[-> _]|(tc & td & _ & ->)].
    + split; [simpl; lia|constructor].
    + apply extractProductsB_bounded.
  - destruct (PolicyA.isInitialized (client st)) eqn:Hi;
      [destruct (PolicyA.page (client st)) as [p|] eqn:Hp|].
    + pose proof (searchA_spec env query options st) as H.
      unfold wp in H. rewrite Hrun in H. simpl in H.
      destruct H as [td ->]; [unfold readyA; rewrite Hp; by eexists|].
      apply extractProductsA_bounded.
    + pose proof (searchA_without_page env query options st Hi Hp) as H.
      unfold wp in H. rewrite Hrun in H. by destruct H.
    + pose proof (searchA_spec env query options st) as H.
      unfold wp in H. rewrite Hrun in H. simpl in H.
      destruct H as [td ->]; [unfold readyA; by rewrite Hi|].
      apply extractProductsA_bounded.
Qed.

Lemma C10_search_bounded_distinct_witness :
  ∃ items st',
    PolicyB.search envOk (js "телефон") noOptions PolicyB.initial = (Ret items, st')
    ∧ (length items ≤ N.to_nat (limitOf noOptions))%nat
    ∧ NoDup (itemId <$> items).
Proof.
  eexists _, _. split; [vm_compute; reflexivity|].
  eapply (proj1 (C10_search_bounded_distinct envOk (js "телефон") noOptions)
            PolicyB.initial).
  vm_compute. reflexivity.
Defined.

Lemma findPriceB_none lines :
  Forall (λ line, includes line ruble = true → matchPriceRun line = None) lines →
  PolicyB.findPrice lines = None.
Proof.
  induction 1 as [|line lines Hline _ IH]; simpl; [done|].
  destruct (includes line ruble); [|done]. by rewrite Hline.
Qed.

Lemma findPriceA_none lines :
  Forall (λ line, includes line ruble = true → matchPriceRun line = None) lines →
  (PolicyA.findPrice lines).1 = None.
Proof.
  induction 1 as [|line lines Hline _ IH]; simpl; [done|].
  destruct (includes line ruble); [|done]. by rewrite Hline.
Qed.

Section LoopYield.
Context {X : Type} (step : gset jsstring → X → gset jsstring * Turn).
Hypothesis step_push : ∀ seen x seen' it,
  step seen x = (seen', Push it) → (itemId it ∉ seen) ∧ seen' = ({[ itemId it ]} ∪ seen).
Hypothesis step_seen : ∀ seen x, seen ⊆ (step seen x).1.

(** The loop only adds to its list. *)
Lemma loopWith_prefix n xs items seen :
  items `prefix_of` loopWith step n xs items seen.
Proof.
  revert items seen. induction xs as [|x xs IH]; intros items seen; simpl; [done|].
  destruct (n <=? _); [done|].
  destruct (step seen x) as [seen' [|it|]]; try apply IH.
  etrans; [|apply IH]. by apply prefix_app_r.
Qed.

(** What the loop adds has an id that was not seen before. *)
Lemma loopWith_new n xs items seen it :
  it ∈ loopWith step n xs items seen → it ∈ items ∨ itemId it ∉ seen.
Proof.
  revert items seen. induction xs as [|x xs IH]; intros items seen; simpl; [by left|].
  destruct (n <=? _); [by left|].
  pose proof (step_seen seen x) as Hsub.
  destruct (step seen x) as [seen' [|it'|]] eqn:Hstep; simpl in Hsub; intros Hin;
    apply IH in Hin.
  - destruct Hin as [Hin|Hin]; [by left|right]. intros Hs. by apply Hin, Hsub.
  - apply step_push in Hstep as [Hnew ->].
    destruct Hin as [Hin|Hin].
    + apply elem_of_app in Hin as [Hin|Hin]; [by left|].
      apply list_elem_of_singleton in Hin. subst it'. by right.
    + right. intros Hs. apply Hin. by apply elem_of_union_r.
  - destruct Hin as [Hin|Hin]; [by left|right]. intros Hs. by apply Hin, Hsub.
Qed.
End LoopYield.

Lemma orNull_Some s h : orNull s = Some h → h ≠ [].
Proof. destruct s as [[|? ?]|]; [done| |done]. by intros [= <-]. Qed.

(** One turn of policy B on a link of a product that was not seen: the
    item is pushed, whatever its text is. *)
Lemma extractLinkB_yields doc seen link h id c :
  orNull (href link) = Some h →
  orNull (matchLinkId h) = Some id →
  id ∉ seen →
  PolicyB.container link = Some c →
  ∃ it,
    PolicyB.extractLink doc seen link = ({[ id ]} ∪ seen, Push it)
    ∧ itemId it = id
    ∧ (noParsablePrice (default [] (innerText c)) →
       price it = None ∧ priceFormatted it = None).
Proof.
  intros Hh Hid Hnew Hc. unfold PolicyB.extractLink. rewrite Hh, Hid.
  rewrite (bool_decide_eq_false_2 _ Hnew), Hc. cbv zeta.
  eexists. split; [reflexivity|]. split; [done|].
  intros Hnone. cbn [price priceFormatted].
  by rewrite (findPriceB_none _ Hnone).
Qed.

Lemma extractCardA_yields doc seen card link h id text :
  PolicyA.linkOf card = Some link →
  orNull (href link) = Some h →
  includes h (js "/product/") = true →
  orNull (matchCardId h) = Some id →
  id ∉ seen →
  PolicyA.textOf link = Some text →
  ∃ it,
    PolicyA.extractCard doc seen card = ({[ id ]} ∪ seen, Push it)
    ∧ itemId it = id
    ∧ (noParsablePrice text → price it = None).
Proof.
  intros Hlink Hh Hinc Hid Hnew Htext. unfold PolicyA.extractCard.
  rewrite Hlink, Hh, Hinc, Hid. cbn [negb].
  rewrite (bool_decide_eq_false_2 _ Hnew), Htext. cbv zeta.
  destruct (PolicyA.findPrice (textLines text)) as [p priceText] eqn:Hp.
  eexists. split; [reflexivity|]. split; [done|].
  intros Hnone. cbn [price]. pose proof (findPriceA_none _ Hnone) as H.
  by rewrite Hp in H.
Qed.

Lemma extractCardA_raises doc seen card link h id :
  PolicyA.linkOf card = Some link →
  orNull (href link) = Some h →
  includes h (js "/product/") = true →
  orNull (matchCardId h) = Some id →
  id ∉ seen →
  PolicyA.textOf link = None →
  PolicyA.extractCard doc seen card = ({[ id ]} ∪ seen, Raised).
Proof.
  intros Hlink Hh Hinc Hid Hnew Htext. unfold PolicyA.extractCard.
  rewrite Hlink, Hh, Hinc, Hid. cbn [negb].
  by rewrite (bool_decide_eq_false_2 _ Hnew), Htext.
Qed.


(** C9. Extraction is best-effort per record, in both variants, for a
    loop that has not reached its limit. A link or a card of a product that
    was not seen before, and that has a text, is pushed with its id, and
    with [price: null] when no line of its text carries both the ruble sign
    and a digit: its turn does not raise, and the item is in the list that
    the loop returns. In policy B no turn raises at all. In policy A the
    turn of such a card whose text is undefined raises: nothing is pushed
    for it, no item of the list gets its id, and the loop goes on with the
    cards that follow. Whatever the page holds, [search] returns what the
    loop has kept (or, in policy B, nothing for a block page), and the only
    errors of [search] are the rejections of calls to Playwright and the
    [URIError] of the query. *)
Theorem C9_extraction_best_effort doc seen n items :
  N.of_nat (length items) < n →
  (∀ link, (PolicyB.extractLink doc seen link).2 ≠ Raised)
  ∧ (∀ node rest h id c,
       orNull (href (asLink node)) = Some h →
       orNull (matchLinkId h) = Some id →
       id ∉ seen →
       PolicyB.container (asLink node) = Some c →
       ∃ it,
         PolicyB.extractLink doc seen (asLink node) = ({[ id ]} ∪ seen, Push it)
         ∧ itemId it = id
         ∧ (noParsablePrice (default [] (innerText c)) →
            price it = None ∧ priceFormatted it = None)
         ∧ it ∈ PolicyB.extractLoop doc n (node :: rest) items seen)
  ∧ (∀ card rest link h id text,
       PolicyA.linkOf card = Some link →
       orNull (href link) = Some h →
       includes h (js "/product/") = true →
       orNull (matchCardId h) = Some id →
       id ∉ seen →
       PolicyA.textOf link = Some text →
       ∃ it,
         PolicyA.extractCard doc seen card = ({[ id ]} ∪ seen, Push it)
         ∧ itemId it = id
         ∧ (noParsablePrice text → price it = None)
         ∧ it ∈ PolicyA.extractLoop doc n (card :: rest) items seen)
  ∧ (∀ card rest link h id,
       PolicyA.linkOf card = Some link →
       orNull (href link) = Some h →
       includes h (js "/product/") = true →
       orNull (matchCardId h) = Some id →
       id ∉ seen →
       PolicyA.textOf link = None →
       PolicyA.extractCard doc seen card = ({[ id ]} ∪ seen, Raised)
       ∧ PolicyA.extractLoop doc n (card :: rest) items seen
         = PolicyA.extractLoop doc n rest items ({[ id ]} ∪ seen)
       ∧ ∀ it, it ∈ PolicyA.extractLoop doc n (card :: rest) items seen →
               itemId it = id → it ∈ items)
  ∧ (∀ env query options st,
       match PolicyB.search env query options st with
       | (Ret results, _) =>
         results = []
         ∨ ∃ t, results = PolicyB.extractProducts (limitOf options) (env_document env t)
       | (Throw e, _) =>
         rejected env e
         ∨ (encodeURIComponent query = None ∧ e = URIError (js "URI malformed"))
       end)
  ∧ (∀ env query options st,
       readyA st →
       match PolicyA.search env query options st with
       | (Ret results, _) =>
         ∃ t, results = PolicyA.extractProducts (limitOf options) (env_document env t)
       | (Throw e, _) =>
         rejected env e
         ∨ (encodeURIComponent query = None ∧ e = URIError (js "URI malformed"))
       end).
Proof.
  intros Hn. apply N.leb_gt in Hn. split_and!.
  - intros link. unfold PolicyB.extractLink.
    destruct (orNull (href link)) as [h|]; [|done].
    destruct (orNull (matchLinkId h)) as [id|]; [|done].
    destruct (bool_decide (id ∈ seen)); [done|].
    by destruct (PolicyB.container link).
  - intros node rest h id c Hh Hid Hnew Hc.
    destruct (extractLinkB_yields doc seen (asLink node) h id c Hh Hid Hnew Hc)
      as (it & Hturn & Hit & Hprice).
    exists it. split_and!; [done..|].
    cbn [PolicyB.extractLoop]. rewrite Hn, Hturn. rewrite extractLoopB_loopWith.
    eapply elem_of_prefix; [|apply loopWith_prefix].
    apply elem_of_app. right. by apply list_elem_of_singleton.
  - intros card rest link h id text Hlink Hh Hinc Hid Hnew Htext.
    destruct (extractCardA_yields doc seen card link h id text Hlink Hh Hinc Hid Hnew Htext)
      as (it & Hturn & Hit & Hprice).
    exists it. split_and!; [done..|].
    cbn [PolicyA.extractLoop]. rewrite Hn, Hturn. rewrite extractLoopA_loopWith.
    eapply elem_of_prefix; [|apply loopWith_prefix].
    apply elem_of_app. right. by apply list_elem_of_singleton.
  - intros card rest link h id Hlink Hh Hinc Hid Hnew Htext.
    pose proof (extractCardA_raises doc seen card link h id Hlink Hh Hinc Hid Hnew Htext)
      as Hturn.
    split; [done|].
    assert (Hloop : PolicyA.extractLoop doc n (card :: rest) items seen
                    = PolicyA.extractLoop doc n rest items ({[ id ]} ∪ seen)).
    { cbn [PolicyA.extractLoop]. by rewrite Hn, Hturn. }
    split; [done|]. rewrite Hloop, extractLoopA_loopWith. intros it Hin Hitid.
    apply (loopWith_new _ (extractCardA_push doc) (extractCardA_seen doc)) in Hin
      as [Hin|Hin];
      [done|].
    exfalso. apply Hin. rewrite Hitid. apply elem_of_union_l. by apply elem_of_singleton.
  - intros env query options st.
    pose proof (searchB_outcome env query options st) as H. unfold wp in H.
    destruct (PolicyB.search env query options st) as [[results|e] st'];
      cbv beta iota delta [fst snd] in H; [|done].
    destruct H as [[-> _]|(tc & td & _ & ->)]; [by left|right; by eexists].
  - intros env query options st Hready.
    pose proof (searchA_spec env query options st Hready) as H. unfold wp in H.
    by destruct (PolicyA.search env query options st) as [[results|e] st'].
Qed.

Lemma C9_extraction_best_effort_witness :
  ∃ it,
    PolicyB.extractLink exampleDocument ∅
      (exampleLink "/product/zaryadnoe-ustroystvo-4242/"
                   "Зарядное устройство, цена по запросу")
    = ({[ js "4242" ]} ∪ ∅, Push it)
    ∧ itemId it = js "4242"
    ∧ (noParsablePrice
         (default [] (innerText (exampleElement "Зарядное устройство, цена по запросу"))) →
       price it = None ∧ priceFormatted it = None)
    ∧ it ∈ PolicyB.extractLoop exampleDocument 20
             [exampleAnchor (exampleLink "/product/zaryadnoe-ustroystvo-4242/"
                               "Зарядное устройство, цена по запросу")] [] ∅.
Proof.
  apply (proj1 (proj2 (C9_extraction_best_effort exampleDocument ∅ 20 [] ltac:(done)))
           (exampleAnchor (exampleLink "/product/zaryadnoe-ustroystvo-4242/"
                             "Зарядное устройство, цена по запросу"))
           [] (js "/product/zaryadnoe-ustroystvo-4242/") (js "4242")
           (exampleElement "Зарядное устройство, цена по запросу")).
  - vm_compute. reflexivity.
  - vm_compute. reflexivity.
  - apply not_elem_of_empty.
  - reflexivity.
Defined.

(** The card of the drawing raises in policy A and is left out; the two
    products around it are returned, the second without a price. *)
Example extractProductsA_example :
  itemId <$> PolicyA.extractProducts 20 exampleDocument = [js "123456"; js "4242"]
  ∧ price <$> PolicyA.extractProducts 20 exampleDocument = [Some 1299; None]
  ∧ (PolicyA.extractCard exampleDocument {[ js "123456" ]}
       (exampleAnchor (exampleSvgLink "/product/chehol-dlya-iphone-777/"))).2 = Raised.
Proof. vm_compute. done. Qed.

(** ** How [getProductDetails] ends *)

(** C2, as stated, fails: when the navigation to the homepage times out,
    [getProductDetails] throws the error of Playwright, which is neither a
    blocked error nor a not-found error. *)
Lemma C2_timeout_counterexample :
  ¬ detailsOutcome
      (PolicyB.getProductDetails envTimeoutB (js "123456") PolicyB.initial).1.
Proof.
  assert (H : (PolicyB.getProductDetails envTimeoutB (js "123456") PolicyB.initial).1
              = Throw (PlaywrightError timeoutMessage)) by (vm_compute; reflexivity).
  rewrite H. intros [[H1|H1]|H1]; discriminate H1.
Qed.

(** C2, amended. For every input and every answer of the environment,
    [getProductDetails] throws a blocked error, or (policy A) a not-found
    error, or the error of the call to Playwright that rejected, or it
    returns a product whose [id] is not [null] whenever its URL has a [-]
    followed by a digit. In policy A this is for a controller that holds a
    page once it is initialized. *)
Theorem C2_getProductDetails_outcomes env productIdOrUrl :
  (∀ st, detailsOutcomeOrRejected
           (PolicyB.getProductDetails env productIdOrUrl st).1)
  ∧ (∀ st, readyA st →
           detailsOutcomeOrRejected
             (PolicyA.getProductDetails env productIdOrUrl st).1).
Proof.
  split.
  - intros st. pose proof (getProductDetailsB_outcome env productIdOrUrl st) as [_ H].
    destruct (PolicyB.getProductDetails env productIdOrUrl st).1 as [product|e]; simpl.
    + destruct H as (tu & td & tc & -> & _). simpl. intros Hurl Hnone.
      apply hasDashDigit_match in Hurl as [id Hid]. congruence.
    + destruct H as [(t & msg & _ & ->)| ->].
      * right. right. by eexists.
      * left. by right.
  - intros st Hready.
    pose proof (getProductDetailsA_spec env productIdOrUrl st Hready) as (_ & _ & H).
    destruct (PolicyA.getProductDetails env productIdOrUrl st).1 as [product|e]; simpl.
    + destruct H as (_ & tu & td & tc & -> & _). simpl. intros Hurl Hnone.
      apply hasDashDigit_match in Hurl as [id Hid]. congruence.
    + destruct H as [(t & msg & _ & ->)|[_ [->|[-> _]]]].
      * right. right. by eexists.
      * left. by left.
      * right. by left.
Qed.

Lemma C2_getProductDetails_outcomes_witness :
  readyA PolicyA.initial
  ∧ detailsOutcomeOrRejected
      (PolicyA.getProductDetails envTimeoutA (js "123456") PolicyA.initial).1.
Proof.
  assert (H : readyA PolicyA.initial) by (intros H; discriminate H).
  split; [exact H|].
  exact (proj2 (C2_getProductDetails_outcomes envTimeoutA (js "123456"))
           PolicyA.initial H).
Defined.

(** ** The batch of [getProductsList] *)

Lemma getProductsListB_cons env id rest results st :
  PolicyB.getProductsListFrom env (id :: rest) results st
  = PolicyB.getProductsListFrom env rest
      (results ++ [entryOf id (PolicyB.getProductDetails env id st).1])
      (PolicyB.getProductDetails env id st).2.
Proof.
  simpl. unfold bind at 1. unfold tryCatch. unfold bind at 1.
  by destruct (PolicyB.getProductDetails env id st) as [[product|e] st1].
Qed.


(** One turn of the loop of policy A: the wait of 2000 ms comes after the
    [try], on [this.page]. *)
Lemma getProductsListA_cons env id rest results st :
  PolicyA.getProductsListFrom env (id :: rest) results st
  = let r := PolicyA.getProductDetails env id st in
    match PolicyA.page (client r.2) with
    | None => (Throw (TypeError (js "Cannot read properties of null")), r.2)
    | Some p =>
      let paced := {| world := record (EvWaitForTimeout p 2000) (world r.2);
                      client := client r.2 |} in
      match env_fail env (tick (world r.2)) with
      | Some msg => (Throw (PlaywrightError msg), paced)
      | None =>
        PolicyA.getProductsListFrom env rest (results ++ [entryOf id r.1]) paced
      end
    end.
Proof.
  simpl. unfold bind at 1. unfold tryCatch. unfold bind at 1.
  destruct (PolicyA.getProductDetails env id st) as [[product|e] st1]; simpl;
    unfold bind at 1; unfold PolicyA.thisPage; unfold bind at 1;
    unfold getClient at 1; destruct (PolicyA.page (client st1)) as [p|]; simpl;
    try done; unfold bind at 1; unfold waitForTimeout, call;
    by destruct (env_fail env (tick (world st1))).
Qed.


Lemma getProductsListA_returns env ids results st :
  neverRejects env → readyA st →
  ∃ results' st', PolicyA.getProductsListFrom env ids results st = (Ret results', st').
Proof.
  intros Hnr. revert results st. induction ids as [|id ids IH]; intros results st Hready.
  - by eexists _, _.
  - rewrite getProductsListA_cons. cbv zeta.
    pose proof (getProductDetailsA_spec env id st Hready) as (Hready1 & _ & Hr).
    assert (Hp : is_Some (PolicyA.page
                            (client (PolicyA.getProductDetails env id st).2))).
    { destruct (PolicyA.getProductDetails env id st).1 as [product|e].
      - apply Hr.
      - destruct Hr as [(t & msg & Hfail & _)|[Hp _]]; [|done].
        by rewrite Hnr in Hfail. }
    destruct Hp as [p ->]. rewrite Hnr. by apply IH.
Qed.


(** The wait of policy A is outside the [try]: with no browser to start,
    [this.page] is [null] after the first item and the batch throws. *)
Example getProductsListA_throws_example :
  (PolicyA.getProductsList envDown [js "123456"; js "4242"] PolicyA.initial).1
  = Throw (TypeError (js "Cannot read properties of null")).
Proof. vm_compute. done. Qed.










(** ** Idle browsers left behind by policy A *)

(** C4 fails in policy A. The warm-up of [init] times out in a first
    [search]: the browser stays, and the controller is not initialized. The
    next [search] starts a second browser, and both are running when it
    returns. *)
Theorem C4_policyA_second_browser :
  let st1 := (PolicyA.search envTimeoutA (js "телефон") noOptions PolicyA.initial).2 in
  let st2 := (PolicyA.search envTimeoutA (js "телефон") noOptions st1).2 in
  (PolicyA.search envTimeoutA (js "телефон") noOptions PolicyA.initial).1
  = Throw (PlaywrightError timeoutMessage)
  ∧ alive st1 = 1%nat
  ∧ PolicyA.isInitialized (client st1) = false
  ∧ live (world st2) = [1%nat; 0%nat]
  ∧ alive st2 = 2%nat.
Proof. vm_compute. done. Qed.

Lemma getProductsListB_released env ids results st :
  releasedB st → releasedB (PolicyB.getProductsListFrom env ids results st).2.
Proof.
  revert results st. induction ids as [|id ids IH]; intros results st Hrel; [done|].
  rewrite getProductsListB_cons. apply IH.
  by apply (getProductDetailsB_released env id st), releasedB_owned.
Qed.

(** X25. After any sequence of public operations on a controller of
    policy B that was just constructed ([getProductsList], [setLocation],
    [getFilters] and [close] among them), no browser is running and the
    controller holds none. *)
Lemma policyB_released_invariant env (ops : list OperationB) :
  releasedB (foldl (afterB env) PolicyB.initial ops).
Proof.
  assert (H : ∀ st, releasedB st → releasedB (foldl (afterB env) st ops)).
  { induction ops as [|op ops IH]; intros st Hrel; [done|].
    simpl. apply IH. destruct op; simpl.
    - by apply (searchB_released env query options st).
    - by apply (getProductDetailsB_released env productIdOrUrl st), releasedB_owned.
    - by apply getProductsListB_released.
    - done.
    - done.
    - by apply (getCategoriesB_released env st), releasedB_owned.
    - by apply (closeB_spec env st), releasedB_owned. }
  apply H. by split.
Qed.

(** In policy B no operation leaves a browser running, so that at most one
    is ever running. *)
Lemma policyB_at_most_one_browser env query options productIdOrUrl st :
  releasedB st →
  (alive (PolicyB.search env query options st).2 ≤ 1)%nat
  ∧ (alive (PolicyB.getProductDetails env productIdOrUrl st).2 ≤ 1)%nat
  ∧ (alive (PolicyB.getCategories env st).2 ≤ 1)%nat.
Proof.
  intros Hrel. unfold alive.
  pose proof (searchB_released env query options st Hrel) as [-> _].
  pose proof (getProductDetailsB_released env productIdOrUrl st
                (releasedB_owned st Hrel)) as [-> _].
  pose proof (getCategoriesB_released env st (releasedB_owned st Hrel)) as [-> _].
  simpl. lia.
Qed.

(** ** [close()] *)

(** C8 fails in policy A. With a session up, [browser.close()] rejects:
    [close()] throws, and the controller still holds the browser, the
    context and the page. *)
Theorem C8_policyA_close_throws :
  let st1 := (PolicyA.search envCloseRejects (js "телефон") noOptions PolicyA.initial).2 in
  PolicyA.browser (client st1) = Some 0%nat
  ∧ (PolicyA.close envCloseRejects st1).1
    = Throw (PlaywrightError (js "browser.close: Protocol error"))
  ∧ PolicyA.browser (client (PolicyA.close envCloseRejects st1).2) = Some 0%nat
  ∧ PolicyA.context (client (PolicyA.close envCloseRejects st1).2) = Some 0%nat
  ∧ PolicyA.page (client (PolicyA.close envCloseRejects st1).2) = Some 0%nat.
Proof. vm_compute. done. Qed.

(** In policy B [close()] never throws, twice in a row or on a controller
    without a browser, and the controller holds nothing afterwards. *)
Lemma closeB_idempotent env st :
  ownedB st →
  ∃ st1 st2,
    PolicyB.close env st = (Ret (), st1)
    ∧ PolicyB.close env st1 = (Ret (), st2)
    ∧ client st1 = PolicyB.constructor
    ∧ st2 = st1.
Proof.
  intros Hown. pose proof (closeB_spec env st Hown) as [Hr [Hl Hc]].
  destruct (PolicyB.close env st) as [r st1] eqn:Hrun. simpl in *. subst r.
  exists st1, st1. repeat split; [|done].
  unfold PolicyB.close, bind, getClient. simpl. by rewrite Hc.
Qed.

(** In policy A [close()] on a controller without a browser does nothing,
    which is also what a second [close()] finds after a first one that
    returned. *)
Lemma closeA_without_browser env st :
  PolicyA.browser (client st) = None → PolicyA.close env st = (Ret (), st).
Proof. intros Hb. unfold PolicyA.close, bind, getClient. simpl. by rewrite Hb. Qed.

Lemma closeA_twice env st st1 :
  PolicyA.close env st = (Ret (), st1) →
  PolicyA.close env st1 = (Ret (), st1) ∧ PolicyA.browser (client st1) = None.
Proof.
  intros Hrun.
  assert (Hb : PolicyA.browser (client st1) = None).
  { revert Hrun. unfold PolicyA.close, bind, getClient, browserClose. simpl.
    destruct (PolicyA.browser (client st)) as [b|] eqn:Hb.
    - destruct (env_fail env _); [done|]. by intros [= <-].
    - by intros [= <-]. }
  split; [by apply closeA_without_browser|done].
Qed.

(** ** A block that persists *)

(** C7, as stated, fails: in policy A [search] does not look at the title
    again after its retry. With the block page at every load it makes the
    forced warm-up and then returns what the extraction finds. *)
Lemma C7_policyA_search_counterexample :
  (PolicyA.search envBlocked (js "телефон") noOptions PolicyA.initial).1
  = Ret (PolicyA.extractProducts 20 exampleDocument)
  ∧ warmups (PolicyA.search envBlocked (js "телефон") noOptions PolicyA.initial).2
    = 2%nat.
Proof. vm_compute. done. Qed.

(** C7, amended. When no call rejects and every title carries the block
    signature: in policy A [getProductDetails] raises the blocked error
    after its retry, while [search] raises nothing and returns what the
    extraction finds on the page; in policy B, which has no retry, [search]
    returns the empty list and [getProductDetails] raises the blocked
    error. *)
Theorem C7_block_persists env :
  neverRejects env →
  ((∀ t, PolicyA.isCaptchaTitle (env_title env t) = true) →
     (∀ productIdOrUrl st,
        readyA st →
        (PolicyA.getProductDetails env productIdOrUrl st).1
        = Throw (Error (js "Unable to bypass captcha for product page")))
     ∧ (∀ query options st,
          readyA st → is_Some (encodeURIComponent query) →
          ∃ td, (PolicyA.search env query options st).1
                = Ret (PolicyA.extractProducts (limitOf options) (env_document env td))))
  ∧ ((∀ t, PolicyB.isBlocked (env_title env t) = true) →
       (∀ query options st,
          is_Some (encodeURIComponent query) →
          (PolicyB.search env query options st).1 = Ret [])
       ∧ (∀ productIdOrUrl st,
            (PolicyB.getProductDetails env productIdOrUrl st).1
            = Throw (Error (js "Product page blocked by antibot")))).
Proof.
  intros Hnr. split; intros Hblocked; split.
  - intros id st Hready.
    pose proof (getProductDetailsA_spec env id st Hready) as (_ & _ & H).
    destruct (PolicyA.getProductDetails env id st).1 as [product|e].
    + destruct H as (_ & tu & td & tc & _ & Htc & _). by rewrite Hblocked in Htc.
    + destruct H as [(t & msg & Hfail & _)|[_ [->|[_ [tc Htc]]]]].
      * by rewrite Hnr in Hfail.
      * done.
      * by rewrite Hblocked in Htc.
  - intros query options st Hready [q Hq].
    pose proof (searchA_spec env query options st Hready) as H.
    unfold wp in H. destruct (PolicyA.search env query options st).1 as [items|e].
    + destruct H as [td ->]. by eexists.
    + destruct H as [(t & msg & Hfail & _)|[Hnone _]].
      * by rewrite Hnr in Hfail.
      * congruence.
  - intros query options st [q Hq].
    pose proof (searchB_outcome env query options st) as H.
    unfold wp in H. destruct (PolicyB.search env query options st).1 as [items|e].
    + destruct H as [[-> _]|(tc & td & Htc & _)]; [done|].
      by rewrite Hblocked in Htc.
    + destruct H as [(t & msg & Hfail & _)|[Hnone _]].
      * by rewrite Hnr in Hfail.
      * congruence.
  - intros id st.
    pose proof (getProductDetailsB_outcome env id st) as [_ H].
    destruct (PolicyB.getProductDetails env id st).1 as [product|e].
    + destruct H as (tu & td & tc & _ & Htc). by rewrite Hblocked in Htc.
    + destruct H as [(t & msg & Hfail & _)| ->]; [|done].
      by rewrite Hnr in Hfail.
Qed.

Lemma C7_block_persists_witness :
  (PolicyA.getProductDetails envBlocked (js "123456") PolicyA.initial).1
  = Throw (Error (js "Unable to bypass captcha for product page")).
Proof.
  apply (proj1 (proj1 (C7_block_persists envBlocked (λ t, eq_refl))
                  (λ t, eq_refl))).
  intros H. discriminate H.
Defined.

(** ** The freshness window of policy A *)

Lemma bind_init_restart {A} env (k : () → M PolicyA.Client A) st st0 :
  PolicyA.init env st = (Ret (), st0) →
  PolicyA.isInitialized (client st0) = true →
  bind (PolicyA.init env) k st = bind (PolicyA.init env) k st0.
Proof. intros H Hi. unfold bind. by rewrite H, (initA_noop env st0 Hi). Qed.

(** The first [search] of a controller: [init] makes the one warm-up, and
    the [visitHomepage] of [search] itself is skipped. *)
Lemma searchA_first env query options st :
  neverRejects env →
  is_Some (encodeURIComponent query) →
  client st = PolicyA.constructor →
  (∀ t, PolicyA.isCaptchaTitle (env_title env t) = false) →
  (∀ t, 0 < env_now env t)%Z →
  (∀ t t', env_now env t' - env_now env t < 5 * 60 * 1000)%Z →
  (∃ items, (PolicyA.search env query options st).1 = Ret items)
  ∧ warmups (PolicyA.search env query options st).2 = S (warmups st)
  ∧ PolicyA.isInitialized (client (PolicyA.search env query options st).2) = true
  ∧ is_Some (PolicyA.page (client (PolicyA.search env query options st).2))
  ∧ (0 < PolicyA.lastHomepageVisit (client (PolicyA.search env query options st).2))%Z.
Proof.
  intros Hnr [q Hq] Hc Hcap Hpos Hwin.
  assert (Hi : PolicyA.isInitialized (client st) = false) by by rewrite Hc.
  pose proof (initA_spec env st Hi) as (_ & Hint & Hr). rewrite Hc in Hr, Hint.
  destruct (PolicyA.init env st) as [[[]|e] st0] eqn:Hinit; simpl in Hr, Hint;
    [|destruct Hr as [(t & msg & Hfail & _) _]; by rewrite Hnr in Hfail].
  assert (Hfresh : ∀ now, withinWindow PolicyA.constructor now = false)
    by (intros now; apply andb_false_r).
  rewrite Hfresh in Hr. destruct Hr as (Hi0 & Hp0 & Hlast0 & Hw0).
  assert (Hrestart : PolicyA.search env query options st
                     = PolicyA.search env query options st0)
    by by apply bind_init_restart.
  rewrite Hrestart.
  pose proof (searchA_ready_spec env query options st0 Hi0 Hp0) as [Hk Hr].
  destruct Hk as (_ & _ & Hp' & Hi' & _).
  destruct (PolicyA.search env query options st0).1 as [items|e].
  - destruct Hr as (tc & td & _ & Hw & Hlast). rewrite Hcap in Hw, Hlast.
    assert (Hwithin : withinWindow (client st0) (env_now env (tick (world st0))) = true).
    { unfold withinWindow. rewrite Hint, Hlast0. apply andb_true_iff. split.
      - apply Z.ltb_lt, Hwin.
      - apply Z.ltb_lt, Hpos. }
    rewrite Hwithin in Hw, Hlast. split; [by eexists|]. split; [lia|].
    split; [congruence|]. split; [by rewrite Hp'|].
    rewrite (Hlast eq_refl), Hlast0. apply Hpos.
  - destruct Hr as [(t & msg & Hfail & _)|[Hnone _]];
      [by rewrite Hnr in Hfail|congruence].
Qed.

(** C6. In the long-lived-session policy, with no call rejected: the first
    [search] of a controller performs one warm-up; a later [search] made
    inside the window of the last warm-up performs none, so that the two
    calls share one warm-up; a later [search] made once the window has
    passed performs exactly one and moves the window to the clock it read;
    and when the block page is detected, the forced warm-up takes place
    although the window is still open. *)
Theorem C6_freshness_window env query options :
  neverRejects env →
  is_Some (encodeURIComponent query) →
  (∀ st,
     client st = PolicyA.constructor →
     (∀ t, PolicyA.isCaptchaTitle (env_title env t) = false) →
     (∀ t, 0 < env_now env t)%Z →
     (∀ t t', env_now env t' - env_now env t < 5 * 60 * 1000)%Z →
     (∃ items, (PolicyA.search env query options st).1 = Ret items)
     ∧ warmups (PolicyA.search env query options st).2 = S (warmups st)
     ∧ PolicyA.isInitialized (client (PolicyA.search env query options st).2) = true
     ∧ is_Some (PolicyA.page (client (PolicyA.search env query options st).2))
     ∧ (0 < PolicyA.lastHomepageVisit
              (client (PolicyA.search env query options st).2))%Z)
  ∧ (∀ st,
       PolicyA.isInitialized (client st) = true →
       is_Some (PolicyA.page (client st)) →
       let now := env_now env (tick (world st)) in
       let last := PolicyA.lastHomepageVisit (client st) in
       let window := PolicyA.homepageVisitInterval (client st) in
       let st' := (PolicyA.search env query options st).2 in
       (∃ items, (PolicyA.search env query options st).1 = Ret items)
       ∧ ((∀ t, PolicyA.isCaptchaTitle (env_title env t) = false) →
          (0 < last)%Z → (now - last < window)%Z →
          warmups st' = warmups st
          ∧ PolicyA.lastHomepageVisit (client st') = last)
       ∧ ((∀ t, PolicyA.isCaptchaTitle (env_title env t) = false) →
          (window ≤ now - last)%Z →
          warmups st' = S (warmups st)
          ∧ PolicyA.lastHomepageVisit (client st') = now)
       ∧ ((∀ t, PolicyA.isCaptchaTitle (env_title env t) = true) →
          (0 < last)%Z → (now - last < window)%Z →
          warmups st' = S (warmups st))).
Proof.
  intros Hnr Hq. split; [intros st; by apply searchA_first|].
  intros st Hi Hp now last window st'. subst now last window st'.
  pose proof (searchA_ready_spec env query options st Hi Hp) as [_ Hr].
  destruct (PolicyA.search env query options st).1 as [items|e];
    [|destruct Hr as [(t & msg & Hfail & _)|[Hnone _]];
      [by rewrite Hnr in Hfail|destruct Hq; congruence]].
  destruct Hr as (tc & td & _ & Hw & Hlast).
  split; [by eexists|]. unfold withinWindow in Hw, Hlast.
  split; [|split].
  - intros Hcap Hpos Hwin. rewrite Hcap in Hw, Hlast.
    apply Z.ltb_lt in Hpos, Hwin. rewrite Hpos, Hwin in Hw, Hlast. simpl in Hw, Hlast.
    split; [lia|by apply Hlast].
  - intros Hcap Hout. rewrite Hcap in Hw, Hlast.
    apply Z.ltb_ge in Hout. rewrite Hout in Hw, Hlast. simpl in Hw, Hlast.
    split; [lia|by apply Hlast].
  - intros Hcap Hpos Hwin. rewrite Hcap in Hw.
    apply Z.ltb_lt in Hpos, Hwin. rewrite Hpos, Hwin in Hw. simpl in Hw. lia.
Qed.

Lemma C6_freshness_window_witness :
  (warmups (PolicyA.search (envClockAt 1000) (js "телефон") noOptions PolicyA.initial).2
   = S (warmups PolicyA.initial))
  ∧ (let st1 := (PolicyA.search envOk (js "телефон") noOptions PolicyA.initial).2 in
     warmups (PolicyA.search envOk (js "ноутбук") noOptions st1).2 = warmups st1).
Proof.
  split.
  - pose proof (C6_freshness_window (envClockAt 1000) (js "телефон") noOptions
                  (λ t, eq_refl) (ex_intro _ _ eq_refl)) as [H _].
    apply (H PolicyA.initial eq_refl (λ t, eq_refl) (λ t, eq_refl) (λ t t', eq_refl)).
  - intros st1.
    pose proof (C6_freshness_window envOk (js "ноутбук") noOptions
                  (λ t, eq_refl) (ex_intro _ _ eq_refl)) as [_ H].
    assert (Hi : PolicyA.isInitialized (client st1) = true)
      by (vm_compute; reflexivity).
    assert (Hp : is_Some (PolicyA.page (client st1)))
      by (eexists; vm_compute; reflexivity).
    destruct (H st1 Hi Hp) as (_ & Hwithin & _).
    apply Hwithin; [intros t; reflexivity|vm_compute; reflexivity..].
Defined.

(** ** Policy A: an initialized controller holds a page *)

Section PolicyAReady.
Variable env : Env.
Implicit Types st : State PolicyA.Client.

(** An operation that begins with [init()] keeps [readyA] when the rest of
    it does so on an initialized controller. *)
Lemma readyA_after_init {A} (k : () → M PolicyA.Client A) st :
  (∀ st0, PolicyA.isInitialized (client st0) = true →
          is_Some (PolicyA.page (client st0)) →
          readyA (bind (PolicyA.init env) k st0).2) →
  readyA st →
  readyA (bind (PolicyA.init env) k st).2.
Proof.
  intros Hrest Hready.
  destruct (PolicyA.isInitialized (client st)) eqn:Hi; [by apply Hrest, Hready|].
  pose proof (initA_spec env st Hi) as (_ & _ & Hr).
  destruct (PolicyA.init env st) as [[[]|e] st0] eqn:Hinit; simpl in Hr.
  - destruct Hr as (Hi0 & Hp0 & _).
    rewrite (bind_init_restart env k st st0 Hinit Hi0). by apply Hrest.
  - unfold bind. rewrite Hinit. simpl. unfold readyA. by rewrite (proj2 Hr).
Qed.

Lemma searchA_ready query options st :
  readyA st → readyA (PolicyA.search env query options st).2.
Proof.
  apply (readyA_after_init (λ _, _)). intros st0 Hi Hp.
  pose proof (searchA_ready_spec env query options st0 Hi Hp) as [Hk _].
  eapply readyA_keeps; [exact Hk|]. by intros _.
Qed.

Lemma getProductDetailsA_ready productIdOrUrl st :
  readyA st → readyA (PolicyA.getProductDetails env productIdOrUrl st).2.
Proof. intros Hready. by apply (getProductDetailsA_spec env productIdOrUrl st). Qed.

Lemma getProductsListA_ready ids results st :
  readyA st → readyA (PolicyA.getProductsListFrom env ids results st).2.
Proof.
  revert results st. induction ids as [|id ids IH]; intros results st Hready; [done|].
  rewrite getProductsListA_cons. cbv zeta.
  pose proof (getProductDetailsA_ready id st Hready) as Hready1.
  destruct (PolicyA.page (client (PolicyA.getProductDetails env id st).2)); [|done].
  destruct (env_fail env _); [done|]. by apply IH.
Qed.

Lemma getCategoriesA_ready st :
  readyA st → readyA (PolicyA.getCategories env st).2.
Proof.
  apply (readyA_after_init (λ _, _)). intros [w c] Hi [p Hp]. simpl in Hi, Hp.
  change (bind (PolicyA.init env) _) with (PolicyA.getCategories env).
  assert (H : wp (PolicyA.getCategories env) {| world := w; client := c |}
                 (λ _ st', client st' = c)).
  { unfold PolicyA.getCategories. wp_focus. apply wp_initA_noop; [done|]. wp_simpl.
    wp_steps. rewrite Hp. wp_call ltac:(done).
    wp_steps. rewrite Hp. wp_call ltac:(done).
    wp_steps. rewrite Hp. by wp_call ltac:(done). }
  unfold wp in H. unfold readyA. rewrite H, Hp. by eexists.
Qed.

Lemma closeA_ready st : readyA st → readyA (PolicyA.close env st).2.
Proof.
  intros Hready. unfold PolicyA.close, bind, getClient, browserClose. simpl.
  destruct (PolicyA.browser (client st)); [|done].
  by destruct (env_fail env _).
Qed.

(** After any sequence of these operations on a controller of policy A
    that was just constructed, an initialized controller holds a page. *)
Lemma policyA_ready_invariant (ops : list OperationA) :
  readyA (foldl (afterA env) PolicyA.initial ops).
Proof.
  assert (H : ∀ st, readyA st → readyA (foldl (afterA env) st ops)).
  { induction ops as [|op ops IH]; intros st Hready; [done|].
    simpl. apply IH. destruct op; simpl.
    - by apply searchA_ready.
    - by apply getProductDetailsA_ready.
    - by apply getProductsListA_ready.
    - by apply getCategoriesA_ready.
    - by apply closeA_ready. }
  apply H. intros Hi. discriminate Hi.
Qed.
End PolicyAReady.

(** * Further properties of the code *)

(** ** The encoded query *)

Lemma hexDigit_unreserved n : n < 16 → uriUnreserved (hexDigit n) = true.
Proof.
  intros Hn. unfold hexDigit.
  assert (n = 0 ∨ n = 1 ∨ n = 2 ∨ n = 3 ∨ n = 4 ∨ n = 5 ∨ n = 6 ∨ n = 7 ∨ n = 8
          ∨ n = 9 ∨ n = 10 ∨ n = 11 ∨ n = 12 ∨ n = 13 ∨ n = 14 ∨ n = 15) as H by lia.
  repeat (destruct H as [->|H]; [by vm_compute|]). subst. by vm_compute.
Qed.

Lemma percentByte_safe b : b < 256 → Forall isUriSafe (percentByte b).
Proof.
  intros Hb. unfold percentByte. rewrite !Forall_cons. split_and!; [| | |done].
  - by right.
  - left. apply hexDigit_unreserved. apply N.Div0.div_lt_upper_bound. lia.
  - left. apply hexDigit_unreserved. apply N.mod_lt. lia.
Qed.

Lemma utf8Bytes_bytes cp : cp < 1114112 → Forall (λ b, b < 256) (utf8Bytes cp).
Proof.
  intros Hcp. unfold utf8Bytes.
  destruct (cp <? 128) eqn:H1; [apply N.ltb_lt in H1; rewrite !Forall_cons; split_and!; [lia|done]|].
  destruct (cp <? 2048) eqn:H2.
  { apply N.ltb_lt in H2. rewrite !Forall_cons; split_and!; [| |done].
    - assert (cp / 64 < 32) by (apply N.Div0.div_lt_upper_bound; lia). lia.
    - pose proof (N.mod_lt cp 64). lia. }
  destruct (cp <? 65536) eqn:H3.
  { apply N.ltb_lt in H3. rewrite !Forall_cons; split_and!; [| | |done].
    - assert (cp / 4096 < 16) by (apply N.Div0.div_lt_upper_bound; lia). lia.
    - pose proof (N.mod_lt (cp / 64) 64). lia.
    - pose proof (N.mod_lt cp 64). lia. }
  rewrite !Forall_cons; split_and!; [| | | |done].
  - assert (cp / 262144 < 16) by (apply N.Div0.div_lt_upper_bound; lia). lia.
  - pose proof (N.mod_lt (cp / 4096) 64). lia.
  - pose proof (N.mod_lt (cp / 64) 64). lia.
  - pose proof (N.mod_lt cp 64). lia.
Qed.

Lemma percentBytes_safe cp :
  cp < 1114112 → Forall isUriSafe (concat (percentByte <$> utf8Bytes cp)).
Proof.
  intros Hcp. apply Forall_concat, Forall_fmap.
  eapply Forall_impl; [by apply utf8Bytes_bytes|]. intros b Hb. by apply percentByte_safe.
Qed.

Lemma encodeURIComponent_safe_aux n s q :
  (length s ≤ n)%nat → codeUnits s → encodeURIComponent s = Some q → Forall isUriSafe q.
Proof.
  revert s q. induction n as [|n IH]; intros s q Hlen Hs.
  { destruct s; [|simpl in Hlen; lia]. by intros [= <-]. }
  destruct s as [|c s]; [by intros [= <-]|]. simpl in Hlen.
  apply Forall_cons in Hs as [Hc Hs]. simpl.
  destruct (uriUnreserved c) eqn:Hu.
  { destruct (encodeURIComponent s) as [q'|] eqn:Hq; [|done]. intros [= <-].
    constructor; [by left|]. apply (IH s); [lia|done..]. }
  destruct (isLowSurrogate c); [done|].
  destruct (isHighSurrogate c) eqn:Hh.
  - destruct s as [|d s]; [done|]. apply Forall_cons in Hs as [Hd Hs].
    destruct (isLowSurrogate d) eqn:Hl; [|done].
    destruct (encodeURIComponent s) as [q'|] eqn:Hq; [|done]. intros [= <-].
    apply Forall_app. split.
    + apply percentBytes_safe. unfold isHighSurrogate, isLowSurrogate in *.
      apply andb_true_iff in Hh as [Hh1 Hh2]. apply andb_true_iff in Hl as [Hl1 Hl2].
      apply N.leb_le in Hh1, Hh2, Hl1, Hl2. lia.
    + apply (IH s); [simpl in Hlen; lia|done..].
  - destruct (encodeURIComponent s) as [q'|] eqn:Hq; [|done]. intros [= <-].
    apply Forall_app. split.
    + apply percentBytes_safe. lia.
    + apply (IH s); [lia|done..].
Qed.

(** X1. The text parameter of the search URL cannot be broken by the
    query: what [encodeURIComponent] returns for a string of 16-bit code
    units is made of unreserved characters and percent signs only, so that
    none of [&], [=], [?], [#], [/], the space and [+] occurs in it. *)
Theorem X1_encoded_query_is_safe query q :
  codeUnits query →
  encodeURIComponent query = Some q →
  Forall isUriSafe q ∧ ∀ c, c ∈ js "&=?#/ +" → c ∉ q.
Proof.
  intros Hs Hq.
  assert (Hsafe : Forall isUriSafe q) by by eapply encodeURIComponent_safe_aux.
  split; [done|]. intros c Hc Hin.
  rewrite Forall_forall in Hsafe. specialize (Hsafe c Hin).
  change (js "&=?#/ +") with [38; 61; 63; 35; 47; 32; 43] in Hc.
  repeat (apply elem_of_cons in Hc as [->|Hc]; [by destruct Hsafe|]).
  by apply elem_of_nil in Hc.
Qed.

Lemma X1_encoded_query_is_safe_witness :
  ∃ q, encodeURIComponent (js "чехол & co=1") = Some q
       ∧ Forall isUriSafe q ∧ ∀ c, c ∈ js "&=?#/ +" → c ∉ q.
Proof.
  eexists. split; [vm_compute; reflexivity|].
  apply (X1_encoded_query_is_safe (js "чехол & co=1")); [|vm_compute; reflexivity].
  apply (bool_decide_unpack _). vm_compute. reflexivity.
Defined.

Lemma encodeURIComponent_noSurrogates s :
  noSurrogates s → is_Some (encodeURIComponent s).
Proof.
  induction 1 as [|c s [Hh Hl] _ IH]; simpl; [by eexists|].
  destruct IH as [q ->]. rewrite Hh, Hl. destruct (uriUnreserved c); by eexists.
Qed.

(** X2. A query without surrogate code units is always encoded: [search]
    then throws no [URIError], and in policy B the only errors left are the
    rejections of the calls to Playwright. *)
Theorem X2_query_without_surrogates env query options st :
  noSurrogates query →
  is_Some (encodeURIComponent query)
  ∧ match (PolicyB.search env query options st).1 with
    | Ret _ => True
    | Throw e => rejected env e
    end.
Proof.
  intros Hs. pose proof (encodeURIComponent_noSurrogates query Hs) as Hq.
  split; [done|].
  pose proof (searchB_outcome env query options st) as H. unfold wp in H.
  destruct (PolicyB.search env query options st).1 as [items|e]; [done|].
  destruct H as [H|[H _]]; [done|]. rewrite H in Hq. by destruct Hq.
Qed.

Lemma X2_query_without_surrogates_witness :
  is_Some (encodeURIComponent (js "телефон"))
  ∧ match (PolicyB.search envTimeoutB (js "телефон") noOptions PolicyB.initial).1 with
    | Ret _ => True
    | Throw e => rejected envTimeoutB e
    end.
Proof.
  apply (X2_query_without_surrogates envTimeoutB (js "телефон") noOptions PolicyB.initial).
  apply (bool_decide_unpack _). vm_compute. reflexivity.
Defined.

(** X3. A query with a lone surrogate makes [search] throw the
    [URIError] of [encodeURIComponent]: in policy B before anything else,
    so that no browser is started and no call is made; in policy A right
    after [init()], so that an initialized controller is left as it was. *)
Theorem X3_malformed_query env query options :
  encodeURIComponent query = None →
  (∀ st, PolicyB.search env query options st = (Throw (URIError (js "URI malformed")), st))
  ∧ (∀ st, PolicyA.isInitialized (client st) = true →
           PolicyA.search env query options st
           = (Throw (URIError (js "URI malformed")), st)).
Proof.
  intros Hq. split.
  - intros st. unfold PolicyB.search, encodeQuery, bind. by rewrite Hq.
  - intros st Hi. unfold PolicyA.search, encodeQuery.
    unfold bind at 1. rewrite (initA_noop env st Hi). unfold bind. by rewrite Hq.
Qed.

Lemma X3_malformed_query_witness :
  PolicyB.search envOk [55296] noOptions PolicyB.initial
  = (Throw (URIError (js "URI malformed")), PolicyB.initial).
Proof.
  apply (X3_malformed_query envOk [55296] noOptions). vm_compute. reflexivity.
Defined.

(** ** The search URL, the product URL and the pattern of ids *)

(** X4. Options that are falsy or neutral change nothing in the search
    URL: a price bound of 0 counts as no bound at all, and a page number of
    1 or less counts as no page number. *)
Theorem X4_searchUrl_neutral_options q s pg lo hi lim p :
  (p ≤ 1)%Z →
  searchUrl q {| sort := s; pageNum := Some p; priceMin := lo; priceMax := hi; limit := lim |}
  = searchUrl q {| sort := s; pageNum := None; priceMin := lo; priceMax := hi; limit := lim |}
  ∧ searchUrl q {| sort := s; pageNum := pg; priceMin := Some 0%Z; priceMax := hi; limit := lim |}
    = searchUrl q {| sort := s; pageNum := pg; priceMin := None; priceMax := hi; limit := lim |}
  ∧ searchUrl q {| sort := s; pageNum := pg; priceMin := lo; priceMax := Some 0%Z; limit := lim |}
    = searchUrl q {| sort := s; pageNum := pg; priceMin := lo; priceMax := None; limit := lim |}.
Proof.
  intros Hp. unfold searchUrl. simpl. split; [|done].
  assert ((1 <? p)%Z = false) as -> by by apply Z.ltb_ge. done.
Qed.

Lemma X4_searchUrl_neutral_options_witness :
  searchUrl (js "tv") {| sort := None; pageNum := Some 0%Z; priceMin := None;
                         priceMax := None; limit := None |}
  = searchUrl (js "tv") {| sort := None; pageNum := None; priceMin := None;
                           priceMax := None; limit := None |}.
Proof.
  apply (proj1 (X4_searchUrl_neutral_options (js "tv") None None None None None 0
                  ltac:(lia))).
Defined.

Lemma startsWith_app s p : startsWith (p ++ s) p = true.
Proof. apply startsWith_spec. by eexists. Qed.

Lemma product_prefix_http s :
  js "https://www.ozon.ru/product/" ++ s = js "http" ++ js "s://www.ozon.ru/product/" ++ s.
Proof. vm_compute. reflexivity. Qed.

(** X5. The URL that [getProductDetails] opens is absolute, and building
    it is idempotent: a URL that was built from an id is taken as it is
    when it is passed again. *)
Theorem X5_productUrlOf_idempotent productIdOrUrl :
  startsWith (productUrlOf productIdOrUrl) (js "http") = true
  ∧ productUrlOf (productUrlOf productIdOrUrl) = productUrlOf productIdOrUrl.
Proof.
  assert (H : startsWith (productUrlOf productIdOrUrl) (js "http") = true).
  { unfold productUrlOf. destruct (startsWith productIdOrUrl (js "http")) eqn:Hs;
      [exact Hs|].
    rewrite product_prefix_http. apply startsWith_app. }
  split; [done|]. unfold productUrlOf at 1. by rewrite H.
Qed.

Lemma takeWhile_dropWhile p s : takeWhile p s ++ dropWhile p s = s.
Proof. induction s as [|c s IH]; simpl; [done|]. destruct (p c); simpl; by f_equal. Qed.

Lemma takeWhile_Forall p s : Forall (λ c, p c = true) (takeWhile p s).
Proof.
  induction s as [|c s IH]; simpl; [done|]. destruct (p c) eqn:Hc; by constructor.
Qed.

Lemma dropWhile_head p s c r : dropWhile p s = c :: r → p c = false.
Proof.
  induction s as [|d s IH]; simpl; [done|].
  destruct (p d) eqn:Hd; [done|]. by intros [= -> _].
Qed.

(** The longest run at the head of [run ++ rest] is [run] when [rest] does
    not go on with it. *)
Lemma takeWhile_app_run p run rest :
  Forall (λ c, p c = true) run →
  match rest with c :: _ => p c = false | [] => True end →
  takeWhile p (run ++ rest) = run ∧ dropWhile p (run ++ rest) = rest.
Proof.
  intros Hrun Hrest. induction Hrun as [|c run Hc _ IH]; simpl.
  - destruct rest as [|c r]; [done|]. simpl. by rewrite Hrest.
  - rewrite Hc. destruct IH as [-> ->]. done.
Qed.

Lemma nonempty_spec s : nonempty s = true ↔ s ≠ [].
Proof. by destruct s. Qed.

Lemma takeWhile_isNumber s : nonempty (takeWhile is_digit s) = true → isNumber (takeWhile is_digit s).
Proof. intros H. split; [by apply nonempty_spec|apply takeWhile_Forall]. Qed.

Lemma hasDashDigit_cons c s :
  hasDashDigit (c :: s)
  ↔ (c = ch_minus ∧ nonempty (takeWhile is_digit s) = true) ∨ hasDashDigit s.
Proof.
  split.
  - intros ([|c' pre] & d & post & H & Hd); injection H as -> ->.
    + left. split; [done|]. simpl. by rewrite Hd.
    + right. by exists pre, d, post.
  - intros [[-> H]|(pre & d & post & -> & Hd)].
    + destruct s as [|d s]; [done|]. simpl in H.
      destruct (is_digit d) eqn:Hd; [|done]. by exists [], d, s.
    + by exists (c :: pre), d, post.
Qed.

Lemma hasDashDigit_nil : ¬ hasDashDigit [].
Proof. intros ([|? ?] & d & post & H & _); discriminate H. Qed.

Lemma matchDashDigits_step c s :
  matchDashDigits (c :: s)
  = if (c =? ch_minus) && nonempty (takeWhile is_digit s)
    then Some (takeWhile is_digit s) else matchDashDigits s.
Proof. done. Qed.

(** X6. The id that [getProductDetails] reads off the final URL is the
    leftmost run of digits that follows a [-], taken as long as it goes (so
    not the last one of the URL, when the slug has a number in it), and
    there is none exactly when no [-] is followed by a digit. *)
Theorem X6_matchDashDigits_leftmost url id :
  matchDashDigits url = Some id
  ↔ ∃ pre rest,
      url = pre ++ ch_minus :: id ++ rest
      ∧ isNumber id
      ∧ ¬ hasDashDigit pre
      ∧ match rest with c :: _ => is_digit c = false | [] => True end.
Proof.
  split.
  - revert id. induction url as [|c url IH]; intros id; [done|].
    rewrite matchDashDigits_step.
    destruct ((c =? ch_minus) && nonempty (takeWhile is_digit url)) eqn:Hc.
    + intros [= <-]. apply andb_true_iff in Hc as [Hc Hne]. apply N.eqb_eq in Hc as ->.
      exists [], (dropWhile is_digit url). split_and!.
      * simpl. by rewrite takeWhile_dropWhile.
      * by apply takeWhile_isNumber.
      * apply hasDashDigit_nil.
      * destruct (dropWhile is_digit url) as [|d r] eqn:Hd; [done|].
        by apply dropWhile_head in Hd.
    + intros H. destruct (IH id H) as (pre & rest & -> & Hid & Hpre & Hrest).
      exists (c :: pre), rest. split_and!; [done..| |done].
      rewrite hasDashDigit_cons. intros [[-> Hne]|Hh]; [|done].
      destruct pre as [|d pre].
      * simpl in Hc. simpl in Hne. done.
      * simpl in Hne. destruct (is_digit d) eqn:Hd; [|done].
        simpl in Hc. by rewrite Hd in Hc.
  - intros (pre & rest & -> & [Hne Hid] & Hpre & Hrest).
    induction pre as [|c pre IH].
    + simpl. destruct (takeWhile_app_run is_digit id rest Hid Hrest) as [-> _].
      apply nonempty_spec in Hne. by rewrite Hne.
    + rewrite hasDashDigit_cons in Hpre. change ((c :: pre) ++ ?x) with (c :: pre ++ x).
      rewrite matchDashDigits_step.
      destruct ((c =? ch_minus) && nonempty (takeWhile is_digit (pre ++ ch_minus :: id ++ rest)))
        eqn:Hc.
      * exfalso. apply andb_true_iff in Hc as [Hc Hn]. apply N.eqb_eq in Hc as ->.
        apply Hpre. left. split; [done|].
        destruct pre as [|d pre]; [done|]. simpl in Hn |- *.
        by destruct (is_digit d).
      * apply IH. intros Hh. apply Hpre. by right.
Qed.

Lemma matchDashDigits_none url : matchDashDigits url = None ↔ ¬ hasDashDigit url.
Proof.
  rewrite hasDashDigit_match. split.
  - intros -> [? ?]. done.
  - intros H. destruct (matchDashDigits url); [|done]. destruct H. by eexists.
Qed.

Lemma hasDashDigit_app a b :
  ¬ hasDashDigit a → ¬ hasDashDigit b →
  last a ≠ Some ch_minus ∨ startsWithDigit b = false →
  ¬ hasDashDigit (a ++ b).
Proof.
  intros Ha Hb Hab. induction a as [|c a IH]; [done|].
  change ((c :: a) ++ b) with (c :: a ++ b).
  rewrite hasDashDigit_cons in Ha |- *. intros [[-> Hn]|Hh].
  - destruct a as [|d a].
    + simpl in Hn. destruct Hab as [Hab|Hab]; [done|].
      destruct b as [|d b]; [done|]. simpl in Hab, Hn. by rewrite Hab in Hn.
    + apply Ha. left. split; [done|]. simpl in Hn |- *. by destruct (is_digit d).
  - revert Hh. apply IH.
    + intros Hh. apply Ha. by right.
    + destruct Hab as [Hab|Hab]; [|by right]. left.
      destruct a as [|d a]; [done|]. exact Hab.
Qed.

(** X7. The id does not make the round trip through the URL: the URL
    that [getProductDetails] builds from an id in which no [-] is followed
    by a digit (an id made of digits, say) does not match the pattern of
    ids, so that the product gets the id [null] when the browser ends on the
    URL that was asked for. *)
Theorem X7_bare_id_url_has_no_id product productIdOrUrl :
  ¬ hasDashDigit productIdOrUrl →
  productId (withIdAndUrl product (productUrlOf productIdOrUrl)) = None.
Proof.
  intros Hid. simpl. apply matchDashDigits_none. unfold productUrlOf.
  destruct (startsWith productIdOrUrl (js "http")); [done|].
  apply hasDashDigit_app.
  - apply matchDashDigits_none. by vm_compute.
  - apply hasDashDigit_app; [done| |by right].
    apply matchDashDigits_none. by vm_compute.
  - left. by vm_compute.
Qed.

Lemma X7_bare_id_url_has_no_id_witness :
  productId (withIdAndUrl (scrapeProduct exampleDocument) (productUrlOf (js "123456")))
  = None.
Proof.
  apply (X7_bare_id_url_has_no_id (scrapeProduct exampleDocument) (js "123456")).
  apply matchDashDigits_none. vm_compute. reflexivity.
Defined.

(** ** The items of a search result and the id of a product *)

Lemma matchLinkId_isNumber h id : matchLinkId h = Some id → isNumber id.
Proof.
  induction h as [|c h IH]; simpl; [done|].
  destruct (_ && _) eqn:Hc; [|done]. intros [= <-].
  apply andb_true_iff in Hc as [Hc _]. apply andb_true_iff in Hc as [_ Hc].
  by apply takeWhile_isNumber.
Qed.

Lemma lastDashDigits_isNumber s id : lastDashDigits s = Some id → isNumber id.
Proof.
  induction s as [|c s IH]; simpl; [done|].
  destruct (lastDashDigits s) as [r|]; [intros [= <-]; by apply IH|].
  destruct (_ && _) eqn:Hc; [|done]. intros [= <-].
  apply andb_true_iff in Hc as [_ Hc]. by apply takeWhile_isNumber.
Qed.

Lemma hasDashDigit_app_l a b : hasDashDigit a → hasDashDigit (a ++ b).
Proof.
  intros (pre & d & post & -> & Hd). exists pre, d, (post ++ b).
  split; [|done]. by rewrite <- app_assoc.
Qed.

Lemma hasDashDigit_app_r a b : hasDashDigit b → hasDashDigit (a ++ b).
Proof.
  intros (pre & d & post & -> & Hd). exists (a ++ pre), d, post.
  split; [|done]. by rewrite <- app_assoc.
Qed.

Lemma lastDashDigits_hasDashDigit s id : lastDashDigits s = Some id → hasDashDigit s.
Proof.
  revert id. induction s as [|c s IH]; intros id; [done|].
  cbn [lastDashDigits]. rewrite hasDashDigit_cons.
  destruct (lastDashDigits s) as [r|]; [intros _; right; by eapply IH|].
  destruct ((c =? ch_minus) && nonempty (takeWhile is_digit s)) eqn:Hc; [|done].
  intros _. left. apply andb_true_iff in Hc as [Hc Hn]. by apply N.eqb_eq in Hc.
Qed.

Lemma matchCardId_hasDashDigit h id : matchCardId h = Some id → hasDashDigit h.
Proof.
  induction h as [|c h IH]; [done|].
  cbn [matchCardId].
  assert (Hrest : matchCardId h = Some id → hasDashDigit (c :: h)).
  { intros H. apply (hasDashDigit_app_r [c]). by apply IH. }
  destruct (startsWith (c :: h) (js "/product/")); [|exact Hrest].
  destruct (takeWhile _ (drop 9 (c :: h))) as [|x seg] eqn:Hseg; [exact Hrest|].
  destruct (lastDashDigits seg) as [r|] eqn:Hr; [|exact Hrest].
  intros _. rewrite <- (take_drop 9 (c :: h)). apply hasDashDigit_app_r.
  rewrite <- (takeWhile_dropWhile (λ c, negb (c =? ch_slash)) (drop 9 (c :: h))), Hseg.
  apply hasDashDigit_app_l. apply (hasDashDigit_app_r [x]).
  by eapply lastDashDigits_hasDashDigit.
Qed.

Lemma matchCardId_isNumber h id : matchCardId h = Some id → isNumber id.
Proof.
  induction h as [|c h IH]; [done|].
  cbn [matchCardId].
  destruct (startsWith (c :: h) (js "/product/")).
  - destruct (takeWhile _ (drop 9 (c :: h))) as [|x seg]; [exact IH|].
    destruct (lastDashDigits seg) as [r|] eqn:Hr; [|exact IH].
    intros [= <-]. by eapply lastDashDigits_isNumber.
  - exact IH.
Qed.

Lemma orString_nonempty a b : b ≠ [] → orString a b ≠ [].
Proof. intros Hb. unfold orString. by destruct a. Qed.

Section LoopInvariant.
Context {X : Type} (step : gset jsstring → X → gset jsstring * Turn).
Variable P : Item → Prop.
Hypothesis step_ok : ∀ seen x seen' it, step seen x = (seen', Push it) → P it.

Lemma loopWith_Forall n xs items seen :
  Forall P items → Forall P (loopWith step n xs items seen).
Proof.
  revert items seen. induction xs as [|x xs IH]; intros items seen Hitems; simpl; [done|].
  destruct (n <=? _); [done|].
  destruct (step seen x) as [seen' [|it|]] eqn:Hstep; apply IH; try done.
  apply Forall_app. split; [done|]. constructor; [|done]. by eapply step_ok.
Qed.
End LoopInvariant.

Lemma startsWith_slash h : startsWith h (js "/") = true → ∃ post, h = 47 :: post.
Proof. intros H. apply startsWith_spec in H as [post ->]. by eexists. Qed.

Lemma origin_slash s : origin ++ js "/" ++ s = js "https://www.ozon.ru/" ++ s.
Proof. vm_compute. reflexivity. Qed.

Lemma origin_slash_cons s : origin ++ 47 :: s = js "https://www.ozon.ru/" ++ s.
Proof. vm_compute. reflexivity. Qed.

Lemma beforeQuery_slash s : beforeQuery (47 :: s) = 47 :: beforeQuery s.
Proof. done. Qed.

Lemma Push_inj (seen seen' : gset jsstring) it it' :
  (seen, Push it) = (seen', Push it') → it = it'.
Proof. by intros [= _ ->]. Qed.

Lemma orNull_nonempty o : orNull o ≠ Some [].
Proof. by destruct o as [[|? ?]|]. Qed.

Lemma digit_value d : is_digit d = true → d - 48 ≤ 9.
Proof.
  unfold is_digit. intros H. apply andb_true_iff in H as [H1 H2].
  apply N.leb_le in H1, H2. lia.
Qed.

Lemma matchRating_bounds marks s r :
  matchRating marks s = Some r → units r ≤ 9 ∧ tenths r ≤ 9.
Proof.
  induction s as [|d1 s IH]; [done|].
  destruct s as [|sep [|d2 rest]]; [done..|].
  cbn [matchRating].
  destruct (is_digit d1 && _ && is_digit d2 && _) eqn:Hc; [|exact IH].
  intros [= <-]. apply andb_true_iff in Hc as [Hc _].
  apply andb_true_iff in Hc as [Hc Hd2]. apply andb_true_iff in Hc as [Hd1 _].
  split; by apply digit_value.
Qed.

Lemma rating_ok marks text :
  match matchRating marks text with
  | Some r => units r ≤ 9 ∧ tenths r ≤ 9
  | None => True
  end.
Proof.
  destruct (matchRating marks text) as [r|] eqn:Hr; [|done].
  by eapply matchRating_bounds.
Qed.

Lemma findNameB_spec lines :
  PolicyB.findName lines = []
  ∨ (15 < length (PolicyB.findName lines) < 300)%nat
    ∧ includes (PolicyB.findName lines) ruble = false.
Proof.
  induction lines as [|line lines IH]; [by left|].
  cbn [PolicyB.findName]. cbv zeta.
  destruct (_ && _) eqn:Hc; [|exact IH]. right.
  apply andb_true_iff in Hc as [Hc Hlt]. apply andb_true_iff in Hc as [Hc Hgt].
  apply andb_true_iff in Hc as [Hc _]. apply andb_true_iff in Hc as [_ Hr].
  apply bool_decide_eq_true_1 in Hlt, Hgt. apply negb_true_iff in Hr. done.
Qed.

Lemma findNameA_spec lines :
  PolicyA.findName lines = []
  ∨ (10 < length (PolicyA.findName lines))%nat
    ∧ includes (PolicyA.findName lines) ruble = false.
Proof.
  induction lines as [|line lines IH]; [by left|].
  cbn [PolicyA.findName]. cbv zeta.
  destruct (_ && _) eqn:Hc; [|exact IH]. right.
  apply andb_true_iff in Hc as [Hc Hgt]. apply andb_true_iff in Hc as [Hc _].
  apply andb_true_iff in Hc as [Hc _]. apply andb_true_iff in Hc as [_ Hr].
  apply bool_decide_eq_true_1 in Hgt. apply negb_true_iff in Hr. done.
Qed.

Lemma orString_cases a b : a = [] ∧ orString a b = b ∨ a ≠ [] ∧ orString a b = a.
Proof. destruct a; [by left|by right]. Qed.

Lemma extractLinkB_ok doc seen link seen' it :
  PolicyB.extractLink doc seen link = (seen', Push it) → itemOkB it.
Proof.
  unfold PolicyB.extractLink.
  destruct (orNull (href link)) as [h|]; [|done].
  destruct (orNull (matchLinkId h)) as [id|] eqn:Hid; [|done].
  destruct (bool_decide (id ∈ seen)); [done|].
  destruct (PolicyB.container link) as [c|]; [|done].
  intros Hit. apply Push_inj in Hit. subst it. unfold itemOkB, itemOk.
  cbn [itemId itemUrl itemName price priceFormatted image rating]. split_and!.
  - apply (matchLinkId_isNumber h). destruct (matchLinkId h) as [[|? ?]|]; naive_solver.
  - destruct (startsWith h (js "/")) eqn:Hs.
    + apply startsWith_slash in Hs as [post ->].
      rewrite beforeQuery_slash, app_nil_l, origin_slash_cons. apply startsWith_app.
    + rewrite origin_slash. apply startsWith_app.
  - apply orString_nonempty. done.
  - apply orNull_nonempty.
  - apply rating_ok.
  - rewrite !elem_of_app. intros [H|[H|H]].
    + revert H. apply (bool_decide_unpack _). by vm_compute.
    + destruct (startsWith h (js "/")); [by apply elem_of_nil in H|].
      revert H. apply (bool_decide_unpack _). by vm_compute.
    + pose proof (takeWhile_Forall (λ c, negb (c =? ch_question)) h) as Hf.
      rewrite Forall_forall in Hf. specialize (Hf _ H). by rewrite N.eqb_refl in Hf.
  - destruct (orString_cases (PolicyB.findName (textLines (default [] (innerText c))))
                (js "Product " ++ id)) as [[_ ->]|[Hne ->]]; [by left|right].
    by destruct (findNameB_spec (textLines (default [] (innerText c)))).
  - destruct (PolicyB.findPrice _) as [[|n]|]; simpl; intuition congruence.
Qed.

Lemma extractCardA_ok doc seen card seen' it :
  PolicyA.extractCard doc seen card = (seen', Push it) → itemOkA it.
Proof.
  unfold PolicyA.extractCard.
  destruct (PolicyA.linkOf card) as [link|]; [|done].
  destruct (orNull (href link)) as [h|]; [|done].
  destruct (includes h (js "/product/")) eqn:Hinc; [|done]. cbn [negb].
  destruct (orNull (matchCardId h)) as [id|] eqn:Hid; [|done].
  destruct (bool_decide (id ∈ seen)); [done|].
  destruct (PolicyA.textOf link) as [text|]; [|done].
  destruct (PolicyA.findPrice _). intros Hit. apply Push_inj in Hit. subst it.
  unfold itemOkA, itemOk.
  cbn [itemId itemUrl itemName price priceFormatted image rating]. split_and!.
  - apply (matchCardId_isNumber h). destruct (matchCardId h) as [[|? ?]|]; naive_solver.
  - destruct (startsWith h (js "/")) eqn:Hs.
    + apply startsWith_slash in Hs as [post ->]. rewrite origin_slash_cons.
      apply startsWith_app.
    + rewrite origin_slash. apply startsWith_app.
  - by apply orString_nonempty.
  - apply orNull_nonempty.
  - apply rating_ok.
  - apply includes_spec in Hinc as (pre & post & ->). apply includes_spec.
    destruct (startsWith _ (js "/")).
    + exists (origin ++ pre), post. by rewrite <- !app_assoc.
    + exists (origin ++ js "/" ++ pre), post. by rewrite <- !app_assoc.
  - assert (Hh : hasDashDigit h).
    { apply (matchCardId_hasDashDigit h id).
      destruct (matchCardId h) as [[|? ?]|]; naive_solver. }
    destruct (startsWith h (js "/")); [by apply hasDashDigit_app_r|].
    by apply hasDashDigit_app_r, hasDashDigit_app_r.
  - destruct (orString_cases (PolicyA.findName (textLines text)) (js "Unknown"))
      as [[_ ->]|[Hne ->]]; [by left|right].
    by destruct (findNameA_spec (textLines text)).
Qed.

Lemma extractProductsB_ok n doc : Forall itemOkB (PolicyB.extractProducts n doc).
Proof.
  unfold PolicyB.extractProducts. rewrite extractLoopB_loopWith.
  apply loopWith_Forall; [|done]. intros seen x seen' it. apply extractLinkB_ok.
Qed.

Lemma extractProductsA_ok n doc : Forall itemOkA (PolicyA.extractProducts n doc).
Proof.
  unfold PolicyA.extractProducts. rewrite extractLoopA_loopWith.
  apply loopWith_Forall; [|done]. apply extractCardA_ok.
Qed.

(** X8. Every item that [search] of policy B returns has a number as its
    id, a URL on the site without a query string, a name that is a line
    of 16 to 299 code units without the ruble sign or else [Product]
    followed by the id, an image that is [null] or not empty, a rating
    between 0.0 and 9.9 if it has one, and a printed price exactly when it
    has a price that is not zero. *)
Theorem X8_searchB_items env query options st items st' :
  PolicyB.search env query options st = (Ret items, st') →
  Forall itemOkB items.
Proof.
  intros Hrun. pose proof (searchB_outcome env query options st) as H.
  unfold wp in H. rewrite Hrun in H. simpl in H.
  destruct H as [[-> _]|(tc & td & _ & ->)]; [done|]. apply extractProductsB_ok.
Qed.

Lemma X8_searchB_items_witness :
  ∃ items st',
    PolicyB.search envOk (js "телефон") noOptions PolicyB.initial = (Ret items, st')
    ∧ Forall itemOkB items.
Proof.
  eexists _, _. split; [vm_compute; reflexivity|].
  eapply (X8_searchB_items envOk (js "телефон") noOptions PolicyB.initial).
  vm_compute. reflexivity.
Defined.

(** X9. Every item that [search] of policy A returns has a number as its
    id, the URL of a product on the site, which matches the pattern of ids
    that [getProductDetails] applies, a name that is a line of more than
    10 code units without the ruble sign or else [Unknown], an image that
    is [null] or not empty, and a rating between 0.0 and 9.9 if it has
    one. *)
Theorem X9_searchA_items env query options st items st' :
  readyA st →
  PolicyA.search env query options st = (Ret items, st') →
  Forall itemOkA items.
Proof.
  intros Hready Hrun. pose proof (searchA_spec env query options st Hready) as H.
  unfold wp in H. rewrite Hrun in H. simpl in H.
  destruct H as (td & ->). apply extractProductsA_ok.
Qed.

Lemma X9_searchA_items_witness :
  ∃ items st',
    PolicyA.search envOk (js "телефон") noOptions PolicyA.initial = (Ret items, st')
    ∧ Forall itemOkA items.
Proof.
  eexists _, _. split; [vm_compute; reflexivity|].
  eapply (X9_searchA_items envOk (js "телефон") noOptions PolicyA.initial).
  - intros Hi. discriminate Hi.
  - vm_compute. reflexivity.
Defined.

Lemma matchDashDigits_isNumber url id : matchDashDigits url = Some id → isNumber id.
Proof.
  induction url as [|c url IH]; simpl; [done|].
  destruct (_ && _) eqn:Hc; [|done]. intros [= <-].
  apply andb_true_iff in Hc as [_ Hc]. by apply takeWhile_isNumber.
Qed.

Lemma withIdAndUrl_ok p currentUrl : productIdOk (withIdAndUrl p currentUrl).
Proof.
  unfold productIdOk. simpl.
  destruct (matchDashDigits currentUrl) as [id|] eqn:Hid.
  - split; [by eapply matchDashDigits_isNumber|].
    apply hasDashDigit_match. by eexists.
  - rewrite hasDashDigit_match, Hid. by intros [? ?].
Qed.

(** X10. In both policies the product that [getProductDetails] returns
    has a number as its id when a [-] of its URL is followed by a digit,
    and the id [null] otherwise; in policy A it also has a title, which is
    not empty and is not the title of the page of restricted access. *)
Theorem X10_product_id_and_title env productIdOrUrl :
  (∀ st product st',
     PolicyB.getProductDetails env productIdOrUrl st = (Ret product, st') →
     productIdOk product)
  ∧ (∀ st product st',
       readyA st →
       PolicyA.getProductDetails env productIdOrUrl st = (Ret product, st') →
       productIdOk product
       ∧ ∃ t, title product = Some t ∧ t ≠ [] ∧ t ≠ js "Доступ ограничен").
Proof.
  split.
  - intros st product st' Hrun.
    pose proof (getProductDetailsB_outcome env productIdOrUrl st) as H.
    unfold wp in H. rewrite Hrun in H. simpl in H.
    destruct H as (_ & tu & td & tc & -> & _). apply withIdAndUrl_ok.
  - intros st product st' Hready Hrun.
    pose proof (getProductDetailsA_spec env productIdOrUrl st Hready) as H.
    unfold wp in H. rewrite Hrun in H. simpl in H.
    destruct H as (_ & _ & _ & tu & td & tc & -> & _ & Ht1 & Ht2).
    split; [apply withIdAndUrl_ok|].
    destruct (title _) as [t|]; [|done]. exists t. split; [done|]. split.
    + intros ->. done.
    + intros ->. done.
Qed.

Lemma X10_product_id_and_title_witness :
  ∃ product st',
    PolicyA.getProductDetails envOk (js "123456") PolicyA.initial = (Ret product, st')
    ∧ productIdOk product
    ∧ ∃ t, title product = Some t ∧ t ≠ [] ∧ t ≠ js "Доступ ограничен".
Proof.
  eexists _, _. split; [vm_compute; reflexivity|].
  eapply (proj2 (X10_product_id_and_title envOk (js "123456")) PolicyA.initial).
  - intros Hi. discriminate Hi.
  - vm_compute. reflexivity.
Defined.

(** ** The bounds of the calls *)

(** The bounds of one call, and one call more on a trace within the
    bounds. *)
Ltac event_ok :=
  cbn [eventOk];
  repeat match goal with
         | |- context [?a mod ?k] =>
           let H := fresh in
           assert (H : a mod k < k) by (apply N.mod_lt; lia);
           revert H; generalize (a mod k); intros ? ?
         end;
  first [done | lia].

Ltac trace_ok :=
  unfold boundedTrace in *; wp_simpl;
  repeat (apply Forall_cons; split; [event_ok|]); assumption.

(** A proof that an operation keeps the bounds runs through it call by
    call; [known] applies what has been proved of the operations that it
    calls. *)
Ltac bounds_with known :=
  repeat first
    [ progress wp_steps
    | wp_focus;
      lazymatch goal with
      | |- wp (deref ?o) _ _ => apply wp_deref; destruct o; wp_simpl
      | |- wp (call _ _ _) _ _ =>
        apply wp_call; wp_simpl;
        lazymatch goal with |- match ?x with _ => _ end => destruct x end; wp_simpl
      | |- wp (launch _) _ _ =>
        apply wp_launch; wp_simpl;
        lazymatch goal with |- match ?x with _ => _ end => destruct x end; wp_simpl
      | |- wp (browserClose _ _) _ _ =>
        apply wp_browserClose; intros ? [->|[? ->]]; wp_simpl
      | |- wp (if ?b then _ else _) _ _ => destruct b
      | |- wp (let '(_, _) := ?a in _) _ _ => destruct a
      | |- wp (match ?o with Some _ => _ | None => _ end) _ _ => destruct o
      | |- wp _ _ _ =>
        eapply wp_mono; [known; trace_ok|]; intros [?|?] ? ?; wp_simpl
      end
    | trace_ok ].

Ltac bounds := bounds_with ltac:(fail).

Section Bounds.
Variable env : Env.

Lemma closeB_bounds (st : State PolicyB.Client) :
  boundedTrace st → wp (PolicyB.close env) st (λ _ st', boundedTrace st').
Proof. intros H. unfold PolicyB.close. bounds. Qed.

Lemma createBrowserB_bounds (st : State PolicyB.Client) :
  boundedTrace st → wp (PolicyB.createBrowser env) st (λ _ st', boundedTrace st').
Proof.
  intros H. unfold PolicyB.createBrowser. bounds_with ltac:(apply closeB_bounds).
Qed.

Lemma loadPageB_bounds url waitTime (st : State PolicyB.Client) :
  100 ≤ waitTime ≤ 15000 →
  boundedTrace st → wp (PolicyB.loadPage env url waitTime) st (λ _ st', boundedTrace st').
Proof.
  intros Hw H. unfold PolicyB.loadPage. bounds_with ltac:(apply createBrowserB_bounds).
Qed.

Ltac knownB :=
  first [ apply closeB_bounds | apply loadPageB_bounds; [lia|] ].

Lemma searchB_bounds query options (st : State PolicyB.Client) :
  boundedTrace st → wp (PolicyB.search env query options) st (λ _ st', boundedTrace st').
Proof.
  intros H. unfold PolicyB.search, encodeQuery.
  destruct (encodeURIComponent query); bounds_with knownB.
Qed.

Lemma getProductDetailsB_bounds productIdOrUrl (st : State PolicyB.Client) :
  boundedTrace st →
  wp (PolicyB.getProductDetails env productIdOrUrl) st (λ _ st', boundedTrace st').
Proof. intros H. unfold PolicyB.getProductDetails. bounds_with knownB. Qed.

Lemma getCategoriesB_bounds (st : State PolicyB.Client) :
  boundedTrace st → wp (PolicyB.getCategories env) st (λ _ st', boundedTrace st').
Proof. intros H. unfold PolicyB.getCategories. bounds_with knownB. Qed.

Lemma getProductsListB_bounds ids results (st : State PolicyB.Client) :
  boundedTrace st →
  wp (PolicyB.getProductsListFrom env ids results) st (λ _ st', boundedTrace st').
Proof.
  revert results st. induction ids as [|id ids IH]; intros results st H.
  - simpl. bounds.
  - cbn [PolicyB.getProductsListFrom].
    bounds_with ltac:(first [apply getProductDetailsB_bounds | apply IH]).
Qed.

Lemma moveOnceA_bounds (st : State PolicyA.Client) :
  boundedTrace st → wp (PolicyA.moveOnce env) st (λ _ st', boundedTrace st').
Proof. intros H. unfold PolicyA.moveOnce. bounds. Qed.

Lemma simulateHumanBehaviorA_bounds (st : State PolicyA.Client) :
  boundedTrace st → wp (PolicyA.simulateHumanBehavior env) st (λ _ st', boundedTrace st').
Proof.
  intros H. unfold PolicyA.simulateHumanBehavior.
  bounds_with ltac:(apply moveOnceA_bounds).
Qed.

Lemma visitHomepageA_bounds force (st : State PolicyA.Client) :
  boundedTrace st → wp (PolicyA.visitHomepage env force) st (λ _ st', boundedTrace st').
Proof.
  intros H. unfold PolicyA.visitHomepage.
  bounds_with ltac:(apply simulateHumanBehaviorA_bounds).
Qed.

Lemma initA_bounds (st : State PolicyA.Client) :
  boundedTrace st → wp (PolicyA.init env) st (λ _ st', boundedTrace st').
Proof.
  intros H. unfold PolicyA.init. bounds_with ltac:(apply visitHomepageA_bounds).
Qed.

Lemma closeA_bounds (st : State PolicyA.Client) :
  boundedTrace st → wp (PolicyA.close env) st (λ _ st', boundedTrace st').
Proof. intros H. unfold PolicyA.close. bounds. Qed.

Lemma hasCaptchaA_bounds (st : State PolicyA.Client) :
  boundedTrace st → wp (PolicyA.hasCaptcha env) st (λ _ st', boundedTrace st').
Proof. intros H. unfold PolicyA.hasCaptcha. bounds. Qed.

Ltac knownA :=
  first [ apply initA_bounds | apply visitHomepageA_bounds
        | apply simulateHumanBehaviorA_bounds | apply hasCaptchaA_bounds ].

Lemma searchA_bounds query options (st : State PolicyA.Client) :
  boundedTrace st → wp (PolicyA.search env query options) st (λ _ st', boundedTrace st').
Proof.
  intros H. unfold PolicyA.search, encodeQuery.
  destruct (encodeURIComponent query); bounds_with knownA.
Qed.

Lemma getProductDetailsA_bounds productIdOrUrl (st : State PolicyA.Client) :
  boundedTrace st →
  wp (PolicyA.getProductDetails env productIdOrUrl) st (λ _ st', boundedTrace st').
Proof. intros H. unfold PolicyA.getProductDetails. bounds_with knownA. Qed.

Lemma getCategoriesA_bounds (st : State PolicyA.Client) :
  boundedTrace st → wp (PolicyA.getCategories env) st (λ _ st', boundedTrace st').
Proof. intros H. unfold PolicyA.getCategories. bounds_with knownA. Qed.

Lemma getFiltersA_bounds query (st : State PolicyA.Client) :
  boundedTrace st → wp (PolicyAFilters.getFilters env query) st (λ _ st', boundedTrace st').
Proof.
  intros H. unfold PolicyAFilters.getFilters, PolicyAFilters.filtersUrl, encodeQuery.
  destruct (startsWith query (js "http")); [|destruct (encodeURIComponent query)];
    bounds_with knownA.
Qed.

Lemma getProductsListA_bounds ids results (st : State PolicyA.Client) :
  boundedTrace st →
  wp (PolicyA.getProductsListFrom env ids results) st (λ _ st', boundedTrace st').
Proof.
  revert results st. induction ids as [|id ids IH]; intros results st H.
  - simpl. bounds.
  - cbn [PolicyA.getProductsListFrom].
    bounds_with ltac:(first [apply getProductDetailsA_bounds | apply IH]).
Qed.

(** X11. Whatever sequence of operations a controller of either policy
    has run, and whatever the environment answered, every navigation it
    asked for had the timeout of 90 s, every wait it asked for lasted
    between 100 ms and 15 s, and, in policy A, every pointer move went to a
    point inside the viewport and every scroll went down by 100 to 399;
    [getFilters] of policy A keeps these bounds as well. *)
Theorem X11_calls_within_bounds :
  (∀ ops, boundedTrace (foldl (afterB env) PolicyB.initial ops))
  ∧ (∀ ops, boundedTrace (foldl (afterA env) PolicyA.initial ops))
  ∧ (∀ st query, boundedTrace st →
                 boundedTrace (PolicyAFilters.getFilters env query st).2).
Proof.
  split_and!.
  - intros ops.
    assert (H : ∀ st, boundedTrace st → boundedTrace (foldl (afterB env) st ops)).
    { induction ops as [|op ops IH]; intros st Hst; [done|].
      simpl. apply IH. destruct op; simpl; [| | |done|done| |].
      - by apply (searchB_bounds query options st).
      - by apply (getProductDetailsB_bounds productIdOrUrl st).
      - by apply (getProductsListB_bounds productIds [] st).
      - by apply (getCategoriesB_bounds st).
      - by apply (closeB_bounds st). }
    apply H. constructor.
  - intros ops.
    assert (H : ∀ st, boundedTrace st → boundedTrace (foldl (afterA env) st ops)).
    { induction ops as [|op ops IH]; intros st Hst; [done|].
      simpl. apply IH. destruct op; simpl.
      - by apply (searchA_bounds query options st).
      - by apply (getProductDetailsA_bounds productIdOrUrl st).
      - by apply (getProductsListA_bounds productIds [] st).
      - by apply (getCategoriesA_bounds st).
      - by apply (closeA_bounds st). }
    apply H. constructor.
  - intros st query Hst. by apply (getFiltersA_bounds query st).
Qed.
End Bounds.

Lemma X11_calls_within_bounds_witness :
  boundedTrace (PolicyAFilters.getFilters envOk (js "телефон") PolicyA.initial).2.
Proof.
  apply (proj2 (proj2 (X11_calls_within_bounds envOk)) PolicyA.initial (js "телефон")).
  constructor.
Defined.

(** ** Starting and closing browsers *)

Section CreateBrowser.
Variable env : Env.

Lemma createBrowserB_exact (st : State PolicyB.Client) :
  ownedB st →
  wp (PolicyB.createBrowser env) st
     (λ r st',
        match r with
        | Ret p =>
          live (world st') = [p]
          ∧ client st' = {| PolicyB.browser := Some p; PolicyB.context := Some p;
                            PolicyB.page := Some p |}
        | Throw e => rejected env e ∧ (alive st' ≤ 1)%nat ∧ ownedB st'
        end).
Proof.
  intros Hown. unfold PolicyB.createBrowser.
  wp_use closeB_spec; [done|]. intros r [w1 c1] [-> [Hl Hc]]. simpl in Hl, Hc. subst c1.
  assert (Hleaf : ∀ (w : World) c msg t,
            env_fail env t = Some msg →
            (live w = [] ∧ c = PolicyB.constructor
             ∨ ∃ b, live w = [b] ∧ PolicyB.browser c = Some b) →
            rejected env (PlaywrightError msg)
            ∧ (alive {| world := w; client := c |} ≤ 1)%nat
            ∧ ownedB {| world := w; client := c |}).
  { intros w c msg t Hf Hw. split; [by eexists _, _|]. unfold alive, ownedB. simpl.
    destruct Hw as [[-> ->]|(b & -> & Hb)]; simpl.
    - split; [lia|]. split; [intros b Hb; by apply elem_of_nil in Hb|done].
    - split; [lia|]. split; [|by rewrite Hb].
      intros b' Hb'. apply list_elem_of_singleton in Hb'. by subst. }
  wp_call ltac:(eapply Hleaf; [eassumption|left; by simpl]).
  wp_call ltac:(eapply Hleaf; [eassumption|right; simpl; rewrite Hl; by eexists]).
  wp_call ltac:(eapply Hleaf; [eassumption|right; simpl; rewrite Hl; by eexists]).
  wp_steps. by rewrite Hl.
Qed.

(** X12. [createBrowser()] of policy B closes the browser that the
    controller holds before it starts a new one: when it returns, the new
    browser is the only one running and the controller holds it, its
    context and its page; when it throws, a call to Playwright rejected and
    at most one browser is running. *)
Theorem X12_createBrowser_single_browser (st : State PolicyB.Client) :
  ownedB st →
  match PolicyB.createBrowser env st with
  | (Ret p, st') =>
    live (world st') = [p]
    ∧ client st' = {| PolicyB.browser := Some p; PolicyB.context := Some p;
                      PolicyB.page := Some p |}
  | (Throw e, st') => rejected env e ∧ (alive st' ≤ 1)%nat ∧ ownedB st'
  end.
Proof.
  intros Hown. pose proof (createBrowserB_exact st Hown) as H. unfold wp in H.
  by destruct (PolicyB.createBrowser env st) as [[p|e] st'].
Qed.
End CreateBrowser.

Lemma X12_createBrowser_single_browser_witness :
  match PolicyB.createBrowser envOk
          (PolicyB.createBrowser envOk PolicyB.initial).2 with
  | (Ret p, st') =>
    live (world st') = [p]
    ∧ client st' = {| PolicyB.browser := Some p; PolicyB.context := Some p;
                      PolicyB.page := Some p |}
  | (Throw e, st') => rejected envOk e ∧ (alive st' ≤ 1)%nat ∧ ownedB st'
  end.
Proof.
  apply (X12_createBrowser_single_browser envOk).
  split; simpl.
  - intros b Hb. apply list_elem_of_singleton in Hb. by subst.
  - intros Hb. discriminate Hb.
Defined.

Section InitAndReopen.
Variable env : Env.

Lemma initA_exact (st : State PolicyA.Client) :
  PolicyA.isInitialized (client st) = false →
  wp (PolicyA.init env) st
     (λ r st',
        let b := launched (world st) in
        match r with
        | Ret _ =>
          live (world st') = b :: live (world st)
          ∧ PolicyA.browser (client st') = Some b
          ∧ PolicyA.context (client st') = Some b
          ∧ PolicyA.page (client st') = Some b
          ∧ PolicyA.isInitialized (client st') = true
        | Throw e =>
          rejected env e
          ∧ PolicyA.isInitialized (client st') = false
          ∧ (live (world st') = live (world st)
             ∨ live (world st') = b :: live (world st)
               ∧ PolicyA.browser (client st') = Some b)
        end).
Proof.
  intros Hi. unfold PolicyA.init. wp_steps. rewrite Hi.
  wp_call ltac:(split; [by eexists _, _|split; [done|by left]]).
  wp_call ltac:(split; [by eexists _, _|split; [done|by right]]).
  wp_call ltac:(split; [by eexists _, _|split; [done|by right]]).
  wp_call ltac:(split; [by eexists _, _|split; [done|by right]]).
  wp_use visitHomepageA_spec; [by eexists|].
  intros [[]|e] st1 [Hk Hr]; destruct Hk as (Hb & Hc & Hp & Hi1 & _ & Hl & _ & _);
    simpl in Hb, Hc, Hp, Hi1, Hl.
  - wp_steps. by rewrite Hl, Hb, Hc, Hp.
  - split; [done|]. rewrite Hi1, Hl, Hb. split; [done|by right].
Qed.

(** X13. [init()] of policy A does nothing on an initialized controller.
    On one that is not, it starts exactly one browser: when it returns,
    the controller holds that browser, its context and its page and is
    initialized, so that the next [init()] does nothing; when it throws, a
    call to Playwright rejected, the controller is not initialized, and the
    browser it started, if any, is still running. *)
Theorem X13_init_starts_one_browser (st : State PolicyA.Client) :
  if PolicyA.isInitialized (client st)
  then PolicyA.init env st = (Ret (), st)
  else
    let b := launched (world st) in
    match PolicyA.init env st with
    | (Ret _, st') =>
      live (world st') = b :: live (world st)
      ∧ PolicyA.browser (client st') = Some b
      ∧ PolicyA.context (client st') = Some b
      ∧ PolicyA.page (client st') = Some b
      ∧ PolicyA.init env st' = (Ret (), st')
    | (Throw e, st') =>
      rejected env e
      ∧ PolicyA.isInitialized (client st') = false
      ∧ (live (world st') = live (world st)
         ∨ live (world st') = b :: live (world st)
           ∧ PolicyA.browser (client st') = Some b)
    end.
Proof.
  destruct (PolicyA.isInitialized (client st)) eqn:Hi; [by apply initA_noop|].
  pose proof (initA_exact st Hi) as H. unfold wp in H.
  destruct (PolicyA.init env st) as [[[]|e] st']; simpl in H; [|done].
  destruct H as (Hl & Hb & Hc & Hp & Hi'). repeat split; try done.
  by apply initA_noop.
Qed.

(** X14. [close()] of policy A keeps the time of the last warm-up. A
    session that is closed and opened again while that time is within the
    window gets a new browser and no warm-up: when no call rejects,
    [init()] returns without a navigation to the homepage. *)
Theorem X14_reopen_without_warmup (st : State PolicyA.Client) b :
  neverRejects env →
  PolicyA.browser (client st) = Some b →
  withinWindow (client st) (env_now env (5 + tick (world st))) = true →
  let st1 := (PolicyA.close env st).2 in
  let st2 := (PolicyA.init env st1).2 in
  (PolicyA.close env st).1 = Ret ()
  ∧ (PolicyA.init env st1).1 = Ret ()
  ∧ PolicyA.browser (client st2) = Some (launched (world st))
  ∧ warmups st2 = warmups st
  ∧ PolicyA.lastHomepageVisit (client st2) = PolicyA.lastHomepageVisit (client st).
Proof.
  intros Hnr Hb Hw.
  assert (Hclose : PolicyA.close env st
                   = (Ret (), {| world := {| tick := S (tick (world st));
                                             live := filter (λ x, x ≠ b) (live (world st));
                                             launched := launched (world st);
                                             trace := EvBrowserClose b :: trace (world st) |};
                                 client := {| PolicyA.browser := None;
                                              PolicyA.context := None;
                                              PolicyA.page := None;
                                              PolicyA.isInitialized := false;
                                              PolicyA.lastHomepageVisit :=
                                                PolicyA.lastHomepageVisit (client st);
                                              PolicyA.homepageVisitInterval :=
                                                PolicyA.homepageVisitInterval (client st) |} |})).
  { unfold PolicyA.close, bind, getClient, browserClose. simpl. rewrite Hb. simpl.
    by rewrite Hnr. }
  rewrite Hclose. cbv zeta. cbn [fst snd].
  set (st1 := {| world := _; client := _ |}).
  pose proof (initA_spec env st1 eq_refl) as Hspec.
  pose proof (initA_exact st1 eq_refl) as Hexact.
  unfold wp in Hspec, Hexact.
  destruct (PolicyA.init env st1) as [[[]|e] st2]; simpl in Hspec, Hexact.
  - destruct Hspec as (_ & _ & _ & _ & Hwin).
    destruct Hexact as (_ & Hb2 & _).
    lazymatch type of Hwin with
    | if ?c then _ else _ => replace c with true in Hwin by (symmetry; exact Hw)
    end.
    destruct Hwin as [Hlast Hwarm]. simpl. by repeat split.
  - destruct Hspec as (_ & _ & (t & msg & Hf & _) & _). by rewrite Hnr in Hf.
Qed.
End InitAndReopen.

Lemma X14_reopen_without_warmup_witness :
  let st := (PolicyA.search envOk (js "телефон") noOptions PolicyA.initial).2 in
  let st1 := (PolicyA.close envOk st).2 in
  let st2 := (PolicyA.init envOk st1).2 in
  (PolicyA.close envOk st).1 = Ret ()
  ∧ (PolicyA.init envOk st1).1 = Ret ()
  ∧ PolicyA.browser (client st2) = Some (launched (world st))
  ∧ warmups st2 = warmups st
  ∧ PolicyA.lastHomepageVisit (client st2) = PolicyA.lastHomepageVisit (client st).
Proof.
  apply (X14_reopen_without_warmup envOk
           (PolicyA.search envOk (js "телефон") noOptions PolicyA.initial).2 0%nat).
  - intros t. reflexivity.
  - vm_compute. reflexivity.
  - vm_compute. reflexivity.
Defined.

(** X15. [close()] of policy B never throws, whatever the controller
    holds and whatever [browser.close()] answers: it returns, the
    controller holds no browser afterwards, the browser it held is no
    longer running, and a second [close()] changes nothing. *)
Theorem X15_closeB_never_throws env (st : State PolicyB.Client) :
  ∃ st1,
    PolicyB.close env st = (Ret (), st1)
    ∧ PolicyB.browser (client st1) = None
    ∧ (∀ b, PolicyB.browser (client st) = Some b →
            (b ∉ live (world st1)) ∧ client st1 = PolicyB.constructor)
    ∧ PolicyB.close env st1 = (Ret (), st1).
Proof.
  unfold PolicyB.close, bind, getClient, tryCatch, browserClose. simpl.
  destruct (PolicyB.browser (client st)) as [b|] eqn:Hb; simpl.
  - assert (Hgone : b ∉ filter (λ x, x ≠ b) (live (world st))).
    { intros Hin. apply list_elem_of_filter in Hin as [Hne _]. done. }
    destruct (env_fail env _); simpl; eexists; (split; [reflexivity|]); simpl;
      split_and!; try done; by intros b' [= <-].
  - exists st. rewrite Hb. by repeat split.
Qed.

(** X16. When [close()] of policy A returns, the controller holds no
    browser; the browser it held is no longer running, and the controller
    is as it was constructed but for the time of the last warm-up; a
    second [close()] changes nothing. *)
Theorem X16_closeA_returns env (st st1 : State PolicyA.Client) :
  PolicyA.close env st = (Ret (), st1) →
  PolicyA.browser (client st1) = None
  ∧ (∀ b, PolicyA.browser (client st) = Some b →
          (b ∉ live (world st1))
          ∧ PolicyA.context (client st1) = None
          ∧ PolicyA.page (client st1) = None
          ∧ PolicyA.isInitialized (client st1) = false
          ∧ PolicyA.lastHomepageVisit (client st1) = PolicyA.lastHomepageVisit (client st))
  ∧ PolicyA.close env st1 = (Ret (), st1).
Proof.
  intros Hrun.
  assert (H : PolicyA.browser (client st1) = None
              ∧ ∀ b, PolicyA.browser (client st) = Some b →
                     (b ∉ live (world st1))
                     ∧ PolicyA.context (client st1) = None
                     ∧ PolicyA.page (client st1) = None
                     ∧ PolicyA.isInitialized (client st1) = false
                     ∧ PolicyA.lastHomepageVisit (client st1)
                       = PolicyA.lastHomepageVisit (client st)).
  { revert Hrun. unfold PolicyA.close, bind, getClient, browserClose. simpl.
    destruct (PolicyA.browser (client st)) as [b|] eqn:Hb.
    - destruct (env_fail env _); [done|]. simpl. intros [= <-]. simpl.
      split; [done|]. intros b' [= <-]. split; [|done].
      intros Hin. apply list_elem_of_filter in Hin as [Hne _]. done.
    - intros [= <-]. split; [done|]. intros b' Hb'. discriminate Hb'. }
  destruct H as [Hnone Hheld]. split; [done|]. split; [done|].
  by apply closeA_without_browser.
Qed.

Lemma X16_closeA_returns_witness :
  let st := (PolicyA.search envOk (js "телефон") noOptions PolicyA.initial).2 in
  let st1 := (PolicyA.close envOk st).2 in
  PolicyA.browser (client st1) = None
  ∧ (∀ b, PolicyA.browser (client st) = Some b →
          (b ∉ live (world st1))
          ∧ PolicyA.context (client st1) = None
          ∧ PolicyA.page (client st1) = None
          ∧ PolicyA.isInitialized (client st1) = false
          ∧ PolicyA.lastHomepageVisit (client st1) = PolicyA.lastHomepageVisit (client st))
  ∧ PolicyA.close envOk st1 = (Ret (), st1).
Proof.
  apply (X16_closeA_returns envOk). vm_compute. reflexivity.
Defined.

(** X17. Whatever line policy A takes a price from, policy B takes the
    same price: policy A lets the first line with the ruble sign decide,
    policy B goes on to the next such line when that one has no digit. *)
Theorem X17_findPrice_A_implies_B lines p :
  (PolicyA.findPrice lines).1 = Some p → PolicyB.findPrice lines = Some p.
Proof.
  induction lines as [|line lines IH]; simpl; [done|].
  destruct (includes line ruble); [|exact IH].
  simpl. destruct (matchPriceRun line); [|done]. done.
Qed.

Lemma X17_findPrice_A_implies_B_witness :
  PolicyB.findPrice (textLines (js "Смартфон
1 299 ₽")) = Some 1299.
Proof.
  apply (X17_findPrice_A_implies_B (textLines (js "Смартфон
1 299 ₽")) 1299).
  vm_compute. reflexivity.
Defined.

(** ** Categories and filters *)

Lemma origin_http s : startsWith (origin ++ s) (js "http") = true.
Proof. apply startsWith_spec. exists (js "s://www.ozon.ru" ++ s). by vm_compute. Qed.

Lemma collectCategories_ok links result seen :
  Forall categoryOk result →
  Forall categoryOk (collectCategories links result seen)
  ∧ (length (collectCategories links result seen) ≤ length result + length links)%nat.
Proof.
  revert result seen. induction links as [|link links IH]; intros result seen Hres.
  { simpl. split; [done|lia]. }
  cbn [collectCategories].
  destruct (href (asLink link)) as [h|];
    [|destruct (IH result seen Hres); split; [done|simpl; lia]].
  destruct (trim <$> linkText (asLink link)) as [name|];
    [|destruct (IH result seen Hres); split; [done|simpl; lia]].
  destruct (_ && _) eqn:Hc;
    [|destruct (IH result seen Hres); split; [done|simpl; lia]].
  apply andb_true_iff in Hc as [Hc _]. apply andb_true_iff in Hc as [Hc Hlt].
  apply andb_true_iff in Hc as [_ Hgt].
  edestruct (IH (result ++ [{| categoryName := name;
                               categoryUrl := if startsWith h (js "http") then h
                                              else origin ++ h |}])) as [H1 H2].
  { apply Forall_app. split; [done|]. apply Forall_singleton. split; cbn [categoryName categoryUrl].
    - apply bool_decide_eq_true_1 in Hgt, Hlt. done.
    - destruct (startsWith h (js "http")) eqn:Hs; [exact Hs|apply origin_http]. }
  split; [exact H1|]. etrans; [exact H2|]. rewrite length_app. simpl. lia.
Qed.

Lemma scrapeCategories_ok doc :
  Forall categoryOk (scrapeCategories doc)
  ∧ (length (scrapeCategories doc) ≤ length (querySelectorAll doc categoryLinks))%nat.
Proof. unfold scrapeCategories. by apply collectCategories_ok. Qed.

Section CategoriesAndFilters.
Variable env : Env.

(** An operation of policy A that begins with [init()], when what is
    proved of it does not depend on the state it starts from. *)
Lemma wp_init_then {A} (k : () → M PolicyA.Client A) st
    (Q : Res A → State PolicyA.Client → Prop) :
  readyA st →
  (∀ st0, PolicyA.isInitialized (client st0) = true →
          is_Some (PolicyA.page (client st0)) → wp (k ()) st0 Q) →
  (∀ e st0, rejected env e → Q (Throw e) st0) →
  wp (bind (PolicyA.init env) k) st Q.
Proof.
  intros Hready Hk Hrej. apply wp_bind.
  destruct (PolicyA.isInitialized (client st)) eqn:Hi.
  - apply wp_initA_noop; [done|]. by apply Hk, Hready.
  - eapply wp_mono; [by apply initA_spec|].
    intros [[]|e] st0 (_ & _ & Hr).
    + destruct Hr as (Hi0 & Hp0 & _). by apply Hk.
    + apply Hrej, Hr.
Qed.

Lemma getCategoriesB_outcome (st : State PolicyB.Client) :
  wp (PolicyB.getCategories env) st
     (λ r _, match r with
             | Ret categories => ∃ td, categories = scrapeCategories (env_document env td)
             | Throw e => rejected env e
             end).
Proof.
  unfold PolicyB.getCategories.
  wp_use loadPageB_outcome; [done|].
  intros [[p t]|e] st1 [Hpw Hr]; wp_simpl; [|by apply rethrowB_pacing].
  wp_call ltac:(apply rethrowB_pacing; intros; by eexists _, _).
  apply closeThenB_pacing. intros. by eexists.
Qed.

Lemma getCategoriesA_outcome (st : State PolicyA.Client) :
  readyA st →
  wp (PolicyA.getCategories env) st
     (λ r _, match r with
             | Ret categories => ∃ td, categories = scrapeCategories (env_document env td)
             | Throw e => rejected env e
             end).
Proof.
  intros Hready. unfold PolicyA.getCategories.
  apply wp_init_then; [done| |done].
  intros st0 Hi [p Hp]. wp_steps. rewrite Hp.
  wp_call ltac:(by eexists _, _). wp_steps. rewrite Hp.
  wp_call ltac:(by eexists _, _). wp_steps. rewrite Hp.
  wp_call ltac:(by eexists _, _). by eexists.
Qed.

(** X18. In both policies every category that [getCategories] returns
    has a name of 2 to 99 code units and an absolute URL. *)
Theorem X18_getCategories_wellformed :
  (∀ st categories st',
     PolicyB.getCategories env st = (Ret categories, st') →
     Forall categoryOk categories)
  ∧ (∀ st categories st',
       readyA st →
       PolicyA.getCategories env st = (Ret categories, st') →
       Forall categoryOk categories).
Proof.
  split.
  - intros st categories st' Hrun. pose proof (getCategoriesB_outcome st) as H.
    unfold wp in H. rewrite Hrun in H. destruct H as [td ->]. apply scrapeCategories_ok.
  - intros st categories st' Hready Hrun.
    pose proof (getCategoriesA_outcome st Hready) as H.
    unfold wp in H. rewrite Hrun in H. destruct H as [td ->]. apply scrapeCategories_ok.
Qed.

Lemma collectFilters_ok els result :
  Forall (λ t, t ≠ [] ∧ (length t < 50)%nat) result →
  Forall (λ t, t ≠ [] ∧ (length t < 50)%nat) (PolicyAFilters.collectFilters els result).
Proof.
  revert result. induction els as [|el els IH]; intros result Hres; [done|].
  cbn [PolicyAFilters.collectFilters].
  destruct (trim <$> linkText (asLink el)) as [text|]; [|by apply IH].
  destruct (_ && _) eqn:Hc; [|by apply IH].
  apply andb_true_iff in Hc as [Hne Hlt]. apply bool_decide_eq_true_1 in Hlt.
  apply IH, Forall_app. split; [done|]. apply Forall_singleton.
  split; [by destruct text|done].
Qed.

Lemma getFiltersA_outcome query (st : State PolicyA.Client) :
  readyA st →
  wp (PolicyAFilters.getFilters env query) st
     (λ r _,
        match r with
        | Ret filters =>
          ∃ td u,
            filters = PolicyAFilters.scrapeFilters query u (env_document env td)
            ∧ if startsWith query (js "http") then u = query
              else ∃ q, encodeURIComponent query = Some q
                        ∧ u = js "https://www.ozon.ru/search/?text=" ++ q
        | Throw e =>
          rejected env e
          ∨ (startsWith query (js "http") = false
             ∧ encodeURIComponent query = None ∧ e = URIError (js "URI malformed"))
        end).
Proof.
  intros Hready. unfold PolicyAFilters.getFilters.
  apply wp_init_then; [done| |by left].
  intros st0 Hi [p Hp]. unfold PolicyAFilters.filtersUrl, encodeQuery.
  destruct (startsWith query (js "http")) eqn:Hs.
  - wp_steps. rewrite Hp.
    wp_call ltac:(left; by eexists _, _). wp_steps. rewrite Hp.
    wp_call ltac:(left; by eexists _, _). wp_steps. rewrite Hp.
    wp_call ltac:(left; by eexists _, _). by eexists _, _.
  - destruct (encodeURIComponent query) as [q|] eqn:Hq; [|wp_steps; by right].
    wp_steps. rewrite Hp.
    wp_call ltac:(left; by eexists _, _). wp_steps. rewrite Hp.
    wp_call ltac:(left; by eexists _, _). wp_steps. rewrite Hp.
    wp_call ltac:(left; by eexists _, _). eexists _, _. split; [done|]. by eexists.
Qed.

(** X19. [getFilters] of policy A looks for no block: it ends with the
    rejection of a call to Playwright, with the [URIError] of a query that
    is not a URL and cannot be encoded, or with a result. The result
    carries the query as it was given and an absolute URL, and every label
    in [availableFilters] is not empty and has fewer than 50 code units. *)
Theorem X19_getFiltersA_outcome query (st : State PolicyA.Client) :
  readyA st →
  match PolicyAFilters.getFilters env query st with
  | (Ret filters, _) =>
    PolicyAFilters.query filters = query
    ∧ startsWith (PolicyAFilters.url filters) (js "http") = true
    ∧ Forall (λ t, t ≠ [] ∧ (length t < 50)%nat) (PolicyAFilters.availableFilters filters)
  | (Throw e, _) =>
    rejected env e
    ∨ (encodeURIComponent query = None ∧ e = URIError (js "URI malformed"))
  end.
Proof.
  intros Hready. pose proof (getFiltersA_outcome query st Hready) as H. unfold wp in H.
  destruct (PolicyAFilters.getFilters env query st) as [[filters|e] st'];
    cbv beta iota delta [fst snd] in H.
  - destruct H as (td & u & -> & Hu). cbn [PolicyAFilters.query PolicyAFilters.url
                                           PolicyAFilters.availableFilters
                                           PolicyAFilters.scrapeFilters].
    split; [done|]. split; [|by apply collectFilters_ok].
    destruct (startsWith query (js "http")) eqn:Hs; [by subst u|].
    destruct Hu as (q & _ & ->). apply startsWith_spec.
    exists (js "s://www.ozon.ru/search/?text=" ++ q). by vm_compute.
  - destruct H as [H|(_ & Hq & He)]; [by left|by right].
Qed.

(** X20. The sort options that [getFilters] offers are, in both
    policies, the keys of the table that [search] looks the [sort] option
    up in: a value taken from the answer of [getFilters] always selects a
    sorting. *)
Theorem X20_sort_options_accepted query u doc (st : State PolicyB.Client) :
  (PolicyAFilters.sortOptions (PolicyAFilters.scrapeFilters query u doc)).*1 = sortMap.*1
  ∧ match PolicyB.getFilters query st with
    | (Ret filters, st') =>
      st' = st
      ∧ (sortOptions filters).*1 = sortMap.*1
      ∧ ∀ value, value ∈ (sortOptions filters).*1 → is_Some (lookupKey value sortMap)
    | (Throw _, _) => False
    end.
Proof.
  split; [by vm_compute|]. cbn [PolicyB.getFilters ret sortOptions].
  split; [done|]. split; [by vm_compute|].
  intros value Hv.
  assert (Hkeys : Forall (λ v, is_Some (lookupKey v sortMap)) sortMap.*1).
  { vm_compute. repeat (constructor; [by eexists|]). constructor. }
  rewrite Forall_forall in Hkeys. apply Hkeys.
  revert Hv. by vm_compute.
Qed.
End CategoriesAndFilters.

Lemma X18_getCategories_wellformed_witness :
  ∃ categories st',
    PolicyA.getCategories envOk PolicyA.initial = (Ret categories, st')
    ∧ Forall categoryOk categories.
Proof.
  eexists _, _. split; [vm_compute; reflexivity|].
  eapply (proj2 (X18_getCategories_wellformed envOk) PolicyA.initial).
  - intros Hi. discriminate Hi.
  - vm_compute. reflexivity.
Defined.

Lemma X19_getFiltersA_outcome_witness :
  match PolicyAFilters.getFilters envOk (js "телефон") PolicyA.initial with
  | (Ret filters, _) =>
    PolicyAFilters.query filters = js "телефон"
    ∧ startsWith (PolicyAFilters.url filters) (js "http") = true
    ∧ Forall (λ t, t ≠ [] ∧ (length t < 50)%nat) (PolicyAFilters.availableFilters filters)
  | (Throw e, _) =>
    rejected envOk e
    ∨ (encodeURIComponent (js "телефон") = None ∧ e = URIError (js "URI malformed"))
  end.
Proof.
  apply (X19_getFiltersA_outcome envOk (js "телефон") PolicyA.initial).
  intros Hi. discriminate Hi.
Defined.

(** ** The fields of a product page *)

Import ProductPage.

Lemma imagesOk_snoc images src :
  imagesOk images → (length images < 10)%nat → src ≠ [] → src ∉ images →
  imagesOk (images ++ [src]).
Proof.
  intros (Hlen & Hnd & Hne) Hlt Hsrc Hnew. split_and!.
  - rewrite length_app. simpl. lia.
  - apply NoDup_app. split_and!; [done| |apply NoDup_singleton].
    intros x Hx Hx'. apply list_elem_of_singleton in Hx'. by subst.
  - apply Forall_app. split; [done|]. by apply Forall_singleton.
Qed.

Lemma collectImagesB_ok srcs images :
  imagesOk images → imagesOk (collectImagesB srcs images).
Proof.
  revert images. induction srcs as [|src srcs IH]; intros images Hok; [done|].
  cbn [collectImagesB]. case_bool_decide as Hlen; [done|].
  destruct (nonempty src && _) eqn:Hc; [|by apply IH].
  apply andb_true_iff in Hc as [Hne Hnew]. apply nonempty_spec in Hne.
  apply negb_true_iff, bool_decide_eq_false_1 in Hnew.
  apply IH, imagesOk_snoc; [done|lia|done..].
Qed.

Lemma collectImagesA_ok srcs images :
  imagesOk images → (length images < 10)%nat →
  Forall (λ src, includes src (js "ozone") = true) images →
  imagesOk (collectImagesA srcs images)
  ∧ Forall (λ src, includes src (js "ozone") = true) (collectImagesA srcs images).
Proof.
  revert images. induction srcs as [|src srcs IH]; intros images Hok Hlt Hoz; [done|].
  cbn [collectImagesA].
  destruct (nonempty src && _ && _) eqn:Hc; [|by apply IH].
  apply andb_true_iff in Hc as [Hc Hnew]. apply andb_true_iff in Hc as [Hne Hinc].
  apply nonempty_spec in Hne. apply negb_true_iff, bool_decide_eq_false_1 in Hnew.
  assert (Hok' : imagesOk (images ++ [src])) by by apply imagesOk_snoc.
  assert (Hoz' : Forall (λ src, includes src (js "ozone") = true) (images ++ [src])).
  { apply Forall_app. split; [done|]. by apply Forall_singleton. }
  cbv zeta. case_bool_decide as Hlen; [done|]. apply IH; [done|lia|done].
Qed.

(** X21. The images of a product: in both policies the callback of
    [getProductDetails] collects at most ten sources, all of them
    different and none of them empty, and in policy A each of them
    contains [ozone]. *)
Theorem X21_product_images_bounded srcs :
  imagesOk (collectImagesB srcs [])
  ∧ imagesOk (collectImagesA srcs [])
  ∧ Forall (λ src, includes src (js "ozone") = true) (collectImagesA srcs []).
Proof.
  assert (Hnil : imagesOk []).
  { split_and!; [simpl; lia|constructor|done]. }
  split; [by apply collectImagesB_ok|].
  apply collectImagesA_ok; [done|simpl; lia|done].
Qed.

Lemma trim_nil_or s : trim s = [] ∨ ∃ c t, trim s = c :: t.
Proof. destruct (trim s); [by left|right; by eexists _, _]. Qed.

Lemma split_head_no_sep sep s l ls : split sep s = l :: ls → sep ∉ l.
Proof.
  revert l ls. induction s as [|c s IH]; intros l ls; simpl.
  - intros [= <- _]. apply not_elem_of_nil.
  - destruct (c =? sep) eqn:Hc.
    + intros [= <- _]. apply not_elem_of_nil.
    + destruct (split sep s) as [|l' ls'] eqn:Hs.
      * intros [= <- _]. apply N.eqb_neq in Hc.
        intros Hin. apply list_elem_of_singleton in Hin. by subst.
      * intros [= <- _]. apply N.eqb_neq in Hc. specialize (IH l' ls' eq_refl).
        intros Hin. apply elem_of_cons in Hin as [->|Hin]; done.
Qed.

Lemma dropWhile_subseteq p s c : c ∈ dropWhile p s → c ∈ s.
Proof.
  induction s as [|d s IH]; simpl; [done|].
  destruct (p d); [|done]. intros Hin. apply elem_of_cons. right. by apply IH.
Qed.

Lemma elem_of_rev (c : N) l : c ∈ rev l ↔ c ∈ l.
Proof. rewrite !list_elem_of_In. symmetry. apply in_rev. Qed.

Lemma trim_subseteq s c : c ∈ trim s → c ∈ s.
Proof.
  unfold trim. intros Hin. rewrite elem_of_rev in Hin.
  apply dropWhile_subseteq in Hin. rewrite elem_of_rev in Hin.
  by apply dropWhile_subseteq in Hin.
Qed.

(** X22. The description of a product is never the empty string and
    has at most 2000 code units; the seller is never the empty string and
    holds no line break. *)
Theorem X22_description_and_seller descWidget sellerWidget :
  match descriptionOf descWidget with
  | Some d => d ≠ [] ∧ (length d ≤ 2000)%nat
  | None => True
  end
  ∧ match sellerOf sellerWidget with
    | Some s => s ≠ [] ∧ (ch_newline ∉ s)
    | None => True
    end.
Proof.
  split.
  - unfold descriptionOf. destruct descWidget as [w|]; [|done].
    destruct (innerText w) as [t|]; simpl; [|done].
    assert (Hlen : (length (take 2000 (trim t)) ≤ 2000)%nat) by (rewrite length_take; lia).
    destruct (take 2000 (trim t)) as [|c d]; simpl; [done|]. by split.
  - unfold sellerOf. destruct sellerWidget as [w|]; [|done].
    destruct (innerText w) as [t|]; simpl; [|done].
    destruct (split ch_newline t) as [|l ls] eqn:Hs; simpl; [done|].
    destruct (trim l) as [|c s] eqn:Hl; simpl; [done|]. split; [done|].
    rewrite <- Hl. intros Hin. apply trim_subseteq in Hin.
    by apply (split_head_no_sep _ _ _ _ Hs).
Qed.

Lemma splitWhere_parts sep s :
  Forall (λ part, Forall (λ c, sep c = false) part) (splitWhere sep s).
Proof.
  induction s as [|c s IH]; simpl; [by repeat constructor|].
  destruct (sep c) eqn:Hc; [by constructor|].
  destruct (splitWhere sep s) as [|l ls]; [by repeat constructor|].
  apply Forall_cons in IH as [Hl Hls]. constructor; [by constructor|done].
Qed.

Lemma joinSpace_parts (P : N → Prop) parts :
  P 32 → Forall (Forall P) parts → Forall P (joinSpace parts).
Proof.
  intros Hsp. induction 1 as [|p ps Hp Hps IH]; [done|].
  destruct ps as [|p' ps]; [done|].
  change (joinSpace (p :: p' :: ps)) with (p ++ 32 :: joinSpace (p' :: ps)).
  apply Forall_app. split; [done|]. by constructor.
Qed.

Lemma trim_Forall (P : N → Prop) s : Forall P s → Forall P (trim s).
Proof.
  rewrite !Forall_forall. intros H c Hc. by apply H, trim_subseteq.
Qed.

(** X23. The characteristics of a product (policy A): a row gives at
    most one entry, and neither the name nor the value of an entry holds a
    tab, a line break or a colon. *)
Theorem X23_characteristics_without_separators rows :
  (length (characteristicsOf rows) ≤ length rows)%nat
  ∧ Forall (λ entry, Forall (λ c, isFieldSeparator c = false) entry.1
                     ∧ Forall (λ c, isFieldSeparator c = false) entry.2)
           (characteristicsOf rows).
Proof.
  split.
  { unfold characteristicsOf. induction rows as [|row rows IH]; [done|].
    change (omap characteristicOf (row :: rows))
      with (match characteristicOf row with
            | Some entry => entry :: omap characteristicOf rows
            | None => omap characteristicOf rows
            end).
    destruct (characteristicOf row); simpl; lia. }
  unfold characteristicsOf. apply Forall_forall. intros [name value] Hin.
  apply list_elem_of_omap in Hin as (text & _ & Hrow). unfold characteristicOf in Hrow.
  pose proof (splitWhere_parts isFieldSeparator text) as Hparts.
  destruct (splitWhere isFieldSeparator text) as [|n [|v vs]]; [done..|].
  assert (Hpair : (trim n, trim (joinSpace (v :: vs))) = (name, value)) by congruence.
  apply pair_equal_spec in Hpair as [<- <-].
  apply Forall_cons in Hparts as [Hn Hvs]. cbn [fst snd]. split.
  - by apply trim_Forall.
  - apply trim_Forall. by apply (joinSpace_parts (λ c, isFieldSeparator c = false)).
Qed.

(** X24. A product of policy A has no old price without a price: where
    the pattern of the old price matches the text of the price widget, so
    does the pattern of the price. *)
Theorem X24_old_price_needs_price priceText :
  is_Some (oldPriceOf priceText) → is_Some (priceOf priceText).
Proof.
  unfold oldPriceOf, priceOf. rewrite !fmap_is_Some.
  induction priceText as [|c s IH]; [by intros [? ?]|].
  cbn [matchOldPrice matchPriceBeforeRuble].
  destruct (is_digit c && startsWith (dropWhile isPriceChar s) ruble); [by eexists|].
  exact IH.
Qed.

Lemma X24_old_price_needs_price_witness :
  is_Some (priceOf (js "1 299 ₽ 1 999 ₽ -35%")).
Proof.
  apply (X24_old_price_needs_price (js "1 299 ₽ 1 999 ₽ -35%")).
  vm_compute. by eexists.
Defined.

(** ** The price and its printed form *)

Lemma digitsOfPos_value fuel : ∀ n acc a,
  n < 2 ^ N.of_nat fuel →
  ∃ k, fold_left (λ acc c, acc * 10 + (c - 48)) (digitsOfPos fuel n acc) a
       = fold_left (λ acc c, acc * 10 + (c - 48)) acc (a * 10 ^ k + n).
Proof.
  induction fuel as [|fuel IH]; intros n acc a Hn.
  { exists 0. simpl in *. f_equal. lia. }
  cbn [digitsOfPos]. cbv zeta.
  pose proof (N.div_mod n 10 ltac:(lia)) as Hdm.
  pose proof (N.mod_lt n 10 ltac:(lia)) as Hm.
  destruct (n / 10 =? 0) eqn:Hz.
  - apply N.eqb_eq in Hz. rewrite Hz in Hdm. exists 1. cbn [fold_left]. f_equal.
    rewrite N.pow_1_r. lia.
  - apply N.eqb_neq in Hz.
    assert (Hlt : n / 10 < 2 ^ N.of_nat fuel).
    { rewrite Nat2N.inj_succ, N.pow_succ_r' in Hn.
      revert Hn. generalize (2 ^ N.of_nat fuel). intros p Hn.
      apply N.Div0.div_lt_upper_bound. lia. }
    destruct (IH (n / 10) ((48 + n mod 10) :: acc) a Hlt) as [k ->].
    exists (N.succ k). cbn [fold_left]. f_equal. rewrite N.pow_succ_r'.
    replace (a * (10 * 10 ^ k)) with (a * 10 ^ k * 10) by ring.
    generalize (a * 10 ^ k). intros p. clear -Hdm Hm.
    revert Hdm Hm. generalize (n / 10) (n mod 10). intros q r Hdm Hm. lia.
Qed.

Lemma parseDigits_showN n : parseDigits (showN n) = n.
Proof.
  unfold parseDigits, showN.
  destruct (digitsOfPos_value (S (N.to_nat (N.log2 n))) n [] 0) as [k ->]; [|simpl; lia].
  rewrite Nat2N.inj_succ, N2Nat.id.
  destruct (N.eq_dec n 0) as [->|Hn]; [done|].
  apply N.log2_spec. lia.
Qed.

Lemma filter_nonspace_app (s t : jsstring) :
  filter (λ c, is_space c = false) (s ++ t)
  = filter (λ c, is_space c = false) s ++ filter (λ c, is_space c = false) t.
Proof. apply filter_app. Qed.

(** X27. The price makes the round trip through its printed form: when
    the locale prints a price that is not zero as its digits with white
    space between them, what [search] prints as [priceFormatted] is a line
    from which both policies read the same price back. *)
Theorem X27_price_round_trip doc n other rest :
  0 < n →
  rendersAs (toLocaleString doc n) n →
  ∃ formatted,
    formatPrice doc (Some n) other = Some formatted
    ∧ PolicyB.findPrice (formatted :: rest) = Some n
    ∧ PolicyA.findPrice (formatted :: rest) = (Some n, formatted).
Proof.
  intros Hpos (Hd & Hrun & Hdigits). unfold formatPrice.
  destruct n as [|n]; [lia|]. eexists. split; [reflexivity|].
  set (g := toLocaleString doc (N.pos n)) in *.
  assert (Hinc : includes (g ++ js " ₽") ruble = true).
  { apply includes_spec. exists (g ++ [32]), []. rewrite <- app_assoc. done. }
  assert (Hmatch : matchPriceRun (g ++ js " ₽") = Some (g ++ [32])).
  { destruct g as [|d g']; [done|]. simpl in Hd.
    change ((d :: g') ++ js " ₽") with (d :: g' ++ js " ₽"). cbn [matchPriceRun].
    rewrite Hd. apply Forall_cons in Hrun as [_ Hrun].
    change (js " ₽") with ([32] ++ [8381]). rewrite app_assoc.
    destruct (takeWhile_app_run (λ c, is_digit c || is_space c) (g' ++ [32]) [8381])
      as [-> _]; [|done|done].
    apply Forall_app. split; [exact Hrun|]. by apply Forall_singleton. }
  assert (Hparse : parsePriceRun (g ++ [32]) = N.pos n).
  { unfold parsePriceRun. rewrite filter_nonspace_app, Hdigits.
    change (filter _ [32]) with (@nil N). rewrite app_nil_r. apply parseDigits_showN. }
  cbn [PolicyB.findPrice PolicyA.findPrice]. rewrite Hinc, Hmatch. simpl.
  by rewrite Hparse.
Qed.

Lemma X27_price_round_trip_witness :
  ∃ formatted,
    formatPrice exampleDocument (Some 1299) None = Some formatted
    ∧ PolicyB.findPrice [formatted] = Some 1299
    ∧ PolicyA.findPrice [formatted] = (Some 1299, formatted).
Proof.
  apply (X27_price_round_trip exampleDocument 1299 None []).
  - lia.
  - split_and!; vm_compute; try reflexivity. repeat constructor.
Defined.

(** ** After any sequence of operations *)

(** X26. Whatever operations a controller of policy A has run before,
    [search] ends with a result, with the rejection of a call to
    Playwright, or with the [URIError] of a query that cannot be encoded:
    it never fails on a page that is [null], and it never reports a
    block. *)
Theorem X26_searchA_errors env (ops : list OperationA) query options e :
  (PolicyA.search env query options (foldl (afterA env) PolicyA.initial ops)).1 = Throw e →
  rejected env e
  ∨ (encodeURIComponent query = None ∧ e = URIError (js "URI malformed")).
Proof.
  intros Hrun.
  pose proof (searchA_spec env query options _ (policyA_ready_invariant env ops)) as H.
  unfold wp in H. by rewrite Hrun in H.
Qed.

Lemma X26_searchA_errors_witness :
  rejected envTimeoutA (PlaywrightError timeoutMessage)
  ∨ (encodeURIComponent (js "телефон") = None
     ∧ PlaywrightError timeoutMessage = URIError (js "URI malformed")).
Proof.
  apply (X26_searchA_errors envTimeoutA [CloseA] (js "телефон") noOptions).
  vm_compute. reflexivity.
Defined.
